(** * Bookmark plugin: marker codec, placement and viewport line estimation

    A shallow embedding of the TypeScript sources of the Obsidian bookmark
    plugin (main.ts, gutterDecoration.ts, constants.ts) together with the
    properties its specification states about them.

    - JavaScript strings are sequences of UTF-16 code units ([list N]).
    - JavaScript numbers are binary64 values: a finite one is given by
      its exact rational value, and division, multiplication and
      subtraction round to the nearest binary64 value, ties to even,
      overflowing to an infinity.  The sign of zero is not modelled; the
      estimator never divides by a computed zero and its result cannot
      tell the two zeros apart.  Indices and lengths of arrays are
      integers.
    - Host calls that may throw return [option]; [None] is a thrown
      exception. *)

From Stdlib Require Import ZArith QArith Qround Lia List Sorted Ascii String.
From Stdlib Require SpecFloat.
From stdpp Require Import base option list strings gmap.

Open Scope Z_scope.

(** ** JavaScript numbers *)

Module Num.

Inductive number : Type :=
| Fin (q : Q)
| PosInf
| NegInf
| NaN.

Definition int (z : Z) : number := Fin (inject_Z z).

(** [a <= b]: false as soon as one side is NaN. *)
Definition leb (a b : number) : bool :=
  match a, b with
  | NaN, _ | _, NaN => false
  | Fin p, Fin q => Qle_bool p q
  | NegInf, _ => true
  | _, PosInf => true
  | _, _ => false
  end.

(** *** Rounding to binary64

    A finite binary64 value is an integer multiple of [2^-1074] whose
    significand has 53 bits at most; arithmetic rounds the exact result
    to the nearest such value, ties to the even significand, and to an
    infinity from [2^1024] on. *)

(** [n / d] rounded to the nearest integer, ties to even ([0 <= n],
    [0 < d]). *)
Definition rne (n d : Z) : Z :=
  let q := n / d in
  match 2 * (n mod d) ?= d with
  | Lt => q
  | Eq => if Z.even q then q else q + 1
  | Gt => q + 1
  end.

(** The binary64 value nearest to [n / d], in units of [2^-1074]: [e] is
    the exponent of the last place of the significand, [0] in the
    subnormal range. *)
Definition magnitude (n d : Z) : Z :=
  let scaled := n * 2 ^ 1074 in
  let e := Z.max (Z.log2 (scaled / d) - 52) 0 in
  rne scaled (d * 2 ^ e) * 2 ^ e.

(** The value of a binary64 number given in units of [2^-1074]; from
    [2^1024] on it is an infinity. *)
Definition ofScaled (v : Z) : number :=
  if 2 ^ 2098 <=? v then PosInf
  else if v <=? - 2 ^ 2098 then NegInf
  else Fin (Qred (Qmake v (2 ^ 1074))).

(** The nearest binary64 value of a rational, in units of [2^-1074]. *)
Definition scaled (q : Q) : Z :=
  let r := Qred q in
  Z.sgn (Qnum r) * magnitude (Z.abs (Qnum r)) (Zpos (Qden r)).

Definition round (q : Q) : number := ofScaled (scaled q).

(** [a / b]: a finite value over zero is an infinity of its sign. *)
Definition div (a b : number) : number :=
  match a, b with
  | NaN, _ | _, NaN => NaN
  | Fin p, Fin q =>
      if Qeq_bool q 0 then
        if Qeq_bool p 0 then NaN
        else if Qle_bool 0 p then PosInf else NegInf
      else round (p / q)
  | Fin _, _ => Fin 0
  | PosInf, Fin q => if Qle_bool 0 q then PosInf else NegInf
  | NegInf, Fin q => if Qle_bool 0 q then NegInf else PosInf
  | _, _ => NaN
  end.

(** [a * b]: an infinity times zero is NaN. *)
Definition mul (a b : number) : number :=
  match a, b with
  | NaN, _ | _, NaN => NaN
  | Fin p, Fin q => round (p * q)
  | Fin p, PosInf | PosInf, Fin p =>
      if Qeq_bool p 0 then NaN else if Qle_bool 0 p then PosInf else NegInf
  | Fin p, NegInf | NegInf, Fin p =>
      if Qeq_bool p 0 then NaN else if Qle_bool 0 p then NegInf else PosInf
  | PosInf, PosInf | NegInf, NegInf => PosInf
  | _, _ => NegInf
  end.

(** [a - b]. *)
Definition sub (a b : number) : number :=
  match a, b with
  | NaN, _ | _, NaN => NaN
  | Fin p, Fin q => round (p - q)
  | Fin _, PosInf => NegInf
  | Fin _, NegInf => PosInf
  | PosInf, PosInf | NegInf, NegInf => NaN
  | PosInf, _ => PosInf
  | NegInf, _ => NegInf
  end.

(** [Math.floor]. *)
Definition floor (a : number) : number :=
  match a with
  | Fin q => int (Qfloor q)
  | _ => a
  end.

Definition max (a b : number) : number :=
  match a, b with
  | NaN, _ | _, NaN => NaN
  | _, _ => if leb a b then b else a
  end.

Definition min (a b : number) : number :=
  match a, b with
  | NaN, _ | _, NaN => NaN
  | _, _ => if leb a b then a else b
  end.

End Num.

(** ** The host's preview view, as far as the estimator reads it *)

Record HTMLElement : Type := { scrollHeight : Z }.

Record MarkdownPreviewView : Type := {
  getScroll : option Num.number;   (* [None]: the call throws *)
  containerEl : option HTMLElement (* [None]: the handle is undefined *)
}.

Record EditorHandle : Type := {
  lineCount : option Z             (* [None]: the call throws *)
}.

Record PreviewHost : Type := {
  previewMode : option MarkdownPreviewView;
  editor : option EditorHandle
}.

(** The body of the [try] block of [getVisibleLineInPreview]. *)
Definition getVisibleLineInPreview_try (view : PreviewHost) : option Num.number :=
  pm ← previewMode view;
  scroll ← getScroll pm;
  let el := containerEl pm in
  scrollPercentage ←
    (if Num.leb scroll (Num.int 100)
     then Some (Num.div scroll (Num.int 100))
     else e ← el; Some (Num.div scroll (Num.int (scrollHeight e))));
  ed ← editor view;
  n ← lineCount ed;
  let totalLines := Num.int n in
  let estimatedLine := Num.floor (Num.mul scrollPercentage totalLines) in
  let finalLine :=
    Num.min (Num.max (Num.int 0) estimatedLine) (Num.sub totalLines (Num.int 1)) in
  Some finalLine.

(** [getVisibleLineInPreview]: the [catch] logs and falls through to
    [return 0]. *)
Definition getVisibleLineInPreview (view : PreviewHost) : Num.number :=
  match getVisibleLineInPreview_try view with
  | Some finalLine => finalLine
  | None => Num.int 0
  end.

(** A viewport sample, as measured, and the host state that reports it. *)
Record ViewportSample : Type := {
  scrollOffset : Q;
  viewportExtent : Q;
  contentExtent : Z;
  totalLines : Z
}.

(** The host state with a scroll position, a scroll height and a line
    count to report. *)
Definition measuredHost (scroll : Num.number) (h n : Z) : PreviewHost :=
  {| previewMode := Some {| getScroll := Some scroll;
                            containerEl := Some {| scrollHeight := h |} |};
     editor := Some {| lineCount := Some n |} |}.

Definition hostOf (s : ViewportSample) : PreviewHost :=
  measuredHost (Num.Fin (scrollOffset s)) (contentExtent s) (totalLines s).

Definition estimateRendered (s : ViewportSample) : Num.number :=
  getVisibleLineInPreview (hostOf s).

(** The clamp of an integer line to [0 .. n - 1], as [Math.min(Math.max(0, e), n - 1)]. *)
Definition clampLine (n e : Z) : Z := Z.min (Z.max 0 e) (n - 1).

(** The line that the clamp makes of the floor of a number: an infinity
    goes to the nearer end. *)
Definition lineOf (n : Z) (x : Num.number) : Z :=
  match x with
  | Num.Fin q => clampLine n (Qfloor q)
  | Num.PosInf => n - 1
  | Num.NegInf => Z.min 0 (n - 1)
  | Num.NaN => 0
  end.

(** ** JavaScript strings *)

Abbreviation jsstring := (list N).

(** A string literal of the source, as code units. *)
Definition js (s : string) : jsstring := N_of_ascii <$> list_ascii_of_string s.

Definition LF : N := 10%N.
Definition CR : N := 13%N.
Definition SP : N := 32%N.

(** [s.startsWith(pat)]. *)
Fixpoint startsWith (s pat : jsstring) {struct pat} : bool :=
  match pat, s with
  | [], _ => true
  | p :: pat', c :: s' => N.eqb c p && startsWith s' pat'
  | _ :: _, [] => false
  end.

(** [s.includes(pat)]. *)
Fixpoint includes (s pat : jsstring) {struct s} : bool :=
  startsWith s pat ||
  match s with
  | [] => false
  | _ :: s' => includes s' pat
  end.

(** [s.indexOf(pat)], counting from [i]; [-1] when there is no occurrence. *)
Fixpoint indexOfFrom (i : Z) (s pat : jsstring) {struct s} : Z :=
  if startsWith s pat then i
  else match s with
       | [] => -1
       | _ :: s' => indexOfFrom (i + 1) s' pat
       end.

Definition indexOf (s pat : jsstring) : Z := indexOfFrom 0 s pat.

(** A relative index of [slice]: negative indices count from the end. *)
Definition sliceIndex (len i : Z) : Z :=
  if i <? 0 then Z.max (len + i) 0 else Z.min i len.

(** [s.slice(a, b)] and [s.slice(a)]. *)
Definition slice (s : jsstring) (a b : Z) : jsstring :=
  let len := Z.of_nat (length s) in
  let from := sliceIndex len a in
  let to := sliceIndex len b in
  take (Z.to_nat (to - from)) (drop (Z.to_nat from) s).

Definition sliceFrom (s : jsstring) (a : Z) : jsstring :=
  drop (Z.to_nat (sliceIndex (Z.of_nat (length s)) a)) s.

(** [s[i]]: [None] is [undefined]. *)
Definition charAt (s : jsstring) (i : Z) : option N :=
  if i <? 0 then None else s !! Z.to_nat i.

(** Puts [c] in front of the first piece of a split. *)
Definition consHead (c : N) (pieces : list jsstring) : list jsstring :=
  match pieces with
  | [] => [[c]]
  | l :: ls => (c :: l) :: ls
  end.

(** [s.split(/\r?\n/)]. *)
Fixpoint splitEol (s : jsstring) : list jsstring :=
  match s with
  | [] => [[]]
  | c :: s' =>
      if N.eqb c LF then [] :: splitEol s'
      else match s' with
           | d :: s'' =>
               if N.eqb c CR && N.eqb d LF then [] :: splitEol s''
               else consHead c (splitEol s')
           | [] => [[c]]
           end
  end.

(** [s.split('\n')]. *)
Fixpoint splitLF (s : jsstring) : list jsstring :=
  match s with
  | [] => [[]]
  | c :: s' =>
      if N.eqb c LF then [] :: splitLF s' else consHead c (splitLF s')
  end.

(** [lines.join(sep)]. *)
Fixpoint join (sep : jsstring) (lines : list jsstring) : jsstring :=
  match lines with
  | [] => []
  | l :: ls =>
      match ls with
      | [] => l
      | _ :: _ => l ++ sep ++ join sep ls
      end
  end.

(** [lines[i]] for a number [i]: [None] is [undefined]. *)
Definition lineAt (lines : list jsstring) (i : Z) : option jsstring :=
  if i <? 0 then None else lines !! Z.to_nat i.

(** [lines[i] = v], for [i] inside the array. *)
Definition setLine (lines : list jsstring) (i : Z) (v : jsstring) : list jsstring :=
  <[Z.to_nat i := v]> lines.

(** The class [\s] of a JavaScript regular expression. *)
Definition isSpace (c : N) : bool :=
  ((9 <=? c) && (c <=? 13) || (c =? 32) || (c =? 160) || (c =? 5760)
   || (8192 <=? c) && (c <=? 8202) || (c =? 8232) || (c =? 8233)
   || (c =? 8239) || (c =? 8287) || (c =? 12288) || (c =? 65279))%N.

(** The longest run of [\s] at the start of [s]. *)
Fixpoint spaceRun (s : jsstring) : nat :=
  match s with
  | c :: s' => if isSpace c then S (spaceRun s') else O
  | [] => O
  end.

(** [s.replace(re, '')] for a global regular expression [re] whose matches
    are never empty: [matchLen s] is the length of the match of [re] at the
    start of [s], if there is one.  [skip] counts the code units of the
    current match that are still to be dropped. *)
Fixpoint replaceAll (matchLen : jsstring -> option nat) (skip : nat)
    (s : jsstring) {struct s} : jsstring :=
  match s with
  | [] => []
  | c :: s' =>
      match skip with
      | S k => replaceAll matchLen k s'
      | O =>
          match matchLen s with
          | Some (S k) => replaceAll matchLen k s'
          | _ => c :: replaceAll matchLen O s'
          end
      end
  end.

(** ** constants.ts *)

Definition BOOKMARK_MARKER : jsstring := js "<!-- bookmark-marker -->".

Record BookmarkState : Type := {
  hasBookmark : bool;
  lineNumber : option Z            (* [None] is [null] *)
}.

(** The match of [/\s*<marker>/] at the start of [s]: the greedy run of
    spaces, then the marker (which starts with no space, so giving spaces
    back never helps). *)
Definition matchBefore (s : jsstring) : option nat :=
  let k := spaceRun s in
  if startsWith (drop k s) BOOKMARK_MARKER
  then Some (k + length BOOKMARK_MARKER)%nat else None.

(** The match of [/<marker>\s*/] at the start of [s]. *)
Definition matchAfter (s : jsstring) : option nat :=
  if startsWith s BOOKMARK_MARKER
  then Some (length BOOKMARK_MARKER + spaceRun (drop (length BOOKMARK_MARKER) s))%nat
  else None.

(** [content.replace(MARKER_CLEANUP_RE, '')] and the two replacements of
    the earlier revision, [beforeRe] and [afterRe]. *)
Definition replaceBefore (content : jsstring) : jsstring :=
  replaceAll matchBefore O content.

Definition replaceAfter (content : jsstring) : jsstring :=
  replaceAll matchAfter O content.

(** ** main.ts: insertion through [Vault.process] in preview mode *)

Definition CRLF : jsstring := [CR; LF].

Definition DELIMITER : jsstring := js "---".

(** [content.includes('\r\n') ? '\r\n' : '\n']. *)
Definition detectEol (content : jsstring) : jsstring :=
  if includes content CRLF then CRLF else [LF].

(** The loop [for (let i = 1; i < lines.length; i++)] that looks for the
    closing ['---']; [rest] is [lines] from index [i] on. *)
Fixpoint findClosing (i : Z) (rest : list jsstring) : Z :=
  match rest with
  | [] => -1
  | l :: rest' =>
      if bool_decide (l = DELIMITER) then i else findClosing (i + 1) rest'
  end.

Definition frontmatterEndIndex (lines : list jsstring) : Z :=
  match lines with
  | first :: rest =>
      if bool_decide (first = DELIMITER) then findClosing 1 rest else -1
  | [] => -1
  end.

(** The target line of the insertion: the visible line, moved past the
    frontmatter and clamped. *)
Definition insertTarget (lines : list jsstring) (visibleLine : Z) : Z :=
  let last := Z.of_nat (length lines) - 1 in
  let targetLine := Z.min visibleLine last in
  let frontmatterEnd := frontmatterEndIndex lines in
  let targetLine :=
    if negb (frontmatterEnd =? -1) && (targetLine <=? frontmatterEnd)
    then Z.min (frontmatterEnd + 1) last
    else targetLine in
  Z.max 0 (Z.min targetLine last).

(** The marker is appended to [lines[targetLine]] unless that line holds
    one already; reading a line that does not exist throws. *)
Definition insertMarkerAt (lines : list jsstring) (targetLine : Z)
    : option (list jsstring) :=
  lineContent ← lineAt lines targetLine;
  if negb (includes lineContent BOOKMARK_MARKER)
  then Some (setLine lines targetLine (lineContent ++ js " " ++ BOOKMARK_MARKER))
  else Some lines.

(** The callback given to [Vault.process] when a bookmark is set in preview
    mode. *)
Definition previewInsert (visibleLine : Z) (content : jsstring) : option jsstring :=
  let eol := detectEol content in
  let lines := splitEol content in
  let targetLine := insertTarget lines visibleLine in
  lines' ← insertMarkerAt lines targetLine;
  Some (join eol lines').

(** [lines[i]] for a JavaScript number [i]: only an integer names an
    element; NaN, an infinity or a fraction gives [undefined]. *)
Definition lineAtNumber (lines : list jsstring) (i : Num.number) : option jsstring :=
  match i with
  | Num.Fin q =>
      if Qeq_bool q (inject_Z (Qfloor q)) then lineAt lines (Qfloor q) else None
  | _ => None
  end.

(** [lines[i] = v] for a number [i]: the elements change only when [i] is
    an integer. *)
Definition setLineNumber (lines : list jsstring) (i : Num.number) (v : jsstring)
    : list jsstring :=
  match i with
  | Num.Fin q =>
      if Qeq_bool q (inject_Z (Qfloor q)) then setLine lines (Qfloor q) v else lines
  | _ => lines
  end.

(** The same callback with [visibleLine] as the number it closes over,
    the result of [getVisibleLineInPreview]: [Math.min], [Math.max] and
    [<=] are those of numbers, and [lineContent.includes] throws when
    [lines[targetLine]] is [undefined]. *)
Definition previewInsertAt (visibleLine : Num.number) (content : jsstring)
    : option jsstring :=
  let eol := detectEol content in
  let lines := splitEol content in
  let last := Num.int (Z.of_nat (length lines) - 1) in
  let targetLine := Num.min visibleLine last in
  let frontmatterEnd := frontmatterEndIndex lines in
  let targetLine :=
    if negb (frontmatterEnd =? -1) && Num.leb targetLine (Num.int frontmatterEnd)
    then Num.min (Num.int (frontmatterEnd + 1)) last
    else targetLine in
  let targetLine := Num.max (Num.int 0) (Num.min targetLine last) in
  lineContent ← lineAtNumber lines targetLine;
  let lines' :=
    if negb (includes lineContent BOOKMARK_MARKER)
    then setLineNumber lines targetLine (lineContent ++ js " " ++ BOOKMARK_MARKER)
    else lines in
  Some (join eol lines').

(** The same callback in an earlier revision of main.ts: lines split and
    joined on ['\n'], the frontmatter skipped only from line 0, the marker
    appended unconditionally. *)
Definition insertTargetEarlier (lines : list jsstring) (visibleLine : Z) : Z :=
  let last := Z.of_nat (length lines) - 1 in
  let targetLine := Z.min visibleLine last in
  let targetLine :=
    if bool_decide (lines !! 0%nat = Some DELIMITER) && (targetLine =? 0)
    then
      let closing := findClosing 1 (tail lines) in
      if closing =? -1 then targetLine else Z.min (closing + 1) last
    else targetLine in
  Z.max 0 (Z.min targetLine last).

Definition previewInsertEarlier (visibleLine : Z) (content : jsstring) : option jsstring :=
  let lines := splitLF content in
  let targetLine := insertTargetEarlier lines visibleLine in
  lineContent ← lineAt lines targetLine;
  Some (join [LF] (setLine lines targetLine (lineContent ++ js " " ++ BOOKMARK_MARKER))).

(** ** main.ts: removal through [Vault.process] in preview mode *)

(** The marker and one preceding space are cut out of the line. *)
Definition cutMarker (lineContent : jsstring) (markerIndex : Z) : jsstring :=
  let startPos :=
    if (0 <? markerIndex)
       && bool_decide (charAt lineContent (markerIndex - 1) = Some SP)
    then markerIndex - 1 else markerIndex in
  slice lineContent 0 startPos
    ++ sliceFrom lineContent (markerIndex + Z.of_nat (length BOOKMARK_MARKER)).

Section Removal.

(** [BookmarkManager.findBookmark] and [BookmarkManager.removeBookmark]
    live in bookmarkManager.ts; the callbacks below only call them.  The
    editor is seen through its buffer, so [removeBookmark] is a function
    of the buffer's text. *)
Variable findBookmark : jsstring -> BookmarkState.
Variable removeBookmark : jsstring -> jsstring.

(** The callback given to [Vault.process] when the deferred removal fires
    in preview mode. *)
Definition previewRemove (content : jsstring) : jsstring :=
  let bookmarkState := findBookmark content in
  match hasBookmark bookmarkState, lineNumber bookmarkState with
  | true, Some line =>
      let eol := detectEol content in
      let lines := splitEol content in
      match lineAt lines line with
      | None => content
      | Some lineContent =>
          let markerIndex := indexOf lineContent BOOKMARK_MARKER in
          let lines' :=
            if negb (markerIndex =? -1)
            then setLine lines line (cutMarker lineContent markerIndex)
            else lines in
          join eol lines'
      end
  | _, _ => content
  end.

(** *** The view, its file and the vault *)

Inductive Mode : Type := source | preview.

Record World : Type := {
  mode : Mode;                      (* view.getMode() *)
  file : option string;             (* view.file, by its path *)
  vault : gmap string jsstring;     (* the text of every file *)
  buffer : jsstring;                (* editor.getValue() *)
  icon : string                     (* the icon of the header action *)
}.

Definition setVault (w : World) (v : gmap string jsstring) : World :=
  {| mode := mode w; file := file w; vault := v; buffer := buffer w; icon := icon w |}.

Definition setBuffer (w : World) (b : jsstring) : World :=
  {| mode := mode w; file := file w; vault := vault w; buffer := b; icon := icon w |}.

(** [viewActionManager.updateActionIcon(view, name)]. *)
Definition updateActionIcon (w : World) (name : string) : World :=
  {| mode := mode w; file := file w; vault := vault w; buffer := buffer w; icon := name |}.

(** [app.vault.process(file, fn)]: the file is read, [fn] applied and the
    result written; a file that is gone rejects. *)
Definition vaultProcess (path : string) (fn : jsstring -> jsstring) (w : World)
    : option World :=
  content ← vault w !! path;
  Some (setVault w (<[path := fn content]> (vault w))).

(** The function handed to [setTimeout(..., 500)] by [toggleBookmark]: it
    takes nothing from the toggle but the view, and reads the mode, the
    file and the text when it runs. *)
Definition deferredRemoval (w : World) : option World :=
  let originalFile := file w in
  let currentMode := mode w in
  match currentMode with
  | preview =>
      match originalFile with
      | None => Some w
      | Some path =>
          w' ← vaultProcess path previewRemove w;
          Some (updateActionIcon w' "bookmark")
      end
  | source =>
      match originalFile with
      | Some path =>
          if negb (bool_decide (file w = Some path))
          then w' ← vaultProcess path replaceBefore w;
               Some (updateActionIcon w' "bookmark")
          else Some (updateActionIcon (setBuffer w (removeBookmark (buffer w))) "bookmark")
      | None =>
          Some (updateActionIcon (setBuffer w (removeBookmark (buffer w))) "bookmark")
      end
  end.

End Removal.

(** ** main.ts: [cleanupMultipleBookmarks] *)

(** The text transformation of the cleanup command:
    [content.replace(beforeRe, '').replace(afterRe, '')]. *)
Definition cleanupContent (content : jsstring) : jsstring :=
  replaceAfter (replaceBefore content).

(** The same in the revision with the single expression:
    [content.replace(MARKER_CLEANUP_RE, '')]. *)
Definition cleanupContentSingle (content : jsstring) : jsstring :=
  replaceBefore content.

Definition cleanupMultipleBookmarks (w : World) : option World :=
  match mode w with
  | preview =>
      match file w with
      | None => Some w
      | Some path =>
          w' ← vaultProcess path cleanupContent w;
          Some (updateActionIcon w' "bookmark")
      end
  | source =>
      Some (updateActionIcon (setBuffer w (cleanupContent (buffer w))) "bookmark")
  end.

(** ** gutterDecoration.ts: [BookmarkDecorationPlugin.buildDecorations] *)

(** What the range-set builder is given: a line decoration at a position
    (class [cm-bookmark-line]) or a mark over a range (class
    [cm-bookmark-marker-hidden]). *)
Inductive Decoration : Type :=
| LineDecoration (pos : Z)
| MarkDecoration (from to : Z).

(** The editor's document is a sequence of lines; [doc.toString()] joins
    them with ['\n']. *)
Definition docToString (doc : list jsstring) : jsstring := join [LF] doc.

(** The offset at which line [k] (from 0) starts. *)
Fixpoint lineFrom (doc : list jsstring) (k : nat) : Z :=
  match k, doc with
  | S k', l :: doc' => Z.of_nat (length l) + 1 + lineFrom doc' k'
  | _, _ => 0
  end.

(** [doc.line(n).from], lines counted from 1; a number outside the document
    throws. *)
Definition docLine (doc : list jsstring) (n : Z) : option Z :=
  if (1 <=? n) && (n <=? Z.of_nat (length doc))
  then Some (lineFrom doc (Z.to_nat (n - 1)))
  else None.

(** The body of the [forEach] callback for one line; an exception is
    caught and the line skipped. *)
Definition decorateLine (doc : list jsstring) (lineContent : jsstring) (index : Z)
    : list Decoration :=
  if includes lineContent BOOKMARK_MARKER then
    match docLine doc (index + 1) with
    | Some from =>
        let markerStart := indexOf lineContent BOOKMARK_MARKER in
        LineDecoration from ::
        (if negb (markerStart =? -1)
         then
           let absoluteMarkerStart := from + markerStart in
           let absoluteMarkerEnd :=
             absoluteMarkerStart + Z.of_nat (length BOOKMARK_MARKER) in
           [MarkDecoration absoluteMarkerStart absoluteMarkerEnd]
         else [])
    | None => []
    end
  else [].

(** [lines.forEach((lineContent, index) => ...)], from [index] on. *)
Fixpoint decorateFrom (doc : list jsstring) (index : Z) (lines : list jsstring)
    : list Decoration :=
  match lines with
  | [] => []
  | lineContent :: rest =>
      decorateLine doc lineContent index ++ decorateFrom doc (index + 1) rest
  end.

Definition buildDecorations (doc : list jsstring) : list Decoration :=
  let content := docToString doc in
  let lines := splitLF content in
  decorateFrom doc 0 lines.

Definition isLineDecoration (d : Decoration) : bool :=
  match d with LineDecoration _ => true | MarkDecoration _ _ => false end.

Definition isMarkDecoration (d : Decoration) : bool :=
  match d with MarkDecoration _ _ => true | LineDecoration _ => false end.

(** ** bookmarkManager.ts *)

Module BookmarkManager.

(** Modelled from the spec: [findBookmark] of bookmarkManager.ts, which is
    not among the sources.  The lines are scanned from the top and the
    first one that contains the marker is reported. *)
Fixpoint findFrom (i : Z) (lines : list jsstring) : BookmarkState :=
  match lines with
  | [] => {| hasBookmark := false; lineNumber := None |}
  | l :: rest =>
      if includes l BOOKMARK_MARKER
      then {| hasBookmark := true; lineNumber := Some i |}
      else findFrom (i + 1) rest
  end.

(** Modelled from the spec: [findBookmark] of bookmarkManager.ts (not among
    the sources) scans the lines of the text from line 0. *)
Definition findBookmark (content : jsstring) : BookmarkState :=
  findFrom 0 (splitLF content).

(** Modelled from the spec: [removeBookmark] of bookmarkManager.ts, which
    is not among the sources.  The marker and at most one space before it
    are removed from the line that [findBookmark] reports; nothing happens
    when there is none. *)
Definition removeBookmark (content : jsstring) : jsstring :=
  let state := findBookmark content in
  match hasBookmark state, lineNumber state with
  | true, Some line =>
      let lines := splitLF content in
      match lineAt lines line with
      | Some lineContent =>
          join [LF]
            (setLine lines line
               (cutMarker lineContent (indexOf lineContent BOOKMARK_MARKER)))
      | None => content
      end
  | _, _ => content
  end.

End BookmarkManager.

(** ** Placement of the marker in edit mode *)

Module PlacementPolicy.

(** Modelled from the spec: the fence token (bookmarkManager.ts is not
    among the sources). *)
Definition FENCE : jsstring := js "```".

(** Modelled from the spec: the fence rule of [insertBookmark] of
    bookmarkManager.ts, which is not among the sources.  A fence-delimiter
    line begins with the fence token. *)
Definition isFenceLine (l : jsstring) : bool := startsWith l FENCE.

(** Modelled from the spec: the number of fence-delimiter lines among the
    first [n] lines (bookmarkManager.ts is not among the sources). *)
Definition fenceCount (doc : list jsstring) (n : nat) : nat :=
  length (filter (fun l => isFenceLine l = true) (take n doc)).

(** Modelled from the spec: a line is inside a fence when the
    fence-delimiter lines at or before it are odd in number
    (bookmarkManager.ts is not among the sources). *)
Definition insideFence (doc : list jsstring) (line : nat) : bool :=
  Nat.odd (fenceCount doc (S line)).

(** Modelled from the spec: line [i] opens a fence when it is a
    fence-delimiter line and inside (bookmarkManager.ts is not among the
    sources). *)
Definition opensFence (doc : list jsstring) (i : nat) : bool :=
  match doc !! i with
  | Some l => isFenceLine l && insideFence doc i
  | None => false
  end.

(** Modelled from the spec: the walk backward from [line] to the opening
    fence-delimiter line (bookmarkManager.ts is not among the sources). *)
Fixpoint openingFence (doc : list jsstring) (line : nat) : option nat :=
  if opensFence doc line then Some line
  else match line with
       | O => None
       | S line' => openingFence doc line'
       end.

(** Modelled from the spec: the placement rules of [insertBookmark] of
    bookmarkManager.ts, which is not among the sources.  The candidate
    leaves the metadata header first (the rule of [insertTarget]); a
    candidate that is a fence-delimiter line or inside a fence goes to the
    line before the opening fence-delimiter line, or to the start of the
    document when the fence opens at line 0; the result is clamped. *)
Definition resolveTarget (doc : list jsstring) (candidate : Z) : Z :=
  let last := Z.of_nat (length doc) - 1 in
  let c := Z.to_nat (insertTarget doc candidate) in
  let fenced :=
    match doc !! c with
    | Some l => isFenceLine l || insideFence doc c
    | None => false
    end in
  let target :=
    if fenced then
      match openingFence doc c with
      | Some i => if (0 <? i)%nat then Z.of_nat i - 1 else insertTarget doc 0
      | None => Z.of_nat c
      end
    else Z.of_nat c in
  Z.max 0 (Z.min target last).

End PlacementPolicy.

(** ** What the statements below speak of *)

(** A read of the estimator throws. *)
Inductive readFails (view : PreviewHost) : Prop :=
| noPreviewMode :
    previewMode view = None -> readFails view
| getScrollThrows pm :
    previewMode view = Some pm -> getScroll pm = None -> readFails view
| noContainer pm scroll :
    previewMode view = Some pm -> getScroll pm = Some scroll ->
    Num.leb scroll (Num.int 100) = false ->
    containerEl pm = None -> readFails view
| noEditor :
    editor view = None -> readFails view
| lineCountThrows ed :
    editor view = Some ed -> lineCount ed = None -> readFails view.

(** A line without a line feed. *)
Definition noLF (l : jsstring) : Prop := LF ∉ l.

(** [p] occurs in [s]. *)
Definition infixOf (s p : jsstring) : Prop := exists pre post, s = pre ++ p ++ post.

(** The decorations a line that starts at [from] is to get: one line
    decoration and one mark over the first occurrence of the marker, when
    the line holds the marker. *)
Definition markerDecorations (from : Z) (l : jsstring) : list Decoration :=
  if includes l BOOKMARK_MARKER then
    [LineDecoration from;
     MarkDecoration (from + indexOf l BOOKMARK_MARKER)
       (from + indexOf l BOOKMARK_MARKER + Z.of_nat (length BOOKMARK_MARKER))]
  else [].

Fixpoint expectedDecorations (from : Z) (doc : list jsstring) : list Decoration :=
  match doc with
  | [] => []
  | l :: rest =>
      markerDecorations from l
        ++ expectedDecorations (from + Z.of_nat (length l) + 1) rest
  end.

(** Position [p] lies under a hiding mark. *)
Definition hidden (decorations : list Decoration) (p : Z) : Prop :=
  exists a b, MarkDecoration a b ∈ decorations /\ a <= p < b.

(** ** Sample inputs *)

Definition sample_percent : ViewportSample :=
  {| scrollOffset := 50; viewportExtent := 200; contentExtent := 1000;
     totalLines := 100 |}.

Definition sample_pixels : ViewportSample :=
  {| scrollOffset := 500; viewportExtent := 200; contentExtent := 1000;
     totalLines := 100 |}.

Definition brokenHost : PreviewHost :=
  {| previewMode := Some {| getScroll := None; containerEl := None |};
     editor := Some {| lineCount := Some 10 |} |}.

Definition headerDoc : list jsstring :=
  [js "---"; js "title: x"; js "---"; js "body"].

Definition fenceDoc : list jsstring :=
  [js "a"; js "```"; js "code"; js "```"; js "b"].



Definition twoMarkers : jsstring :=
  js "one <!-- bookmark-marker -->
two  <!-- bookmark-marker --> three".

Definition markedDoc : list jsstring :=
  [js "a"; js "b <!-- bookmark-marker --> <!-- bookmark-marker -->";
   js "<!-- bookmark-marker -->"].

(** A note whose marker is gone by the time the timer fires. *)
Definition staleWorld (m : Mode) : World :=
  {| mode := m;
     file := Some "note.md"%string;
     vault := {[ "note.md"%string := js "first
second" ]};
     buffer := js "first
second";
     icon := "bookmark-check"%string |}.

(** ** More of main.ts: the removal callback of the latest revision *)

Section RemovalByExpression.

Variable findBookmark : jsstring -> BookmarkState.

(** The callback given to [Vault.process] by the deferred removal, in the
    revision that cleans the reported line with [MARKER_CLEANUP_RE]. *)
Definition previewRemoveByExpression (content : jsstring) : jsstring :=
  let bookmarkState := findBookmark content in
  match hasBookmark bookmarkState, lineNumber bookmarkState with
  | true, Some line =>
      let eol := detectEol content in
      let lines := splitEol content in
      match lineAt lines line with
      | None => content
      | Some lineContent => join eol (setLine lines line (replaceBefore lineContent))
      end
  | _, _ => content
  end.

End RemovalByExpression.

(** ** More of what the statements speak of *)

(** [l] without the run of [\s] at its end. *)
Fixpoint trimEnd (l : jsstring) : jsstring :=
  match l with
  | [] => []
  | c :: l' =>
      match trimEnd l' with
      | [] => if isSpace c then [] else [c]
      | t => c :: t
      end
  end.

(** The text holds a carriage return followed by a line feed. *)
Fixpoint hasCRLF (s : jsstring) : bool :=
  match s with
  | [] => false
  | c :: s' =>
      match s' with
      | d :: _ => N.eqb c CR && N.eqb d LF || hasCRLF s'
      | [] => false
      end
  end.

(** Every line feed of the text follows a carriage return; [afterCR]
    tells whether the code unit before [s] was one. *)
Fixpoint pureCrlf (afterCR : bool) (s : jsstring) : bool :=
  match s with
  | [] => true
  | c :: s' =>
      if N.eqb c LF then afterCR && pureCrlf false s'
      else pureCrlf (N.eqb c CR) s'
  end.

(** The line ends with a carriage return. *)
Definition endsWithCR (l : jsstring) : bool :=
  match last l with
  | Some c => N.eqb c CR
  | None => false
  end.

(** No line but the last ends with a carriage return. *)
Fixpoint lfJoinable (lines : list jsstring) : bool :=
  match lines with
  | [] => true
  | l :: rest =>
      match rest with
      | [] => true
      | _ :: _ => negb (endsWithCR l) && lfJoinable rest
      end
  end.

(** What the callbacks need of [findBookmark]: it reports the first line,
    among the lines the callbacks split the text into, that holds the
    marker. *)
Definition findsFirstMarkerLine (find : jsstring -> BookmarkState) : Prop :=
  forall (content : jsstring) (k : Z) (l : jsstring),
    lineAt (splitEol content) k = Some l ->
    includes l BOOKMARK_MARKER = true ->
    (forall j l', 0 <= j < k -> lineAt (splitEol content) j = Some l' ->
                  includes l' BOOKMARK_MARKER = false) ->
    find content = {| hasBookmark := true; lineNumber := Some k |}.

(** ** More of gutterDecoration.ts *)

(** The value of [updateBookmarkEffect]. *)
Record BookmarkEffect : Type := {
  effectLine : Z;                  (* lineNumber, counted from 0 *)
  effectHasBookmark : bool
}.

(** [buildDecorationsFromEffect]: one line decoration on the line of the
    effect; a line outside the document throws and is skipped. *)
Definition buildDecorationsFromEffect (doc : list jsstring) (effect : BookmarkEffect)
    : list Decoration :=
  if effectHasBookmark effect then
    match docLine doc (effectLine effect + 1) with
    | Some from => [LineDecoration from]
    | None => []
    end
  else [].

Section PluginUpdate.

(** The change set of an update, and how the editor maps a decoration set
    through it. *)
Variable ChangeSet : Type.
Variable mapDecorations : ChangeSet -> list Decoration -> list Decoration.

(** A [ViewUpdate]: the effects of its transactions in order ([None] is an
    effect of another kind) and the document after it. *)
Record ViewUpdate : Type := {
  docChanged : bool;
  changes : ChangeSet;
  effects : list (option BookmarkEffect);
  viewDoc : list jsstring
}.

(** The loop over the effects: each bookmark effect replaces the set. *)
Definition applyEffects (doc : list jsstring) (effs : list (option BookmarkEffect))
    (decorations : list Decoration) : list Decoration :=
  fold_left
    (fun current effect =>
       match effect with
       | Some value => buildDecorationsFromEffect doc value
       | None => current
       end)
    effs decorations.

(** [BookmarkDecorationPlugin.update]. *)
Definition pluginUpdate (decorations : list Decoration) (update : ViewUpdate)
    : list Decoration :=
  let decorations :=
    if docChanged update then mapDecorations (changes update) decorations
    else decorations in
  let decorations := applyEffects (viewDoc update) (effects update) decorations in
  if docChanged update then buildDecorations (viewDoc update) else decorations.

End PluginUpdate.

(** Where a decoration starts and ends. *)
Definition decorationFrom (d : Decoration) : Z :=
  match d with LineDecoration pos => pos | MarkDecoration from _ => from end.

Definition decorationTo (d : Decoration) : Z :=
  match d with LineDecoration pos => pos | MarkDecoration _ to => to end.

(** The last bookmark effect of a list of effects. *)
Definition lastBookmarkEffect (effs : list (option BookmarkEffect))
    : option BookmarkEffect :=
  last (omap id effs).

(** ** viewActionManager.ts *)

Module ViewActions.

Definition BOOKMARK_ICON : string := "bookmark".

(** The button in the header of a view: whether it is still in the page,
    its [.svg-icon] children and two of its attributes. *)
Record ActionElement : Type := {
  attached : bool;
  svgIcons : list string;
  title : option string;
  ariaLabel : option string
}.

(** Views and elements are objects, known by their identity.
    [actionElements] is the [Map] of the manager, [page] holds the state
    of every element the host has made, [fresh] names the next one. *)
Record Ui : Type := {
  actionElements : gmap nat nat;
  page : gmap nat ActionElement;
  fresh : nat
}.

Definition emptyUi : Ui := {| actionElements := ∅; page := ∅; fresh := 0 |}.

Section Host.

(** The host: [view.addAction(icon, title, callback)] makes the button,
    [setIcon(parent, iconId)] works on the icons of the parent. *)
Variable addAction : string -> string -> ActionElement.
Variable setIcon : list string -> string -> list string.

Definition addActionToView (ui : Ui) (view : nat) : Ui :=
  let actionElement := fresh ui in
  {| actionElements := <[view := actionElement]> (actionElements ui);
     page := <[actionElement := addAction BOOKMARK_ICON "Set bookmark"]> (page ui);
     fresh := S (fresh ui) |}.

Definition tooltip (iconName : string) : string :=
  if bool_decide (iconName = "bookmark"%string)
  then "Set bookmark"%string else "Jump to bookmark"%string.

Definition updateActionIcon (ui : Ui) (view : nat) (iconName : string) : Ui :=
  match actionElements ui !! view with
  | Some actionElement =>
      match page ui !! actionElement with
      | Some el =>
          (* the first [.svg-icon] is removed, then the new icon set *)
          let icons := setIcon (tail (svgIcons el)) iconName in
          let title' := tooltip iconName in
          {| actionElements := actionElements ui;
             page := <[actionElement :=
                         {| attached := attached el; svgIcons := icons;
                            title := Some title'; ariaLabel := Some title' |}]>
                       (page ui);
             fresh := fresh ui |}
      | None => ui
      end
  | None => ui
  end.

(** [element.remove()]. *)
Definition detach (el : ActionElement) : ActionElement :=
  {| attached := false; svgIcons := svgIcons el;
     title := title el; ariaLabel := ariaLabel el |}.

Definition removeActionFromView (ui : Ui) (view : nat) : Ui :=
  match actionElements ui !! view with
  | Some actionElement =>
      {| actionElements := delete view (actionElements ui);
         page := alter detach actionElement (page ui);
         fresh := fresh ui |}
  | None => ui
  end.

Definition getActionElement (ui : Ui) (view : nat) : option nat :=
  actionElements ui !! view.

Definition hasActionForView (ui : Ui) (view : nat) : bool :=
  bool_decide (is_Some (actionElements ui !! view)).

(** *** main.ts: the calls into the manager *)

Variable findBookmark : jsstring -> BookmarkState.

(** [checkAndUpdateIcon]; [content] is [view.editor.getValue()].  The
    notice of [checkForMultipleBookmarks] is not part of this state. *)
Definition checkAndUpdateIcon (ui : Ui) (view : nat) (content : jsstring) : Ui :=
  let bookmarkState := findBookmark content in
  let iconName :=
    if hasBookmark bookmarkState then "bookmark-check"%string else "bookmark"%string in
  updateActionIcon ui view iconName.

(** [setupView]. *)
Definition setupView (ui : Ui) (view : nat) (content : jsstring) : Ui :=
  let ui :=
    match getActionElement ui view with
    | Some _ => ui
    | None => addActionToView ui view
    end in
  checkAndUpdateIcon ui view content.

(** [handleActiveLeafChange]; [active] is the active markdown view with
    its text, if there is one. *)
Definition handleActiveLeafChange (ui : Ui) (active : option (nat * jsstring)) : Ui :=
  match active with
  | Some (view, content) => setupView ui view content
  | None => ui
  end.

(** [onunload]; a leaf holds a markdown view ([Some]) or another view. *)
Definition onunload (ui : Ui) (leaves : list (option nat)) : Ui :=
  fold_left
    (fun ui leaf =>
       match leaf with
       | Some view => removeActionFromView ui view
       | None => ui
       end)
    leaves ui.

(** What the plugin does to the buttons, one call at a time. *)
Inductive step : Ui -> Ui -> Prop :=
| step_leaf_change ui active : step ui (handleActiveLeafChange ui active)
| step_icon ui view iconName : step ui (updateActionIcon ui view iconName)
| step_unload ui leaves : step ui (onunload ui leaves).

Inductive reachable : Ui -> Prop :=
| reachable_start : reachable emptyUi
| reachable_step ui ui' : reachable ui -> step ui ui' -> reachable ui'.

End Host.

(** Every tracked button is one the host has made, and no two views share
    a button. *)
Definition consistent (ui : Ui) : Prop :=
  (forall view e, actionElements ui !! view = Some e ->
                  (e < fresh ui)%nat /\ is_Some (page ui !! e))
  /\ (forall v1 v2 e, actionElements ui !! v1 = Some e ->
                      actionElements ui !! v2 = Some e -> v1 = v2).

(** A host for the examples. *)
Definition sampleAddAction (icon title' : string) : ActionElement :=
  {| attached := true; svgIcons := [icon]; title := None; ariaLabel := Some title' |}.

Definition sampleSetIcon (icons : list string) (iconName : string) : list string :=
  iconName :: icons.

End ViewActions.

(** [result] is [content] with one line at most changed: the line that
    [find] reports, from which code units have been deleted. *)
Definition touchesReportedLine (find : jsstring -> BookmarkState)
    (content result : jsstring) : Prop :=
  result = content
  \/ exists (k : Z) (l l' : jsstring),
       lineNumber (find content) = Some k
       /\ lineAt (splitEol content) k = Some l
       /\ l' `sublist_of` l
       /\ result = join (detectEol content) (setLine (splitEol content) k l').


(** ** The Standard Library's specification of IEEE 754

    [SpecFloat] gives the operations of binary64 on significand and
    exponent; [ofSpec] reads its values as numbers, to compare the
    arithmetic of [Num] with it. *)

Definition ofSpec (x : SpecFloat.spec_float) : Num.number :=
  match x with
  | SpecFloat.S754_zero _ => Num.int 0
  | SpecFloat.S754_infinity false => Num.PosInf
  | SpecFloat.S754_infinity true => Num.NegInf
  | SpecFloat.S754_nan => Num.NaN
  | SpecFloat.S754_finite s m e =>
      let v := if s then Z.neg m else Z.pos m in
      Num.Fin (Qred (if 0 <=? e then inject_Z (v * 2 ^ e)
                     else Qmake v (2 ^ Z.to_pos (- e))))
  end.

Definition binary64_div (x y : SpecFloat.spec_float) : SpecFloat.spec_float :=
  SpecFloat.SFdiv 53 1024 x y.

Definition binary64_mul (x y : SpecFloat.spec_float) : SpecFloat.spec_float :=
  SpecFloat.SFmul 53 1024 x y.

Definition binary64_sub (x y : SpecFloat.spec_float) : SpecFloat.spec_float :=
  SpecFloat.SFsub 53 1024 x y.

(** The three rounded operations of [Num] give what the specification
    gives on [x] and [y]. *)
Definition agreesWithSpec (x y : SpecFloat.spec_float) : Prop :=
  Num.div (ofSpec x) (ofSpec y) = ofSpec (binary64_div x y)
  /\ Num.mul (ofSpec x) (ofSpec y) = ofSpec (binary64_mul x y)
  /\ Num.sub (ofSpec x) (ofSpec y) = ofSpec (binary64_sub x y).

(** Some binary64 values: 29, 100, the quotient of the two, 1, 3, 0.1,
    -7.5, [2^54], 2, the least positive value, three times that, the
    least normal value and the greatest finite value. *)
Definition f64_29 := SpecFloat.S754_finite false 8162774324609024 (-48).
Definition f64_100 := SpecFloat.S754_finite false 7036874417766400 (-46).
Definition f64_029 := SpecFloat.S754_finite false 5224175567749775 (-54).
Definition f64_1 := SpecFloat.S754_finite false 4503599627370496 (-52).
Definition f64_3 := SpecFloat.S754_finite false 6755399441055744 (-51).
Definition f64_01 := SpecFloat.S754_finite false 7205759403792794 (-56).
Definition f64_m75 := SpecFloat.S754_finite true 8444249301319680 (-50).
Definition f64_2p54 := SpecFloat.S754_finite false 4503599627370496 2.
Definition f64_2 := SpecFloat.S754_finite false 4503599627370496 (-51).
Definition f64_least := SpecFloat.S754_finite false 1 (-1074).
Definition f64_3least := SpecFloat.S754_finite false 3 (-1074).
Definition f64_normal := SpecFloat.S754_finite false 4503599627370496 (-1074).
Definition f64_greatest := SpecFloat.S754_finite false 9007199254740991 971.

(** * Properties *)

(** One step through a bind of the exception monad. *)
Ltac bind_step := cbn [mbind option_bind].

(** ** Rounding to binary64 *)

Section Rounding.

Import Num.

(** [rne n d] is within a half of [n / d], on the even side at a tie. *)
Lemma rne_spec (n d : Z) :
  0 < d ->
  let r := rne n d in
  2 * r * d - d <= 2 * n <= 2 * r * d + d
  /\ (2 * n = 2 * r * d - d -> Z.even r = true)
  /\ (2 * n = 2 * r * d + d -> Z.even r = true).
Proof.
  intros Hd. cbv zeta. unfold rne.
  pose proof (Z.div_mod n d ltac:(lia)) as Hdm.
  pose proof (Z.mod_pos_bound n d Hd) as Hm.
  set (q := n / d) in *. set (m := n mod d) in *.
  destruct (Z.compare_spec (2 * m) d) as [He|Hl|Hg].
  - destruct (Z.even q) eqn:Hq.
    + split; [nia|]. split; intros _; exact Hq.
    + split; [nia|]. split.
      * intros _. rewrite Z.even_add, Hq. reflexivity.
      * intros H. exfalso. nia.
  - split; [nia|]. split; intros H; exfalso; nia.
  - split; [nia|]. split; intros H; exfalso; nia.
Qed.

Lemma rne_mono (n1 d1 n2 d2 : Z) :
  0 < d1 -> 0 < d2 -> n1 * d2 <= n2 * d1 -> rne n1 d1 <= rne n2 d2.
Proof.
  intros H1 H2 Hle.
  destruct (rne_spec n1 d1 H1) as ((L1 & U1) & E1 & F1).
  destruct (rne_spec n2 d2 H2) as ((L2 & U2) & E2 & F2).
  set (r1 := rne n1 d1) in *. set (r2 := rne n2 d2) in *.
  destruct (Z_le_gt_dec r1 r2) as [|Hgt]; [assumption|exfalso].
  (* r1 >= r2 + 1: both are at a tie, and both are even *)
  assert (A : 2 * n1 * d2 <= 2 * n2 * d1) by nia.
  assert (B1 : (2 * r1 - 1) * d1 * d2 <= 2 * n1 * d2) by nia.
  assert (B2 : 2 * n2 * d1 <= (2 * r2 + 1) * d1 * d2) by nia.
  assert (P : 0 < d1 * d2) by nia.
  assert (C : r1 = r2 + 1) by nia.
  assert (T1 : 2 * n1 = 2 * r1 * d1 - d1) by nia.
  assert (T2 : 2 * n2 = 2 * r2 * d2 + d2) by nia.
  specialize (E1 T1). specialize (F2 T2).
  rewrite C, Z.even_add, F2 in E1. discriminate.
Qed.

Lemma rne_exact (k d : Z) : 0 < d -> rne (k * d) d = k.
Proof.
  intros Hd. unfold rne. rewrite Z.div_mul, Z.mod_mul by lia.
  destruct (Z.compare_spec (2 * 0) d); [lia|reflexivity|lia].
Qed.

Lemma rne_upper (n d k : Z) : 0 < d -> n <= k * d -> rne n d <= k.
Proof.
  intros Hd H. rewrite <- (rne_exact k d Hd). apply rne_mono; [assumption..|nia].
Qed.

Lemma rne_lower (n d k : Z) : 0 < d -> k * d <= n -> k <= rne n d.
Proof.
  intros Hd H. rewrite <- (rne_exact k d Hd). apply rne_mono; [assumption..|nia].
Qed.

Lemma magnitude_nonneg (n d : Z) : 0 <= n -> 0 < d -> 0 <= magnitude n d.
Proof.
  intros Hn Hd. unfold magnitude.
  set (e := Z.max _ 0).
  assert (He : 0 < 2 ^ e) by (apply Z.pow_pos_nonneg; lia).
  apply Z.mul_nonneg_nonneg; [|lia].
  apply rne_lower; [nia|]. assert (0 <= 2 ^ 1074) by (apply Z.pow_nonneg; lia). nia.
Qed.

(** The significand has 53 bits at most. *)
Lemma significand_upper (s d : Z) :
  0 <= s -> 0 < d ->
  let e := Z.max (Z.log2 (s / d) - 52) 0 in
  rne s (d * 2 ^ e) <= 2 ^ 53.
Proof.
  intros Hs Hd e.
  assert (He : 0 <= e) by lia.
  assert (Hp : 0 < 2 ^ e) by (apply Z.pow_pos_nonneg; lia).
  apply rne_upper; [nia|].
  set (k := s / d) in *.
  assert (Hk : 0 <= k) by (apply Z.div_pos; lia).
  assert (Hlt : k < 2 ^ (e + 53)).
  { destruct (Z.eq_dec k 0) as [->|Hk0].
    - apply Z.pow_pos_nonneg; lia.
    - apply Z.log2_lt_pow2; lia. }
  assert (Hsd : s < (k + 1) * d).
  { pose proof (Z.div_mod s d ltac:(lia)). pose proof (Z.mod_pos_bound s d Hd).
    fold k in H. nia. }
  rewrite Z.pow_add_r in Hlt by lia. nia.
Qed.

(** Out of the subnormal range it has 53 bits exactly. *)
Lemma significand_lower (s d : Z) :
  0 <= s -> 0 < d ->
  let e := Z.max (Z.log2 (s / d) - 52) 0 in
  0 < e -> 2 ^ 52 <= rne s (d * 2 ^ e).
Proof.
  intros Hs Hd e He.
  assert (Hp : 0 < 2 ^ e) by (apply Z.pow_pos_nonneg; lia).
  apply rne_lower; [nia|].
  set (k := s / d) in *.
  assert (Hl : e = Z.log2 k - 52) by lia.
  assert (Hk : 0 < k).
  { destruct (Z_lt_le_dec 0 k); [assumption|].
    rewrite (Z.log2_nonpos k) in Hl by lia. lia. }
  assert (Hge : 2 ^ (e + 52) <= k) by (apply Z.log2_le_pow2; lia).
  assert (Hsd : k * d <= s).
  { pose proof (Z.div_mod s d ltac:(lia)). pose proof (Z.mod_pos_bound s d Hd).
    fold k in H. nia. }
  rewrite Z.pow_add_r in Hge by lia. nia.
Qed.

Lemma magnitude_mono (n1 d1 n2 d2 : Z) :
  0 <= n1 -> 0 < d1 -> 0 < d2 -> n1 * d2 <= n2 * d1 ->
  magnitude n1 d1 <= magnitude n2 d2.
Proof.
  intros Hn1 Hd1 Hd2 Hle.
  assert (Hn2 : 0 <= n2) by nia.
  assert (Hs : 0 < 2 ^ 1074) by (apply Z.pow_pos_nonneg; lia).
  unfold magnitude.
  set (s1 := n1 * 2 ^ 1074). set (s2 := n2 * 2 ^ 1074).
  assert (Hs1 : 0 <= s1) by (unfold s1; nia).
  assert (Hs2 : 0 <= s2) by (unfold s2; nia).
  assert (Hsle : s1 * d2 <= s2 * d1) by (unfold s1, s2; nia).
  pose proof (significand_upper s1 d1 Hs1 Hd1) as U1.
  pose proof (significand_lower s2 d2 Hs2 Hd2) as L2.
  cbv zeta in U1, L2.
  assert (Hk : s1 / d1 <= s2 / d2).
  { apply Z.div_le_lower_bound; [lia|].
    pose proof (Z.div_mod s1 d1 ltac:(lia)). pose proof (Z.mod_pos_bound s1 d1 Hd1).
    assert (0 <= s1 / d1) by (apply Z.div_pos; lia). nia. }
  apply Z.log2_le_mono in Hk.
  set (e1 := Z.max (Z.log2 (s1 / d1) - 52) 0) in *.
  set (e2 := Z.max (Z.log2 (s2 / d2) - 52) 0) in *.
  assert (He : e1 <= e2) by lia.
  assert (He1 : 0 <= e1) by lia.
  assert (Hp1 : 0 < 2 ^ e1) by (apply Z.pow_pos_nonneg; lia).
  assert (Hp2 : 0 < 2 ^ e2) by (apply Z.pow_pos_nonneg; lia).
  destruct (Z.eq_dec e1 e2) as [Heq|Hne].
  - rewrite <- Heq. apply Z.mul_le_mono_nonneg_r; [lia|].
    apply rne_mono; nia.
  - specialize (L2 ltac:(lia)).
    assert (Hpow : 2 ^ e2 = 2 ^ (e2 - e1 - 1) * 2 * 2 ^ e1).
    { replace e2 with ((e2 - e1 - 1) + 1 + e1) at 1 by lia.
      rewrite !Z.pow_add_r by lia. rewrite Z.pow_1_r. reflexivity. }
    assert (Hq : 0 < 2 ^ (e2 - e1 - 1)) by (apply Z.pow_pos_nonneg; lia).
    change (2 ^ 53) with (2 * 2 ^ 52) in U1.
    set (m1 := rne s1 (d1 * 2 ^ e1)) in *. set (m2 := rne s2 (d2 * 2 ^ e2)) in *.
    rewrite Hpow. set (c := 2 ^ (e2 - e1 - 1)) in *. set (b := 2 ^ e1) in *.
    assert (T : 0 < 2 ^ 52) by reflexivity.
    set (t := 2 ^ 52) in *. nia.
Qed.

Lemma magnitude_0 (d : Z) : 0 < d -> magnitude 0 d = 0.
Proof.
  intros Hd. unfold magnitude. rewrite Z.mul_0_l, Z.div_0_l by lia.
  change (Z.max (Z.log2 0 - 52) 0) with 0. change (2 ^ 0) with 1.
  replace (rne 0 (d * 1)) with 0; [reflexivity|].
  symmetry. exact (rne_exact 0 (d * 1) ltac:(lia)).
Qed.

Lemma scaled_mono (p q : Q) : (p <= q)%Q -> scaled p <= scaled q.
Proof.
  intros H. rewrite <- (Qred_correct p), <- (Qred_correct q) in H.
  unfold scaled. destruct (Qred p) as [n1 d1], (Qred q) as [n2 d2].
  unfold Qle in H. cbn [Qnum Qden] in *.
  pose proof (magnitude_nonneg (Z.abs n1) (Zpos d1) ltac:(lia) ltac:(lia)) as M1.
  pose proof (magnitude_nonneg (Z.abs n2) (Zpos d2) ltac:(lia) ltac:(lia)) as M2.
  destruct (Z_lt_le_dec n1 0) as [N1|N1]; destruct (Z_lt_le_dec n2 0) as [N2|N2].
  - rewrite !Z.sgn_neg by lia.
    pose proof (magnitude_mono (Z.abs n2) (Zpos d2) (Z.abs n1) (Zpos d1)
                  ltac:(lia) ltac:(lia) ltac:(lia) ltac:(lia)).
    lia.
  - rewrite (Z.sgn_neg n1) by lia.
    destruct (Z.eq_dec n2 0) as [->|]; [rewrite Z.sgn_0; lia|].
    rewrite Z.sgn_pos by lia. lia.
  - exfalso. nia.
  - pose proof (magnitude_mono (Z.abs n1) (Zpos d1) (Z.abs n2) (Zpos d2)
                  ltac:(lia) ltac:(lia) ltac:(lia) ltac:(lia)) as Hm.
    destruct (Z.eq_dec n1 0) as [->|].
    + rewrite Z.sgn_0. destruct (Z.eq_dec n2 0) as [->|]; [rewrite Z.sgn_0; lia|].
      rewrite Z.sgn_pos by lia. lia.
    + rewrite !Z.sgn_pos by nia. lia.
Qed.

Lemma ofScaled_mono (v w : Z) : v <= w -> leb (ofScaled v) (ofScaled w) = true.
Proof.
  intros H. unfold ofScaled.
  destruct (Z.leb_spec (2 ^ 2098) v), (Z.leb_spec (2 ^ 2098) w); try reflexivity;
    try lia.
  - destruct (Z.leb_spec v (- 2 ^ 2098)); reflexivity.
  - destruct (Z.leb_spec v (- 2 ^ 2098)), (Z.leb_spec w (- 2 ^ 2098));
      try reflexivity; try lia.
    cbn [leb]. apply Qle_bool_iff. rewrite !Qred_correct.
    unfold Qle. cbn [Qnum Qden]. nia.
Qed.

(** Rounding keeps the order. *)
Lemma round_mono (p q : Q) : (p <= q)%Q -> leb (round p) (round q) = true.
Proof. intros H. apply ofScaled_mono, scaled_mono, H. Qed.

Lemma round_not_NaN (q : Q) : round q <> NaN.
Proof.
  unfold round, ofScaled.
  destruct (_ <=? _); [discriminate|]. destruct (_ <=? _); discriminate.
Qed.

Lemma Qred_inject_Z (z : Z) : Qred (inject_Z z) = inject_Z z.
Proof.
  unfold Qred, inject_Z.
  pose proof (Z.ggcd_gcd z 1) as G. pose proof (Z.ggcd_correct_divisors z 1) as D.
  destruct (Z.ggcd z 1) as [g [n d]]. cbn [fst snd] in *.
  rewrite Z.gcd_1_r in G. subst g. destruct D as [-> D].
  assert (d = 1) by lia. subst d. f_equal. lia.
Qed.

(** An integer of 53 bits is a binary64 value. *)
Lemma magnitude_int (a : Z) : 0 <= a <= 2 ^ 53 -> magnitude a 1 = a * 2 ^ 1074.
Proof.
  intros Ha. destruct (Z.eq_dec a 0) as [->|Hne]; [apply magnitude_0; lia|].
  unfold magnitude. rewrite Z.div_1_r, Z.mul_1_l.
  rewrite Z.log2_mul_pow2 by lia.
  assert (Hl : 0 <= Z.log2 a <= 53).
  { split; [apply Z.log2_nonneg|].
    rewrite <- (Z.log2_pow2 53) by lia. apply Z.log2_le_mono. lia. }
  replace (Z.max (1074 + Z.log2 a - 52) 0) with (Z.log2 a + 1022) by lia.
  set (l := Z.log2 a) in *.
  assert (Hdiv : exists c, a * 2 ^ 1074 = c * 2 ^ (l + 1022)).
  { destruct (Z.eq_dec l 53) as [E|E].
    - assert (a = 2 ^ 53).
      { assert (2 ^ 53 <= a) by (apply Z.log2_le_pow2; lia). lia. }
      subst a. exists (2 ^ 52). rewrite E. reflexivity.
    - exists (a * 2 ^ (52 - l)). rewrite <- Z.mul_assoc, <- Z.pow_add_r by lia.
      do 2 f_equal. lia. }
  destruct Hdiv as [c ->].
  rewrite rne_exact by (apply Z.pow_pos_nonneg; lia). reflexivity.
Qed.

Lemma round_int (q : Q) (z : Z) :
  (q == inject_Z z)%Q -> Z.abs z <= 2 ^ 53 -> round q = int z.
Proof.
  intros Hq Hz. unfold round, scaled.
  rewrite (Qred_complete _ _ Hq), Qred_inject_Z. cbn [Qnum Qden inject_Z].
  rewrite magnitude_int by lia.
  replace (Z.sgn z * (Z.abs z * 2 ^ 1074)) with (z * 2 ^ 1074)
    by (rewrite Z.mul_assoc, (Z.mul_comm (Z.sgn z)), Z.abs_sgn; reflexivity).
  unfold ofScaled.
  assert (P : 0 < 2 ^ 1074) by (apply Z.pow_pos_nonneg; lia).
  assert (L : 2 ^ 2098 = 2 ^ 1024 * 2 ^ 1074) by (rewrite <- Z.pow_add_r by lia; reflexivity).
  assert (B : 2 ^ 53 < 2 ^ 1024) by (apply Z.pow_lt_mono_r; lia).
  destruct (Z.leb_spec (2 ^ 2098) (z * 2 ^ 1074)); [nia|].
  destruct (Z.leb_spec (z * 2 ^ 1074) (- 2 ^ 2098)); [nia|].
  unfold int. f_equal. rewrite <- (Qred_inject_Z z). apply Qred_complete.
  unfold Qeq, inject_Z. cbn [Qnum Qden]. rewrite Pos2Z.inj_pow. lia.
Qed.

(** The arithmetic of [Num] against the Standard Library's specification
    of binary64, on values that meet every case of the rounding: exact
    results, ties, the subnormal range and overflow. *)
Example round_agrees_with_spec :
  agreesWithSpec f64_29 f64_100
  /\ agreesWithSpec f64_029 f64_100
  /\ agreesWithSpec f64_1 f64_3
  /\ agreesWithSpec f64_01 f64_m75
  /\ agreesWithSpec f64_2p54 f64_1
  /\ agreesWithSpec f64_least f64_3
  /\ agreesWithSpec f64_least f64_2
  /\ agreesWithSpec f64_3least f64_2
  /\ agreesWithSpec f64_normal f64_m75
  /\ agreesWithSpec f64_greatest f64_01
  /\ agreesWithSpec f64_greatest f64_least
  /\ agreesWithSpec f64_m75 f64_greatest.
Proof.
  unfold agreesWithSpec.
  repeat lazymatch goal with |- _ /\ _ => split end; vm_compute; reflexivity.
Qed.

End Rounding.

(** ** The line estimator of preview mode *)

Section Estimator.

Lemma Qle_bool_inject (a b : Z) : Qle_bool (inject_Z a) (inject_Z b) = (a <=? b).
Proof. unfold Qle_bool, inject_Z; simpl. by rewrite !Z.mul_1_r. Qed.

Lemma Qeq_bool_inject0 (a : Z) : Qeq_bool (inject_Z a) 0 = (a =? 0).
Proof. unfold Qeq_bool, inject_Z; simpl. rewrite Z.mul_1_r. reflexivity. Qed.

Lemma Qle_bool_0_inject (a : Z) : Qle_bool 0 (inject_Z a) = (0 <=? a).
Proof. apply (Qle_bool_inject 0 a). Qed.

Lemma leb_int (a b : Z) : Num.leb (Num.int a) (Num.int b) = (a <=? b).
Proof. apply Qle_bool_inject. Qed.

(** Subtraction of integers is exact as long as the result has 53 bits. *)
Lemma sub_int (a b : Z) :
  Z.abs (a - b) <= 2 ^ 53 -> Num.sub (Num.int a) (Num.int b) = Num.int (a - b).
Proof.
  intros H. unfold Num.sub, Num.int at 1 2. apply round_int; [|exact H].
  unfold Z.sub. rewrite inject_Z_plus, inject_Z_opp. reflexivity.
Qed.

Lemma max_int (a b : Z) : Num.max (Num.int a) (Num.int b) = Num.int (Z.max a b).
Proof.
  change (Num.max (Num.int a) (Num.int b))
    with (if Num.leb (Num.int a) (Num.int b) then Num.int b else Num.int a).
  rewrite leb_int. destruct (Z.leb_spec a b); f_equal; lia.
Qed.

Lemma min_int (a b : Z) : Num.min (Num.int a) (Num.int b) = Num.int (Z.min a b).
Proof.
  change (Num.min (Num.int a) (Num.int b))
    with (if Num.leb (Num.int a) (Num.int b) then Num.int a else Num.int b).
  rewrite leb_int. destruct (Z.leb_spec a b); f_equal; lia.
Qed.

(** [Math.min(Math.max(0, Math.floor(x)), n - 1)] is [lineOf] for every
    number but NaN. *)
Lemma clamp_number (n : Z) (x : Num.number) :
  0 < n <= 2 ^ 53 -> x <> Num.NaN ->
  Num.min (Num.max (Num.int 0) (Num.floor x)) (Num.sub (Num.int n) (Num.int 1))
  = Num.int (lineOf n x).
Proof.
  intros Hn Hx. rewrite sub_int by lia.
  destruct x as [q| | |]; [| | |congruence].
  - change (Num.floor (Num.Fin q)) with (Num.int (Qfloor q)).
    rewrite max_int, min_int. reflexivity.
  - change (Num.max (Num.int 0) (Num.floor Num.PosInf)) with Num.PosInf.
    reflexivity.
  - change (Num.max (Num.int 0) (Num.floor Num.NegInf)) with (Num.int 0).
    rewrite min_int. reflexivity.
Qed.

Lemma lineOf_range (n : Z) (x : Num.number) :
  0 < n -> x <> Num.NaN -> 0 <= lineOf n x <= n - 1.
Proof.
  intros Hn Hx. destruct x; [| | |congruence]; unfold lineOf, clampLine; lia.
Qed.

(** A quotient is NaN only from NaN, from zero over zero or from two
    infinities. *)
Lemma div_int_not_NaN (x : Num.number) (d : Z) :
  x <> Num.NaN -> d <> 0 \/ Num.leb x (Num.int 100) = false ->
  Num.div x (Num.int d) <> Num.NaN.
Proof.
  intros Hx Hd. destruct x as [q| | |]; [| | |congruence].
  - unfold Num.div, Num.int. rewrite Qeq_bool_inject0.
    destruct (Z.eqb_spec d 0) as [->|]; [|apply round_not_NaN].
    destruct Hd as [|Hd]; [congruence|].
    destruct (Qeq_bool q 0) eqn:E.
    + exfalso. apply Qeq_bool_iff in E.
      assert (Hle : Qle_bool q (inject_Z 100) = true)
        by (apply Qle_bool_iff; rewrite E; discriminate).
      change (Num.leb (Num.Fin q) (Num.int 100)) with (Qle_bool q (inject_Z 100)) in Hd.
      congruence.
    + destruct (Qle_bool 0 q); discriminate.
  - unfold Num.div, Num.int. destruct (Qle_bool 0 (inject_Z d)); discriminate.
  - unfold Num.div, Num.int. destruct (Qle_bool 0 (inject_Z d)); discriminate.
Qed.

Lemma mul_int_not_NaN (x : Num.number) (n : Z) :
  x <> Num.NaN -> n <> 0 -> Num.mul x (Num.int n) <> Num.NaN.
Proof.
  intros Hx Hn. destruct x as [q| | |]; [| | |congruence].
  - apply round_not_NaN.
  - unfold Num.mul, Num.int. rewrite Qeq_bool_inject0.
    destruct (Z.eqb_spec n 0); [congruence|]. destruct (Qle_bool _ _); discriminate.
  - unfold Num.mul, Num.int. rewrite Qeq_bool_inject0.
    destruct (Z.eqb_spec n 0); [congruence|]. destruct (Qle_bool _ _); discriminate.
Qed.

(** The estimate in closed form, for a scroll position that is a number
    and a line count of 53 bits: the quotient and the product are the
    binary64 ones. *)
Lemma estimate_closed (scroll : Num.number) (h n : Z) :
  scroll <> Num.NaN -> 0 < n <= 2 ^ 53 ->
  getVisibleLineInPreview (measuredHost scroll h n)
  = let divisor := if Num.leb scroll (Num.int 100) then 100 else h in
    let fraction := Num.div scroll (Num.int divisor) in
    Num.int (lineOf n (Num.mul fraction (Num.int n))).
Proof.
  intros Hs Hn. cbv zeta.
  unfold getVisibleLineInPreview, getVisibleLineInPreview_try, measuredHost.
  cbn [previewMode getScroll containerEl editor lineCount scrollHeight
       mbind option_bind].
  destruct (Num.leb scroll (Num.int 100)) eqn:Hle; cbn [mbind option_bind].
  - apply clamp_number; [exact Hn|].
    apply mul_int_not_NaN; [|lia]. apply div_int_not_NaN; [exact Hs|left; lia].
  - apply clamp_number; [exact Hn|].
    apply mul_int_not_NaN; [|lia]. apply div_int_not_NaN; [exact Hs|right; exact Hle].
Qed.

(** C1 - Rendered-mode unit disambiguation.  A scroll value of at most 100
    is taken as a percentage (fraction [scroll / 100]), a larger one as a
    pixel offset (fraction [scroll / scrollHeight], infinite over a zero
    height); the line is the floor of fraction times line count, clamped
    to the lines of the document.  Quotient and product are those of
    binary64.  A scroll value that is NaN is not at most 100, and comes
    back as NaN.  Both samples of the specification give line 50. *)
Theorem rendered_unit_disambiguation :
  (forall (scroll : Num.number) (h n : Z),
     scroll <> Num.NaN -> 0 < n <= 2 ^ 53 ->
     getVisibleLineInPreview (measuredHost scroll h n)
     = let divisor := if Num.leb scroll (Num.int 100) then 100 else h in
       let fraction := Num.div scroll (Num.int divisor) in
       Num.int (lineOf n (Num.mul fraction (Num.int n))))
  /\ (forall h n : Z, getVisibleLineInPreview (measuredHost Num.NaN h n) = Num.NaN)
  /\ estimateRendered sample_percent = Num.int 50
  /\ estimateRendered sample_pixels = Num.int 50.
Proof.
  split; [exact estimate_closed|].
  split; [reflexivity|].
  split; vm_compute; reflexivity.
Qed.

Lemma rendered_unit_disambiguation_witness :
  getVisibleLineInPreview (measuredHost (Num.int 29) 1000 100) = Num.int 28.
Proof.
  destruct rendered_unit_disambiguation as [H _].
  rewrite (H (Num.int 29) 1000 100); [|discriminate|split; [reflexivity|discriminate]].
  vm_compute. reflexivity.
Defined.

(** The product is rounded before the floor is taken: 29 per cent of 100
    lines is line 28, because [29 / 100] is a little under 0.29 in
    binary64 and so is its product with 100. *)
Example estimate_rounds :
  Num.div (Num.int 29) (Num.int 100)
  = Num.Fin (5224175567749775 # 18014398509481984)
  /\ Num.mul (Num.div (Num.int 29) (Num.int 100)) (Num.int 100)
     = Num.Fin (8162774324609023 # 281474976710656)
  /\ estimateRendered {| scrollOffset := 29; viewportExtent := 200;
                         contentExtent := 1000; totalLines := 100 |} = Num.int 28.
Proof. split; [|split]; vm_compute; reflexivity. Qed.

(** C2 - Estimator bounds.  The clamp lets NaN through: for a scroll
    position that is not a number the estimate is NaN, no line of the
    document. *)
Remark estimate_not_a_number :
  getVisibleLineInPreview (measuredHost Num.NaN 1000 100) = Num.NaN.
Proof. reflexivity. Qed.

(** For every other scroll position, the two infinities included, and
    every extent, the estimate is an integer between 0 and the last line
    index. *)
Theorem estimator_bounds (scroll : Num.number) (h n : Z) :
  scroll <> Num.NaN -> 0 < n <= 2 ^ 53 ->
  exists line : Z,
    getVisibleLineInPreview (measuredHost scroll h n) = Num.int line
    /\ 0 <= line <= n - 1.
Proof.
  intros Hs Hn. rewrite (estimate_closed scroll h n Hs Hn). cbv zeta.
  eexists. split; [reflexivity|].
  apply lineOf_range; [lia|].
  apply mul_int_not_NaN; [|lia]. apply div_int_not_NaN; [exact Hs|].
  destruct (Num.leb scroll (Num.int 100)); [left; lia|right; reflexivity].
Qed.

Lemma estimator_bounds_witness :
  exists line : Z,
    getVisibleLineInPreview (measuredHost Num.PosInf 0 100) = Num.int line
    /\ 0 <= line <= 100 - 1.
Proof.
  apply (estimator_bounds Num.PosInf 0 100);
    [discriminate|split; [reflexivity|discriminate]].
Defined.

(** A scroll position above the top gives line 0. *)
Example estimate_negative_scroll :
  estimateRendered {| scrollOffset := -3; viewportExtent := 200;
                      contentExtent := 1000; totalLines := 100 |} = Num.int 0.
Proof. vm_compute. reflexivity. Qed.

(** A zero content extent drives the estimate to the last line. *)
Example estimate_zero_extent :
  estimateRendered {| scrollOffset := 500; viewportExtent := 200;
                      contentExtent := 0; totalLines := 100 |} = Num.int 99.
Proof. vm_compute. reflexivity. Qed.

(** Beyond 53 bits the last line index is itself rounded: with [2^54]
    lines the clamp lets the line count through. *)
Example estimate_beyond_53_bits :
  estimateRendered {| scrollOffset := 100; viewportExtent := 200;
                      contentExtent := 1000; totalLines := 2 ^ 54 |}
  = Num.int (2 ^ 54).
Proof. vm_compute. reflexivity. Qed.

(** Whichever read throws, the [try] block is left early. *)
Lemma try_fails (view : PreviewHost) :
  readFails view -> getVisibleLineInPreview_try view = None.
Proof.
  unfold getVisibleLineInPreview_try.
  intros [Hp | pm Hp Hs | pm q Hp Hs Hle Hc | He | ed He Hl].
  - rewrite Hp. reflexivity.
  - rewrite Hp; bind_step. rewrite Hs. reflexivity.
  - rewrite Hp; bind_step. rewrite Hs; bind_step. rewrite Hle, Hc. reflexivity.
  - destruct (previewMode view) as [pm|]; bind_step; [|reflexivity].
    destruct (getScroll pm) as [q|]; bind_step; [|reflexivity].
    match goal with |- ?m ≫= _ = None => destruct m end; bind_step; [|reflexivity].
    rewrite He. reflexivity.
  - destruct (previewMode view) as [pm|]; bind_step; [|reflexivity].
    destruct (getScroll pm) as [q|]; bind_step; [|reflexivity].
    match goal with |- ?m ≫= _ = None => destruct m end; bind_step; [|reflexivity].
    rewrite He; bind_step. rewrite Hl. reflexivity.
Qed.

(** C9 - Estimation-failure fallback.  When a read of the scroll position,
    of the content extent or of the line count throws, the estimator
    returns line 0; the exception stays inside. *)
Theorem estimation_failure_fallback (view : PreviewHost) :
  readFails view -> getVisibleLineInPreview view = Num.int 0.
Proof.
  intros H. unfold getVisibleLineInPreview. rewrite (try_fails view H). reflexivity.
Qed.

Lemma estimation_failure_fallback_witness :
  readFails brokenHost /\ getVisibleLineInPreview brokenHost = Num.int 0.
Proof.
  assert (H : readFails brokenHost).
  { eapply getScrollThrows; reflexivity. }
  split; [exact H | exact (estimation_failure_fallback brokenHost H)].
Defined.

End Estimator.

(** ** Strings and lines *)

Section StringFacts.

Implicit Types s pat pre post : jsstring.

Lemma startsWith_app pat post : startsWith (pat ++ post) pat = true.
Proof.
  induction pat as [|p pat IH]; [reflexivity|].
  cbn. rewrite N.eqb_refl. exact IH.
Qed.

Lemma startsWith_inv s pat :
  startsWith s pat = true -> s = pat ++ drop (length pat) s.
Proof.
  revert s. induction pat as [|p pat IH]; intros s H; [reflexivity|].
  destruct s as [|c s]; [discriminate|]. cbn in H.
  apply andb_true_iff in H as [Hc Hs]. apply N.eqb_eq in Hc. subst c.
  cbn. f_equal. apply IH, Hs.
Qed.

Lemma includes_unfold s pat :
  includes s pat =
    startsWith s pat || match s with [] => false | _ :: s' => includes s' pat end.
Proof. destruct s; reflexivity. Qed.

Lemma includes_prepend pre s pat :
  includes s pat = true -> includes (pre ++ s) pat = true.
Proof.
  intros H. induction pre as [|c pre IH]; [exact H|].
  cbn [app]. rewrite includes_unfold, IH. apply orb_true_r.
Qed.

Lemma includes_app pre pat post : includes (pre ++ pat ++ post) pat = true.
Proof.
  apply includes_prepend. rewrite includes_unfold, startsWith_app. reflexivity.
Qed.

Lemma includes_inv s pat : includes s pat = true -> infixOf s pat.
Proof.
  induction s as [|c s IH]; rewrite includes_unfold; intros H;
    apply orb_true_iff in H as [H|H]; try discriminate.
  - exists [], (drop (length pat) []). apply startsWith_inv, H.
  - exists [], (drop (length pat) (c :: s)). apply startsWith_inv, H.
  - destruct (IH H) as (pre & post & ->). exists (c :: pre), post. reflexivity.
Qed.

Lemma includes_infix pre mid post pat :
  includes mid pat = true -> includes (pre ++ mid ++ post) pat = true.
Proof.
  intros H. destruct (includes_inv _ _ H) as (a & b & ->).
  replace (pre ++ (a ++ pat ++ b) ++ post) with ((pre ++ a) ++ pat ++ (b ++ post)).
  - apply includes_app.
  - by rewrite <- !app_assoc.
Qed.

Lemma includes_tail c s pat : includes (c :: s) pat = false -> includes s pat = false.
Proof.
  rewrite includes_unfold. intros H. apply orb_false_iff in H as [_ H]. exact H.
Qed.

Lemma includes_startsWith s pat : startsWith s pat = true -> includes s pat = true.
Proof. intros H. rewrite includes_unfold, H. reflexivity. Qed.

Lemma includes_drop n s pat : includes (drop n s) pat = true -> includes s pat = true.
Proof. intros H. rewrite <- (take_drop n s). apply includes_prepend, H. Qed.

(** [indexOf] finds the first occurrence, and finds one exactly when
    [includes] holds. *)
Lemma indexOfFrom_spec s pat (i : Z) :
  if includes s pat then
    exists k : nat,
      indexOfFrom i s pat = i + Z.of_nat k
      /\ (k <= length s)%nat
      /\ startsWith (drop k s) pat = true
      /\ forall j, (j < k)%nat -> startsWith (drop j s) pat = false
  else indexOfFrom i s pat = -1.
Proof.
  revert i. induction s as [|c s IH]; intros i.
  - cbn [includes indexOfFrom]. rewrite orb_false_r.
    destruct (startsWith [] pat) eqn:E; [|reflexivity].
    exists 0%nat. cbn [drop]. repeat split; [lia|lia|exact E|]. intros j Hj; lia.
  - rewrite includes_unfold. cbn [indexOfFrom].
    destruct (startsWith (c :: s) pat) eqn:E; cbn [orb].
    + exists 0%nat. cbn [drop]. repeat split; [lia|cbn; lia|exact E|].
      intros j Hj; lia.
    + specialize (IH (i + 1)). destruct (includes s pat).
      * destruct IH as (k & Hk & Hlen & Hst & Hmin).
        exists (S k). cbn [drop length]. repeat split; [lia|lia|exact Hst|].
        intros [|j] Hj; [exact E|]. cbn [drop]. apply Hmin. lia.
      * exact IH.
Qed.

Lemma indexOf_found (l : jsstring) :
  includes l BOOKMARK_MARKER = true ->
  exists k : nat,
    indexOf l BOOKMARK_MARKER = Z.of_nat k
    /\ (k + length BOOKMARK_MARKER <= length l)%nat
    /\ startsWith (drop k l) BOOKMARK_MARKER = true
    /\ forall j, (j < k)%nat -> startsWith (drop j l) BOOKMARK_MARKER = false.
Proof.
  intros H. pose proof (indexOfFrom_spec l BOOKMARK_MARKER 0) as S. rewrite H in S.
  destruct S as (k & Hk & Hlen & Hst & Hmin). exists k.
  repeat split; [exact Hk| |exact Hst|exact Hmin].
  apply startsWith_inv in Hst. apply (f_equal length) in Hst.
  rewrite length_app, !length_drop in Hst. lia.
Qed.

Lemma indexOf_includes (l : jsstring) :
  includes l BOOKMARK_MARKER = true -> (indexOf l BOOKMARK_MARKER =? -1) = false.
Proof.
  intros H. destruct (indexOf_found l H) as (k & -> & _). apply Z.eqb_neq. lia.
Qed.

End StringFacts.

Section LineFacts.

Implicit Types lines : list jsstring.

Lemma lineAt_Some lines (i : Z) (l : jsstring) :
  lineAt lines i = Some l <-> 0 <= i /\ lines !! Z.to_nat i = Some l.
Proof.
  unfold lineAt. destruct (Z.ltb_spec i 0); split.
  - discriminate.
  - lia.
  - auto.
  - tauto.
Qed.

Lemma lineAt_lt lines (i : Z) (l : jsstring) :
  lineAt lines i = Some l -> 0 <= i < Z.of_nat (length lines).
Proof.
  intros H. apply lineAt_Some in H as [H0 H]. apply lookup_lt_Some in H. lia.
Qed.

Lemma lineAt_in_range lines (i : Z) :
  0 <= i < Z.of_nat (length lines) -> exists l, lineAt lines i = Some l.
Proof.
  intros Hi. destruct (lookup_lt_is_Some_2 lines (Z.to_nat i)) as [l Hl]; [lia|].
  exists l. apply lineAt_Some. split; [lia|exact Hl].
Qed.

Lemma lineAt_setLine_eq lines (i : Z) (l v : jsstring) :
  lineAt lines i = Some l -> lineAt (setLine lines i v) i = Some v.
Proof.
  intros H. pose proof (lineAt_lt _ _ _ H) as Hi.
  apply lineAt_Some. split; [lia|].
  unfold setLine. apply list_lookup_insert_eq. lia.
Qed.

Lemma lineAt_setLine_ne lines (i j : Z) (v : jsstring) :
  0 <= i -> j <> i -> lineAt (setLine lines i v) j = lineAt lines j.
Proof.
  intros Hi Hne. unfold lineAt, setLine. destruct (Z.ltb_spec j 0); [reflexivity|].
  apply list_lookup_insert_ne. lia.
Qed.

Lemma setLine_length lines (i : Z) (v : jsstring) :
  length (setLine lines i v) = length lines.
Proof. apply length_insert. Qed.

End LineFacts.

(** ** Insertion in preview mode: target line and marker *)

Section PreviewInsertion.

Lemma findClosing_first (rest : list jsstring) (i : Z) (k : nat) :
  rest !! k = Some DELIMITER ->
  (forall j, (j < k)%nat -> rest !! j <> Some DELIMITER) ->
  findClosing i rest = i + Z.of_nat k.
Proof.
  revert i k. induction rest as [|l rest IH]; intros i k Hk Hmin; [discriminate|].
  cbn [findClosing]. destruct k as [|k].
  - injection Hk as ->. rewrite bool_decide_eq_true_2 by reflexivity. lia.
  - rewrite bool_decide_eq_false_2.
    + rewrite (IH (i + 1) k); [lia|exact Hk|].
      intros j Hj. apply (Hmin (S j)). lia.
    + intros ->. apply (Hmin 0%nat); [lia|reflexivity].
Qed.

Lemma frontmatterEndIndex_closing (lines : list jsstring) (closing : Z) :
  lines !! 0%nat = Some DELIMITER ->
  1 <= closing ->
  lineAt lines closing = Some DELIMITER ->
  (forall j, 1 <= j < closing -> lineAt lines j <> Some DELIMITER) ->
  frontmatterEndIndex lines = closing.
Proof.
  intros H0 H1 Hc Hmin. destruct lines as [|first rest]; [discriminate|].
  injection H0 as ->. cbn [frontmatterEndIndex].
  rewrite bool_decide_eq_true_2 by reflexivity.
  apply lineAt_Some in Hc as [_ Hc].
  replace (Z.to_nat closing) with (S (Z.to_nat (closing - 1))) in Hc by lia.
  cbn in Hc.
  rewrite (findClosing_first rest 1 (Z.to_nat (closing - 1)) Hc); [lia|].
  intros j Hj Hd. apply (Hmin (Z.of_nat (S j))); [lia|].
  apply lineAt_Some. split; [lia|]. rewrite Nat2Z.id. exact Hd.
Qed.

Lemma insertTarget_range (lines : list jsstring) (v : Z) :
  lines <> [] -> 0 <= insertTarget lines v < Z.of_nat (length lines).
Proof.
  intros H.
  assert (0 < Z.of_nat (length lines)) by (destruct lines; [congruence|cbn; lia]).
  unfold insertTarget. lia.
Qed.

(** C3 - Metadata-header avoidance.  In a document that opens with ['---']
    and closes its header at line [closing], a candidate anywhere from the
    opening line to the closing one goes to the line after the closing
    one, or to the last line when there is none after.  In the sample
    document candidate 1 goes to line 3, where the marker is written. *)
Theorem header_avoidance :
  (forall (lines : list jsstring) (candidate closing : Z),
     lines !! 0%nat = Some DELIMITER ->
     1 <= closing ->
     lineAt lines closing = Some DELIMITER ->
     (forall j, 1 <= j < closing -> lineAt lines j <> Some DELIMITER) ->
     0 <= candidate <= closing ->
     insertTarget lines candidate
       = Z.min (closing + 1) (Z.of_nat (length lines) - 1))
  /\ insertTarget headerDoc 1 = 3
  /\ previewInsert 1 (join [LF] headerDoc)
       = Some (join [LF] [js "---"; js "title: x"; js "---";
                          js "body <!-- bookmark-marker -->"]).
Proof.
  split; [|split; reflexivity].
  intros lines candidate closing H0 H1 Hc Hmin Hcand.
  pose proof (lineAt_lt _ _ _ Hc) as Hlt.
  unfold insertTarget.
  rewrite (frontmatterEndIndex_closing lines closing H0 H1 Hc Hmin).
  replace (closing =? -1) with false by (symmetry; apply Z.eqb_neq; lia).
  replace (Z.min candidate (Z.of_nat (length lines) - 1) <=? closing) with true
    by (symmetry; apply Z.leb_le; lia).
  cbn [negb andb]. lia.
Qed.

Lemma header_avoidance_witness :
  insertTarget headerDoc 1 = Z.min (2 + 1) (Z.of_nat (length headerDoc) - 1).
Proof.
  apply (proj1 header_avoidance headerDoc 1 2).
  - reflexivity.
  - lia.
  - reflexivity.
  - intros j Hj. assert (j = 1) as -> by lia. vm_compute. discriminate.
  - lia.
Defined.

(** The earlier revision moved a candidate out of the header only from
    line 0. *)
Remark insertTargetEarlier_header :
  insertTargetEarlier headerDoc 0 = 3 /\ insertTargetEarlier headerDoc 1 = 1.
Proof. split; reflexivity. Qed.

(** C7 - Per-line insertion idempotence.  The insertion appends one space
    and the marker to the target line unless the line holds the marker,
    leaves every other line alone, and changes nothing when applied
    again. *)
Theorem insertion_idempotent (lines : list jsstring) (targetLine : Z) (l : jsstring) :
  lineAt lines targetLine = Some l ->
  exists lines',
    insertMarkerAt lines targetLine = Some lines'
    /\ lineAt lines' targetLine
         = Some (if includes l BOOKMARK_MARKER then l
                 else l ++ js " " ++ BOOKMARK_MARKER)
    /\ (forall j, j <> targetLine -> lineAt lines' j = lineAt lines j)
    /\ insertMarkerAt lines' targetLine = Some lines'.
Proof.
  intros Hl. pose proof (lineAt_lt _ _ _ Hl) as Hlt.
  unfold insertMarkerAt at 1. rewrite Hl. bind_step.
  destruct (includes l BOOKMARK_MARKER) eqn:Hinc; cbn [negb].
  - exists lines. repeat split; auto.
    unfold insertMarkerAt. rewrite Hl. bind_step. rewrite Hinc. reflexivity.
  - eexists. split; [reflexivity|]. split; [|split].
    + eapply lineAt_setLine_eq, Hl.
    + intros j Hj. apply lineAt_setLine_ne; lia.
    + unfold insertMarkerAt. erewrite lineAt_setLine_eq by exact Hl.
      bind_step.
      change (js " " ++ BOOKMARK_MARKER) with (js " " ++ BOOKMARK_MARKER ++ []).
      rewrite (app_assoc l), <- (app_assoc (l ++ js " ")).
      rewrite includes_app. reflexivity.
Qed.

Lemma insertion_idempotent_witness :
  exists lines',
    insertMarkerAt headerDoc 3 = Some lines'
    /\ lineAt lines' 3
         = Some (if includes (js "body") BOOKMARK_MARKER then js "body"
                 else js "body" ++ js " " ++ BOOKMARK_MARKER)
    /\ (forall j, j <> 3 -> lineAt lines' j = lineAt headerDoc j)
    /\ insertMarkerAt lines' 3 = Some lines'.
Proof.
  apply (insertion_idempotent headerDoc 3 (js "body")). reflexivity.
Defined.

(** The earlier revision appended a marker each time. *)
Remark previewInsertEarlier_twice :
  (previewInsertEarlier 0 (js "body") ≫= previewInsertEarlier 0)
  = Some (js "body <!-- bookmark-marker --> <!-- bookmark-marker -->").
Proof. reflexivity. Qed.

End PreviewInsertion.

(** ** Line endings *)

Section LineEndings.

Lemma noLF_nil : noLF [].
Proof. apply not_elem_of_nil. Qed.

Lemma noLF_cons c l : c <> LF -> noLF l -> noLF (c :: l).
Proof. intros Hc Hl. apply not_elem_of_cons. split; [congruence|exact Hl]. Qed.

Lemma noLF_app l1 l2 : noLF l1 -> noLF l2 -> noLF (l1 ++ l2).
Proof. intros H1 H2. apply not_elem_of_app. split; assumption. Qed.

Lemma noLF_take n l : noLF l -> noLF (take n l).
Proof. intros H Hin. apply H. eapply subseteq_take, Hin. Qed.

Lemma noLF_drop n l : noLF l -> noLF (drop n l).
Proof. intros H Hin. apply H. eapply subseteq_drop, Hin. Qed.

Lemma noLF_marker : noLF (js " " ++ BOOKMARK_MARKER).
Proof.
  intros H. apply list_elem_of_In in H. vm_compute in H. intuition discriminate.
Qed.

Create HintDb nolf.
#[local] Hint Resolve noLF_nil noLF_cons noLF_app noLF_take noLF_drop noLF_marker : nolf.

Lemma noLF_cutMarker l i : noLF l -> noLF (cutMarker l i).
Proof. intros H. unfold cutMarker, slice, sliceFrom. auto with nolf. Qed.

Lemma consHead_noLF c pieces :
  c <> LF -> Forall noLF pieces -> Forall noLF (consHead c pieces).
Proof.
  intros Hc H. destruct H as [|l ls Hl Hls]; cbn; auto with nolf.
Qed.

Lemma splitEol_nonempty s : splitEol s <> [].
Proof.
  destruct s as [|c s]; cbn; [discriminate|].
  destruct (N.eqb c LF); [discriminate|].
  destruct s as [|d s]; [discriminate|].
  destruct (N.eqb c CR && N.eqb d LF); [discriminate|].
  unfold consHead. destruct (splitEol (d :: s)); discriminate.
Qed.

(** [splitEol] steps over one or two code units: induction on a bound of
    the length. *)
Lemma splitEol_noLF_bounded (n : nat) :
  forall s, (length s <= n)%nat -> Forall noLF (splitEol s).
Proof.
  induction n as [|n IH]; intros s Hlen.
  - destruct s; [|cbn in Hlen; lia]. repeat constructor. apply noLF_nil.
  - destruct s as [|c s]; [repeat constructor; apply noLF_nil|].
    cbn [splitEol]. cbn in Hlen.
    destruct (N.eqb_spec c LF) as [->|Hc].
    + constructor; [apply noLF_nil|]. apply IH. lia.
    + destruct s as [|d s].
      * repeat constructor. apply noLF_cons; [exact Hc|apply noLF_nil].
      * destruct (N.eqb c CR && N.eqb d LF).
        -- constructor; [apply noLF_nil|]. apply IH. cbn in Hlen. lia.
        -- apply consHead_noLF; [exact Hc|]. apply IH. lia.
Qed.

Lemma splitEol_noLF s : Forall noLF (splitEol s).
Proof. apply (splitEol_noLF_bounded (length s)). lia. Qed.

Lemma noLF_lineAt lines i l : Forall noLF lines -> lineAt lines i = Some l -> noLF l.
Proof.
  intros HF Hl. apply lineAt_Some in Hl as [_ Hl].
  eapply Forall_lookup_1; eassumption.
Qed.

Lemma setLine_noLF lines i v :
  Forall noLF lines -> noLF v -> Forall noLF (setLine lines i v).
Proof. intros HF Hv. unfold setLine. apply Forall_insert; assumption. Qed.

(** The insertion callback never throws, and returns the lines of the
    text joined by the ending it detected. *)
Lemma previewInsert_total (visibleLine : Z) (content : jsstring) :
  exists lines',
    previewInsert visibleLine content = Some (join (detectEol content) lines')
    /\ length lines' = length (splitEol content)
    /\ Forall noLF lines'.
Proof.
  unfold previewInsert, insertMarkerAt.
  pose proof (splitEol_nonempty content) as Hne.
  pose proof (splitEol_noLF content) as HF.
  destruct (lineAt_in_range _ _ (insertTarget_range _ visibleLine Hne)) as [l Hl].
  rewrite Hl. bind_step.
  destruct (includes l BOOKMARK_MARKER); cbn [negb mbind option_bind].
  - exists (splitEol content). auto.
  - eexists. split; [reflexivity|]. split; [apply setLine_length|].
    apply setLine_noLF; [exact HF|].
    apply noLF_app; [eapply noLF_lineAt; eassumption|apply noLF_marker].
Qed.

Lemma previewRemove_cases (findBookmark : jsstring -> BookmarkState) (content : jsstring) :
  previewRemove findBookmark content = content
  \/ exists lines',
       previewRemove findBookmark content = join (detectEol content) lines'
       /\ length lines' = length (splitEol content)
       /\ Forall noLF lines'.
Proof.
  unfold previewRemove.
  pose proof (splitEol_noLF content) as HF.
  destruct (hasBookmark (findBookmark content)); [|left; reflexivity].
  destruct (lineNumber (findBookmark content)) as [line|]; [|left; reflexivity].
  destruct (lineAt (splitEol content) line) as [l|] eqn:Hl; [|left; reflexivity].
  right. destruct (indexOf l BOOKMARK_MARKER =? -1); cbn [negb].
  - exists (splitEol content). auto.
  - eexists. split; [reflexivity|]. split; [apply setLine_length|].
    apply setLine_noLF; [exact HF|]. apply noLF_cutMarker.
    eapply noLF_lineAt; eassumption.
Qed.

(** C8 - Line-ending preservation.  The ending is CRLF when the text holds
    a CRLF anywhere and LF otherwise.  The insertion callback returns the
    lines of the text, one of them possibly rewritten, joined by that
    ending; the removal callback returns the text as it was or its lines
    joined by that ending.  No line holds a line feed of its own, so every
    line break of the result is the detected ending. *)
Theorem line_ending_preservation :
  (forall content : jsstring,
     detectEol content = if includes content CRLF then CRLF else [LF])
  /\ (forall (visibleLine : Z) (content : jsstring),
        exists lines',
          previewInsert visibleLine content = Some (join (detectEol content) lines')
          /\ length lines' = length (splitEol content)
          /\ Forall noLF lines')
  /\ (forall (findBookmark : jsstring -> BookmarkState) (content : jsstring),
        previewRemove findBookmark content = content
        \/ exists lines',
             previewRemove findBookmark content = join (detectEol content) lines'
             /\ length lines' = length (splitEol content)
             /\ Forall noLF lines').
Proof.
  split; [reflexivity|]. split; [exact previewInsert_total|exact previewRemove_cases].
Qed.

(** A CRLF document keeps CRLF through an insertion, an LF document LF. *)
Example previewInsert_crlf :
  previewInsert 1 (js "a" ++ CRLF ++ js "b" ++ CRLF ++ js "c")
  = Some (js "a" ++ CRLF ++ js "b <!-- bookmark-marker -->" ++ CRLF ++ js "c").
Proof. reflexivity. Qed.

End LineEndings.

(** ** The cleanup of all markers *)

Section Cleanup.















(** Markers at line ends, as the plugin writes them, go in one cleanup. *)
Example cleanupContent_twoMarkers :
  cleanupContent twoMarkers = js "one
two three".
Proof. reflexivity. Qed.

(** In edit mode the command rewrites the buffer with the cleaned text. *)
Remark cleanupMultipleBookmarks_source (w : World) :
  mode w = source ->
  cleanupMultipleBookmarks w
  = Some (updateActionIcon (setBuffer w (cleanupContent (buffer w))) "bookmark").
Proof. intros H. unfold cleanupMultipleBookmarks. rewrite H. reflexivity. Qed.

End Cleanup.

(** ** The deferred removal *)

Lemma splitLF_pieces (s : jsstring) :
  match splitLF s with
  | [] => False
  | l :: ls => (exists post, s = l ++ post) /\ Forall (infixOf s) ls
  end.
Proof.
  induction s as [|c s IH]; cbn [splitLF].
  - split; [exists []; reflexivity|constructor].
  - destruct (splitLF s) as [|l ls]; [contradiction|].
    destruct IH as [[post Hl] Hls].
    assert (Hshift : forall p, infixOf s p -> infixOf (c :: s) p).
    { intros p (pre & post' & ->). exists (c :: pre), post'. reflexivity. }
    destruct (N.eqb c LF); cbn [consHead].
    + split; [exists (c :: s); reflexivity|].
      constructor.
      * exists [c], post. cbn. f_equal. exact Hl.
      * eapply Forall_impl; [exact Hls|exact Hshift].
    + split; [exists post; cbn; f_equal; exact Hl|].
      eapply Forall_impl; [exact Hls|exact Hshift].
Qed.

(** Every line of a text occurs in the text. *)
Lemma splitLF_infix (s : jsstring) : Forall (infixOf s) (splitLF s).
Proof.
  pose proof (splitLF_pieces s) as H. destruct (splitLF s) as [|l ls]; [contradiction|].
  destruct H as [[post Hl] Hls]. constructor; [|exact Hls].
  exists [], post. exact Hl.
Qed.

Lemma includes_infixOf (s p : jsstring) :
  infixOf s p -> includes s BOOKMARK_MARKER = false -> includes p BOOKMARK_MARKER = false.
Proof.
  intros (pre & post & ->) H.
  destruct (includes p BOOKMARK_MARKER) eqn:E; [|reflexivity].
  rewrite (includes_infix pre p post _ E) in H. discriminate.
Qed.

Lemma findFrom_absent (lines : list jsstring) (i : Z) :
  Forall (fun l => includes l BOOKMARK_MARKER = false) lines ->
  BookmarkManager.findFrom i lines = {| hasBookmark := false; lineNumber := None |}.
Proof.
  intros H. revert i.
  induction H as [|l ls Hl Hls IH]; intros i; cbn [BookmarkManager.findFrom];
    [reflexivity|].
  rewrite Hl. apply IH.
Qed.

Lemma findBookmark_absent (content : jsstring) :
  includes content BOOKMARK_MARKER = false ->
  BookmarkManager.findBookmark content = {| hasBookmark := false; lineNumber := None |}.
Proof.
  intros H. unfold BookmarkManager.findBookmark. apply findFrom_absent.
  eapply Forall_impl; [apply splitLF_infix|].
  intros p Hp. cbn. eapply includes_infixOf; eassumption.
Qed.

Lemma removeBookmark_absent (content : jsstring) :
  includes content BOOKMARK_MARKER = false ->
  BookmarkManager.removeBookmark content = content.
Proof.
  intros H. unfold BookmarkManager.removeBookmark.
  rewrite (findBookmark_absent content H). reflexivity.
Qed.

Section DeferredRemoval.

(** The two calls into bookmarkManager.ts, and what the specification
    says of them when the text holds no marker. *)
Variable findBookmark : jsstring -> BookmarkState.
Variable removeBookmark : jsstring -> jsstring.

Hypothesis findBookmark_none :
  forall content, includes content BOOKMARK_MARKER = false ->
                  hasBookmark (findBookmark content) = false.
Hypothesis removeBookmark_none :
  forall content, includes content BOOKMARK_MARKER = false ->
                  removeBookmark content = content.

Lemma previewRemove_absent (content : jsstring) :
  includes content BOOKMARK_MARKER = false ->
  previewRemove findBookmark content = content.
Proof.
  intros H. unfold previewRemove. rewrite (findBookmark_none content H). reflexivity.
Qed.

Lemma vaultProcess_same (path : string) (fn : jsstring -> jsstring)
    (w : World) (content : jsstring) :
  vault w !! path = Some content -> fn content = content ->
  vaultProcess path fn w = Some w.
Proof.
  intros Hc Hfn. unfold vaultProcess. rewrite Hc. bind_step.
  rewrite Hfn, (insert_id _ _ _ Hc). destruct w; reflexivity.
Qed.

(** C5 - Deferred-removal re-validation.  What the timer callback does is
    computed from the world it finds when it runs: in edit mode
    [removeBookmark] on the buffer of that moment, in preview mode the
    removal callback on the text the file holds at that moment, in which
    the marker is looked up afresh.  When the marker has gone from the
    buffer and from the file in the meantime, the callback completes and
    leaves both as they are. *)
Theorem deferred_removal_revalidates (w : World) :
  (mode w = source ->
   deferredRemoval findBookmark removeBookmark w
   = Some (updateActionIcon (setBuffer w (removeBookmark (buffer w))) "bookmark"))
  /\ (forall path content,
        mode w = preview -> file w = Some path -> vault w !! path = Some content ->
        deferredRemoval findBookmark removeBookmark w
        = Some (updateActionIcon
                  (setVault w (<[path := previewRemove findBookmark content]> (vault w)))
                  "bookmark"))
  /\ (includes (buffer w) BOOKMARK_MARKER = false ->
      (forall path, file w = Some path ->
         exists content, vault w !! path = Some content
                         /\ includes content BOOKMARK_MARKER = false) ->
      exists w',
        deferredRemoval findBookmark removeBookmark w = Some w'
        /\ vault w' = vault w /\ buffer w' = buffer w).
Proof.
  split; [|split].
  - intros Hm. unfold deferredRemoval. rewrite Hm.
    destruct (file w) as [path|]; [|reflexivity].
    rewrite bool_decide_eq_true_2 by reflexivity. reflexivity.
  - intros path content Hm Hf Hc. unfold deferredRemoval, vaultProcess.
    rewrite Hm, Hf, Hc. reflexivity.
  - intros Hbuf Hfile. unfold deferredRemoval.
    destruct (mode w); destruct (file w) as [path|] eqn:Hf.
    + rewrite bool_decide_eq_true_2 by reflexivity. cbn [negb].
      eexists. split; [reflexivity|]. cbn. rewrite (removeBookmark_none _ Hbuf). auto.
    + eexists. split; [reflexivity|]. cbn. rewrite (removeBookmark_none _ Hbuf). auto.
    + destruct (Hfile path eq_refl) as (content & Hc & Hclean).
      rewrite (vaultProcess_same path _ w content Hc
                 (previewRemove_absent content Hclean)).
      bind_step. eexists. split; [reflexivity|]. auto.
    + exists w. auto.
Qed.

End DeferredRemoval.

Lemma deferred_removal_revalidates_witness :
  exists w',
    deferredRemoval BookmarkManager.findBookmark BookmarkManager.removeBookmark
      (staleWorld preview) = Some w'
    /\ vault w' = vault (staleWorld preview)
    /\ buffer w' = buffer (staleWorld preview).
Proof.
  apply (deferred_removal_revalidates
           BookmarkManager.findBookmark BookmarkManager.removeBookmark).
  - intros content H. rewrite (findBookmark_absent content H). reflexivity.
  - exact removeBookmark_absent.
  - vm_compute. reflexivity.
  - intros path Hp. injection Hp as <-.
    exists (js "first
second"). split; [reflexivity|vm_compute; reflexivity].
Defined.

(** The marker has moved down a line since the toggle: the callback cuts
    it out where it is now. *)
Example deferredRemoval_moved_marker :
  previewRemove BookmarkManager.findBookmark
    (js "new first line
a
b <!-- bookmark-marker -->")
  = js "new first line
a
b".
Proof. reflexivity. Qed.

(** ** Decorations *)

Section Decorations.

Implicit Types doc : list jsstring.

Lemma splitLF_line (l : jsstring) : noLF l -> splitLF l = [l].
Proof.
  induction l as [|c l IH]; intros H; [reflexivity|].
  apply not_elem_of_cons in H as [Hc Hl]. cbn [splitLF].
  destruct (N.eqb_spec c LF) as [->|_]; [congruence|].
  rewrite (IH Hl). reflexivity.
Qed.

Lemma splitLF_app (l s : jsstring) :
  noLF l -> splitLF (l ++ LF :: s) = l :: splitLF s.
Proof.
  induction l as [|c l IH]; intros H; [reflexivity|].
  apply not_elem_of_cons in H as [Hc Hl]. cbn [app splitLF].
  destruct (N.eqb_spec c LF) as [->|_]; [congruence|].
  rewrite (IH Hl). reflexivity.
Qed.

(** Splitting the text of the document gives its lines back. *)
Lemma splitLF_docToString doc :
  Forall noLF doc -> doc <> [] -> splitLF (docToString doc) = doc.
Proof.
  unfold docToString. induction 1 as [|l ls Hl Hls IH]; intros Hne; [congruence|].
  cbn [join]. destruct ls as [|l' ls].
  - apply splitLF_line, Hl.
  - cbn [app]. rewrite (splitLF_app l _ Hl). f_equal. apply IH. discriminate.
Qed.

Lemma lineFrom_0 doc : lineFrom doc 0 = 0.
Proof. destruct doc; reflexivity. Qed.

Lemma lineFrom_app (pre rest : list jsstring) (l : jsstring) :
  lineFrom (pre ++ l :: rest) (S (length pre))
  = lineFrom (pre ++ l :: rest) (length pre) + Z.of_nat (length l) + 1.
Proof.
  induction pre as [|p pre IH]; cbn [app length lineFrom].
  - rewrite lineFrom_0. lia.
  - rewrite IH. lia.
Qed.

Lemma lineFrom_nonneg doc (k : nat) : 0 <= lineFrom doc k.
Proof.
  revert k. induction doc as [|l doc IH]; intros [|k]; cbn [lineFrom]; try lia.
  specialize (IH k). lia.
Qed.

(** A later line starts after the end of an earlier one. *)
Lemma lineFrom_lt doc (k k' : nat) (l : jsstring) :
  doc !! k = Some l -> (k < k')%nat -> (k' < length doc)%nat ->
  lineFrom doc k + Z.of_nat (length l) < lineFrom doc k'.
Proof.
  revert k k'. induction doc as [|x doc IH]; intros k k' Hk Hlt Hlen; [discriminate|].
  destruct k' as [|k']; [lia|]. cbn [length] in Hlen.
  destruct k as [|k]; cbn [lineFrom].
  - injection Hk as ->. pose proof (lineFrom_nonneg doc k'). lia.
  - cbn in Hk. specialize (IH k k' Hk). lia.
Qed.

(** The loop over the lines, started after [pre]. *)
Lemma decorateFrom_expected (pre rest : list jsstring) :
  decorateFrom (pre ++ rest) (Z.of_nat (length pre)) rest
  = expectedDecorations (lineFrom (pre ++ rest) (length pre)) rest.
Proof.
  revert pre. induction rest as [|l rest IH]; intros pre; [reflexivity|].
  cbn [decorateFrom expectedDecorations]. f_equal.
  - unfold decorateLine, markerDecorations, docLine.
    destruct (includes l BOOKMARK_MARKER) eqn:Hinc; [|reflexivity].
    replace ((1 <=? Z.of_nat (length pre) + 1)
             && (Z.of_nat (length pre) + 1 <=? Z.of_nat (length (pre ++ l :: rest))))
      with true.
    2:{ symmetry. apply andb_true_iff. rewrite length_app. cbn [length].
        split; apply Z.leb_le; lia. }
    replace (Z.to_nat (Z.of_nat (length pre) + 1 - 1)) with (length pre) by lia.
    rewrite (indexOf_includes l Hinc). reflexivity.
  - specialize (IH (pre ++ [l])).
    rewrite <- app_assoc in IH. cbn [app] in IH.
    rewrite length_app in IH. cbn [length] in IH.
    replace (Z.of_nat (length pre + 1)) with (Z.of_nat (length pre) + 1) in IH by lia.
    rewrite IH. f_equal.
    replace (length pre + 1)%nat with (S (length pre)) by lia.
    apply lineFrom_app.
Qed.

Lemma buildDecorations_expected doc :
  Forall noLF doc -> doc <> [] ->
  buildDecorations doc = expectedDecorations 0 doc.
Proof.
  intros HF Hne. unfold buildDecorations. rewrite (splitLF_docToString doc HF Hne).
  pose proof (decorateFrom_expected [] doc) as H.
  cbn [app length] in H. rewrite lineFrom_0 in H. exact H.
Qed.

Lemma expected_lines (from : Z) doc :
  length (filter (fun d => isLineDecoration d = true) (expectedDecorations from doc))
  = length (filter (fun l => includes l BOOKMARK_MARKER = true) doc).
Proof.
  revert from. induction doc as [|l doc IH]; intros from; [reflexivity|].
  cbn [expectedDecorations]. rewrite filter_app, length_app, IH.
  rewrite filter_cons. unfold markerDecorations.
  destruct (includes l BOOKMARK_MARKER) eqn:E.
  - rewrite decide_True by reflexivity. reflexivity.
  - rewrite decide_False by discriminate. reflexivity.
Qed.

Lemma expected_marks (from : Z) doc :
  length (filter (fun d => isMarkDecoration d = true) (expectedDecorations from doc))
  = length (filter (fun l => includes l BOOKMARK_MARKER = true) doc).
Proof.
  revert from. induction doc as [|l doc IH]; intros from; [reflexivity|].
  cbn [expectedDecorations]. rewrite filter_app, length_app, IH.
  rewrite filter_cons. unfold markerDecorations.
  destruct (includes l BOOKMARK_MARKER) eqn:E.
  - rewrite decide_True by reflexivity. reflexivity.
  - rewrite decide_False by discriminate. reflexivity.
Qed.

(** Every mark belongs to a line that holds the marker, and sits on the
    first occurrence in it. *)
Lemma expected_mark_inv (from : Z) doc (a b : Z) :
  MarkDecoration a b ∈ expectedDecorations from doc ->
  exists (k : nat) (l : jsstring),
    doc !! k = Some l
    /\ includes l BOOKMARK_MARKER = true
    /\ a = from + lineFrom doc k + indexOf l BOOKMARK_MARKER
    /\ b = a + Z.of_nat (length BOOKMARK_MARKER).
Proof.
  revert from. induction doc as [|l doc IH]; intros from H;
    cbn [expectedDecorations] in H.
  - apply elem_of_nil in H. contradiction.
  - apply elem_of_app in H as [H|H].
    + unfold markerDecorations in H.
      destruct (includes l BOOKMARK_MARKER) eqn:E;
        [|apply elem_of_nil in H; contradiction].
      apply elem_of_cons in H as [H|H]; [discriminate|].
      apply elem_of_cons in H as [H|H]; [|apply elem_of_nil in H; contradiction].
      injection H as -> ->. exists 0%nat, l. cbn [lineFrom].
      repeat split; [exact E|lia].
    + destruct (IH _ H) as (k & l' & Hk & Hinc & -> & ->).
      exists (S k), l'. cbn [lineFrom]. repeat split; [exact Hk|exact Hinc|lia].
Qed.

Lemma expected_contains (from : Z) doc (k : nat) (l : jsstring) (d : Decoration) :
  doc !! k = Some l ->
  d ∈ markerDecorations (from + lineFrom doc k) l ->
  d ∈ expectedDecorations from doc.
Proof.
  revert from k. induction doc as [|x doc IH]; intros from k Hk Hd; [discriminate|].
  cbn [expectedDecorations]. apply elem_of_app. destruct k as [|k].
  - injection Hk as ->. left. cbn [lineFrom] in Hd.
    replace (from + 0) with from in Hd by lia. exact Hd.
  - right. cbn in Hk. apply (IH _ k Hk). cbn [lineFrom] in Hd.
    replace (from + Z.of_nat (length x) + 1 + lineFrom doc k)
      with (from + (Z.of_nat (length x) + 1 + lineFrom doc k)) by lia.
    exact Hd.
Qed.

(** C10 - Decoration coverage is first-occurrence-only.  For a document of
    the editor (lines without line feeds, at least one line) the builder
    yields, line by line, one line decoration and one mark for each line
    that holds the marker, so as many of each as there are such lines.
    The mark of a line covers the first occurrence of the marker in it,
    and no other position of the line, up to its line break, is hidden:
    a further occurrence on the line stays uncovered. *)
Theorem decoration_first_occurrence_only (doc : list jsstring) :
  Forall noLF doc -> doc <> [] ->
  buildDecorations doc = expectedDecorations 0 doc
  /\ length (filter (fun d => isLineDecoration d = true) (buildDecorations doc))
     = length (filter (fun l => includes l BOOKMARK_MARKER = true) doc)
  /\ length (filter (fun d => isMarkDecoration d = true) (buildDecorations doc))
     = length (filter (fun l => includes l BOOKMARK_MARKER = true) doc)
  /\ forall (k : nat) (l : jsstring),
       doc !! k = Some l -> includes l BOOKMARK_MARKER = true ->
       exists i : nat,
         indexOf l BOOKMARK_MARKER = Z.of_nat i
         /\ startsWith (drop i l) BOOKMARK_MARKER = true
         /\ (forall j, (j < i)%nat -> startsWith (drop j l) BOOKMARK_MARKER = false)
         /\ LineDecoration (lineFrom doc k) ∈ buildDecorations doc
         /\ MarkDecoration (lineFrom doc k + Z.of_nat i)
              (lineFrom doc k + Z.of_nat i + Z.of_nat (length BOOKMARK_MARKER))
              ∈ buildDecorations doc
         /\ forall p, 0 <= p <= Z.of_nat (length l) ->
              hidden (buildDecorations doc) (lineFrom doc k + p) ->
              Z.of_nat i <= p < Z.of_nat i + Z.of_nat (length BOOKMARK_MARKER).
Proof.
  intros HF Hne. rewrite (buildDecorations_expected doc HF Hne).
  split; [reflexivity|].
  split; [apply expected_lines|]. split; [apply expected_marks|].
  intros k l Hk Hinc.
  destruct (indexOf_found l Hinc) as (i & Hi & Hlen & Hst & Hmin).
  exists i. split; [exact Hi|]. split; [exact Hst|]. split; [exact Hmin|].
  assert (Hdecs : forall d, d ∈ markerDecorations (lineFrom doc k) l ->
                            d ∈ expectedDecorations 0 doc).
  { intros d Hd. apply (expected_contains 0 doc k l d Hk). exact Hd. }
  split; [|split].
  - apply Hdecs. unfold markerDecorations. rewrite Hinc.
    apply elem_of_cons. left. reflexivity.
  - apply Hdecs. unfold markerDecorations. rewrite Hinc, Hi.
    apply elem_of_cons. right. apply elem_of_cons. left. reflexivity.
  - intros p Hp (a & b & Hmark & Hab).
    destruct (expected_mark_inv 0 doc a b Hmark) as (k' & l' & Hk' & Hinc' & Ha & Hb).
    destruct (indexOf_found l' Hinc') as (i' & Hi' & Hlen' & _).
    pose proof (lookup_lt_Some _ _ _ Hk) as Hklt.
    pose proof (lookup_lt_Some _ _ _ Hk') as Hk'lt.
    destruct (Nat.lt_trichotomy k' k) as [Hlt|[Heq|Hgt]].
    + pose proof (lineFrom_lt doc k' k l' Hk' Hlt Hklt). lia.
    + subst k'. rewrite Hk in Hk'. injection Hk' as <-. lia.
    + pose proof (lineFrom_lt doc k k' l Hk Hgt Hk'lt). lia.
Qed.

Lemma decoration_first_occurrence_only_witness :
  buildDecorations markedDoc = expectedDecorations 0 markedDoc
  /\ buildDecorations markedDoc
     = [LineDecoration 2; MarkDecoration 4 28; LineDecoration 54; MarkDecoration 54 78].
Proof.
  split; [|reflexivity].
  apply (decoration_first_occurrence_only markedDoc).
  - repeat constructor; intros H; apply list_elem_of_In in H;
      vm_compute in H; intuition discriminate.
  - discriminate.
Defined.

End Decorations.

(** ** Fenced blocks *)

Section Fences.

Import PlacementPolicy.

Implicit Types doc : list jsstring.

Lemma fenceCount_0 doc : fenceCount doc 0 = 0%nat.
Proof. unfold fenceCount. rewrite take_0. reflexivity. Qed.

Lemma fenceCount_S doc (i : nat) (l : jsstring) :
  doc !! i = Some l ->
  fenceCount doc (S i) = (fenceCount doc i + if isFenceLine l then 1 else 0)%nat.
Proof.
  intros Hl. unfold fenceCount.
  rewrite (take_S_r doc i l Hl), filter_app, length_app.
  f_equal. rewrite filter_cons, filter_nil.
  destruct (isFenceLine l).
  - rewrite decide_True by reflexivity. reflexivity.
  - rewrite decide_False by discriminate. reflexivity.
Qed.

(** The walk backward stops at or before its start, on a line that opens
    a fence. *)
Lemma openingFence_inv doc (line i : nat) :
  openingFence doc line = Some i -> (i <= line)%nat /\ opensFence doc i = true.
Proof.
  induction line as [|line IH]; cbn [openingFence].
  - destruct (opensFence doc 0) eqn:E; [|discriminate].
    intros [= <-]. auto.
  - destruct (opensFence doc (S line)) eqn:E.
    + intros [= <-]. auto.
    + intros H. destruct (IH H). split; [lia|assumption].
Qed.

(** With a fence-delimiter line at or before [line], the walk finds one
    that opens a fence. *)
Lemma openingFence_exists doc (line : nat) :
  (line < length doc)%nat -> (1 <= fenceCount doc (S line))%nat ->
  exists i, openingFence doc line = Some i.
Proof.
  induction line as [|line IH]; intros Hlt Hcount.
  - destruct (lookup_lt_is_Some_2 doc 0 Hlt) as [l Hl].
    rewrite (fenceCount_S doc 0 l Hl), fenceCount_0 in Hcount.
    cbn [openingFence]. unfold opensFence, insideFence. rewrite Hl.
    rewrite (fenceCount_S doc 0 l Hl), fenceCount_0.
    destruct (isFenceLine l); [|lia]. exists 0%nat. reflexivity.
  - destruct (lookup_lt_is_Some_2 doc (S line) Hlt) as [l Hl].
    cbn [openingFence]. destruct (opensFence doc (S line)) eqn:E; [eauto|].
    apply IH; [lia|].
    unfold opensFence, insideFence in E. rewrite Hl in E.
    rewrite (fenceCount_S doc (S line) l Hl) in E, Hcount.
    destruct (isFenceLine l); [|lia].
    cbn [andb] in E. destruct (fenceCount doc (S line)) as [|n]; [|lia].
    cbn in E. discriminate.
Qed.

(** The line before an opening fence-delimiter line is outside. *)
Lemma before_opening_outside doc (i : nat) :
  opensFence doc i = true -> (0 < i)%nat -> insideFence doc (i - 1) = false.
Proof.
  unfold opensFence, insideFence. intros H Hi.
  destruct (doc !! i) as [l|] eqn:Hl; [|discriminate].
  apply andb_true_iff in H as [Hf Hodd].
  rewrite (fenceCount_S doc i l Hl), Hf in Hodd.
  replace (S (i - 1)) with i by lia.
  rewrite Nat.add_1_r, Nat.odd_succ in Hodd.
  rewrite <- Nat.negb_even, Hodd. reflexivity.
Qed.

(** C4 - Fenced-block avoidance.  A candidate outside the metadata header
    that is a fence-delimiter line or inside a fence has an opening
    fence-delimiter line [i] at or before it; when [i > 0] the target is
    line [i - 1], which is not inside a fence.  In the sample document
    candidate 2 goes to line 0. *)
Theorem fence_avoidance :
  (forall (doc : list jsstring) (candidate : nat) (l : jsstring),
     insertTarget doc (Z.of_nat candidate) = Z.of_nat candidate ->
     doc !! candidate = Some l ->
     isFenceLine l || insideFence doc candidate = true ->
     exists i : nat,
       openingFence doc candidate = Some i
       /\ (i <= candidate)%nat
       /\ opensFence doc i = true
       /\ ((0 < i)%nat ->
           resolveTarget doc (Z.of_nat candidate) = Z.of_nat i - 1
           /\ insideFence doc (i - 1) = false))
  /\ resolveTarget fenceDoc 2 = 0.
Proof.
  split; [|reflexivity].
  intros doc candidate l Hhead Hl Hfenced.
  pose proof (lookup_lt_Some _ _ _ Hl) as Hlt.
  destruct (openingFence_exists doc candidate Hlt) as [i Hi].
  { rewrite (fenceCount_S doc candidate l Hl).
    apply orb_true_iff in Hfenced as [Hf|Hin].
    - rewrite Hf. lia.
    - unfold insideFence in Hin. rewrite (fenceCount_S doc candidate l Hl) in Hin.
      destruct (fenceCount doc candidate + _)%nat; [discriminate|lia]. }
  destruct (openingFence_inv doc candidate i Hi) as [Hle Hopen].
  exists i. repeat split; try assumption.
  - unfold resolveTarget. rewrite Hhead, Nat2Z.id, Hl, Hfenced, Hi.
    replace (0 <? i)%nat with true by (symmetry; apply Nat.ltb_lt; assumption).
    lia.
  - apply before_opening_outside; assumption.
Qed.

Lemma fence_avoidance_witness :
  exists i : nat,
    openingFence fenceDoc 2 = Some i
    /\ (i <= 2)%nat
    /\ opensFence fenceDoc i = true
    /\ ((0 < i)%nat ->
        resolveTarget fenceDoc (Z.of_nat 2) = Z.of_nat i - 1
        /\ insideFence fenceDoc (i - 1) = false).
Proof.
  apply (proj1 fence_avoidance fenceDoc 2%nat (js "code")); reflexivity.
Defined.

(** The insertion of preview mode has no fence rule: the same candidate
    stays on its line there. *)
Remark insertTarget_in_fence : insertTarget fenceDoc 2 = 2.
Proof. reflexivity. Qed.

End Fences.

(** * Further properties of the code *)

(** ** The expressions that remove markers *)

Section MarkerExpressions.

Implicit Types l r s : jsstring.

(** A replacement by the empty string only deletes. *)
Lemma replaceAll_sublist (matchLen : jsstring -> option nat) s :
  forall skip, replaceAll matchLen skip s `sublist_of` s.
Proof.
  induction s as [|c s IH]; intros skip; cbn [replaceAll]; [constructor|].
  destruct skip as [|k].
  - destruct (matchLen (c :: s)) as [[|k]|].
    + apply sublist_skip, IH.
    + apply sublist_cons, IH.
    + apply sublist_skip, IH.
  - apply sublist_cons, IH.
Qed.

(** X1 - The cleanup only deletes: what it returns is the text with some
    code units left out, in the same order, so it is never longer and
    holds nothing the text did not hold. *)
Theorem cleanup_only_deletes (content : jsstring) :
  cleanupContent content `sublist_of` content
  /\ cleanupContentSingle content `sublist_of` content
  /\ (length (cleanupContent content) <= length content)%nat
  /\ (forall c, c ∈ cleanupContent content -> c ∈ content).
Proof.
  assert (H : cleanupContent content `sublist_of` content).
  { unfold cleanupContent, replaceAfter, replaceBefore.
    etransitivity; apply replaceAll_sublist. }
  split; [exact H|]. split; [apply replaceAll_sublist|].
  split; [apply sublist_length, H|].
  intros c Hc. eapply sublist_subseteq; eassumption.
Qed.

Lemma startsWith_long s pat r :
  (length pat <= length s)%nat ->
  startsWith (s ++ r) pat = startsWith s pat.
Proof.
  revert s. induction pat as [|p pat IH]; intros s Hlen; [reflexivity|].
  destruct s as [|c s]; [cbn in Hlen; lia|].
  cbn. rewrite IH; [reflexivity|]. cbn in Hlen. lia.
Qed.

Lemma startsWith_short s pat r :
  startsWith (s ++ r) pat = true -> (length s <= length pat)%nat ->
  s = take (length s) pat.
Proof.
  revert s. induction pat as [|p pat IH]; intros s H Hlen.
  - destruct s; [reflexivity|cbn in Hlen; lia].
  - destruct s as [|c s]; [reflexivity|].
    cbn in H. apply andb_true_iff in H as [Hc Hs]. apply N.eqb_eq in Hc. subst c.
    cbn. f_equal. apply IH; [exact Hs|]. cbn in Hlen. lia.
Qed.

(** The marker does not overlap a copy of itself that follows a space. *)
Lemma marker_overlap (n : nat) r :
  (n < length BOOKMARK_MARKER)%nat ->
  startsWith (take n BOOKMARK_MARKER ++ SP :: BOOKMARK_MARKER ++ r) BOOKMARK_MARKER
  = false.
Proof.
  intros Hn.
  do 24 (destruct n as [|n]; [reflexivity|]).
  cbn in Hn. lia.
Qed.

(** In a text without a marker followed by a space and a marker, no
    occurrence starts before the space. *)
Lemma no_early_occurrence l r :
  includes l BOOKMARK_MARKER = false ->
  startsWith (l ++ SP :: BOOKMARK_MARKER ++ r) BOOKMARK_MARKER = false.
Proof.
  intros Hl.
  destruct (startsWith (l ++ SP :: BOOKMARK_MARKER ++ r) BOOKMARK_MARKER) eqn:E;
    [|reflexivity].
  destruct (le_lt_dec (length BOOKMARK_MARKER) (length l)) as [Hlong|Hshort].
  - rewrite (startsWith_long l _ _ Hlong) in E.
    rewrite (includes_startsWith _ _ E) in Hl. discriminate.
  - pose proof (startsWith_short l _ _ E ltac:(lia)) as Heq.
    rewrite Heq, (marker_overlap _ r Hshort) in E. discriminate.
Qed.

Lemma includes_drop_false n l pat :
  includes l pat = false -> includes (drop n l) pat = false.
Proof.
  intros H. destruct (includes (drop n l) pat) eqn:E; [|reflexivity].
  rewrite (includes_drop n l pat E) in H. discriminate.
Qed.


(** The marker that the insertion appends is the first one of the line. *)
Lemma indexOf_appended l :
  includes l BOOKMARK_MARKER = false ->
  indexOf (l ++ js " " ++ BOOKMARK_MARKER) BOOKMARK_MARKER = Z.of_nat (length l) + 1.
Proof.
  intros Hl.
  assert (Hinc : includes (l ++ js " " ++ BOOKMARK_MARKER) BOOKMARK_MARKER = true).
  { change (js " " ++ BOOKMARK_MARKER) with (js " " ++ BOOKMARK_MARKER ++ []).
    rewrite (app_assoc l). apply includes_app. }
  destruct (indexOf_found _ Hinc) as (k & Hk & _ & Hst & Hmin).
  rewrite Hk.
  destruct (Nat.lt_trichotomy k (S (length l))) as [Hlt|[->|Hgt]]; [|lia|].
  - exfalso. rewrite drop_app_le in Hst by lia.
    change (js " " ++ BOOKMARK_MARKER) with (SP :: BOOKMARK_MARKER ++ []) in Hst.
    rewrite no_early_occurrence in Hst; [discriminate|].
    apply includes_drop_false, Hl.
  - exfalso. specialize (Hmin (S (length l)) Hgt).
    change (js " " ++ BOOKMARK_MARKER) with ([SP] ++ BOOKMARK_MARKER) in Hmin.
    rewrite app_assoc in Hmin.
    rewrite drop_app_length' in Hmin by (rewrite length_app; cbn; lia).
    discriminate.
Qed.

Lemma cutMarker_marked (l : jsstring) :
  includes l BOOKMARK_MARKER = false ->
  let marked := l ++ js " " ++ BOOKMARK_MARKER in
  indexOf marked BOOKMARK_MARKER = Z.of_nat (length l) + 1
  /\ cutMarker marked (indexOf marked BOOKMARK_MARKER) = l.
Proof.
  intros Hl marked. split; [apply indexOf_appended, Hl|].
  unfold marked. rewrite (indexOf_appended l Hl).
  unfold cutMarker, charAt, slice, sliceFrom, sliceIndex.
  replace (0 <? Z.of_nat (length l) + 1) with true by (symmetry; apply Z.ltb_lt; lia).
  replace (Z.of_nat (length l) + 1 - 1 <? 0) with false
    by (symmetry; apply Z.ltb_ge; lia).
  replace (Z.to_nat (Z.of_nat (length l) + 1 - 1)) with (length l) by lia.
  rewrite lookup_app_r by lia. rewrite Nat.sub_diag.
  cbn [js fmap list_fmap list_ascii_of_string app lookup list_lookup].
  change (N_of_ascii " ") with SP.
  rewrite bool_decide_eq_true_2 by reflexivity. cbn [andb].
  rewrite !length_app. cbn [length].
  change (0 <? 0) with false. cbv iota.
  replace (Z.of_nat (length l) + 1 - 1 <? 0) with false
    by (symmetry; apply Z.ltb_ge; lia).
  replace (Z.of_nat (length l) + 1 + Z.of_nat (length BOOKMARK_MARKER) <? 0)
    with false by (symmetry; apply Z.ltb_ge; lia).
  replace (Z.to_nat (0 `min` Z.of_nat (length l + S (length BOOKMARK_MARKER))))
    with 0%nat by lia.
  replace (Z.to_nat
             ((Z.of_nat (length l) + 1 - 1)
                `min` Z.of_nat (length l + S (length BOOKMARK_MARKER))
              - 0 `min` Z.of_nat (length l + S (length BOOKMARK_MARKER))))
    with (length l) by lia.
  rewrite drop_0, take_app_length.
  rewrite drop_ge; [apply app_nil_r|].
  rewrite length_app. cbn [length]. lia.
Qed.

(** X2 - Codec round trip on a line.  On a line without a marker, the
    text the insertion writes (one space and the marker, appended) is what
    the removal cuts out again: the line comes back as it was, with its
    own trailing spaces. *)
Theorem cutMarker_appended (l : jsstring) :
  includes l BOOKMARK_MARKER = false ->
  let marked := l ++ js " " ++ BOOKMARK_MARKER in
  indexOf marked BOOKMARK_MARKER = Z.of_nat (length l) + 1
  /\ cutMarker marked (indexOf marked BOOKMARK_MARKER) = l.
Proof.
  exact (cutMarker_marked l).
Qed.


Lemma trimEnd_nil l : trimEnd l = [] <-> forallb isSpace l = true.
Proof.
  induction l as [|c l IH]; [tauto|]. cbn [trimEnd forallb].
  destruct (trimEnd l) as [|t ts].
  - destruct IH as [IH _]. rewrite (IH eq_refl), andb_true_r.
    destruct (isSpace c); split; congruence.
  - split; [discriminate|]. intros H. apply andb_true_iff in H as [_ H].
    apply IH in H. discriminate.
Qed.

Lemma trimEnd_cons c l :
  forallb isSpace (c :: l) = false -> trimEnd (c :: l) = c :: trimEnd l.
Proof.
  intros H. cbn [trimEnd]. destruct (trimEnd l) as [|t ts] eqn:E; [|reflexivity].
  apply trimEnd_nil in E. cbn [forallb] in H. rewrite E, andb_true_r in H.
  rewrite H. reflexivity.
Qed.

Lemma spaceRun_le l : (spaceRun l <= length l)%nat.
Proof.
  induction l as [|c l IH]; cbn [spaceRun length]; [lia|].
  destruct (isSpace c); lia.
Qed.

Lemma spaceRun_app_spaces l r :
  forallb isSpace l = true -> spaceRun (l ++ r) = (length l + spaceRun r)%nat.
Proof.
  induction l as [|c l IH]; intros H; [reflexivity|].
  cbn [forallb] in H. apply andb_true_iff in H as [Hc Hl].
  cbn [app spaceRun length]. rewrite Hc, (IH Hl). reflexivity.
Qed.

Lemma spaceRun_app_text l r :
  forallb isSpace l = false -> spaceRun (l ++ r) = spaceRun l.
Proof.
  induction l as [|c l IH]; intros H; [discriminate|].
  cbn [forallb] in H. cbn [app spaceRun].
  destruct (isSpace c); [|reflexivity]. f_equal. apply IH, H.
Qed.

(** Dropping the code units of a match leads to the text after it. *)
Lemma replaceAll_skip (matchLen : jsstring -> option nat) (x r : jsstring) :
  replaceAll matchLen (length x) (x ++ r) = replaceAll matchLen O r.
Proof. induction x as [|c x IH]; [reflexivity|]. exact IH. Qed.

(** Where [/\s*<marker>/] matches in a text without a marker that a
    space and a marker follow. *)
Lemma matchBefore_trailing l r :
  includes l BOOKMARK_MARKER = false ->
  matchBefore (l ++ SP :: BOOKMARK_MARKER ++ r) =
    if forallb isSpace l
    then Some (length l + S (length BOOKMARK_MARKER))%nat
    else None.
Proof.
  intros Hl. unfold matchBefore.
  destruct (forallb isSpace l) eqn:Hsp.
  - rewrite (spaceRun_app_spaces l _ Hsp).
    change (spaceRun (SP :: BOOKMARK_MARKER ++ r)) with 1%nat.
    rewrite drop_app_ge by lia.
    replace (length l + 1 - length l)%nat with 1%nat by lia.
    cbn [drop]. rewrite drop_0, startsWith_app. f_equal. lia.
  - rewrite (spaceRun_app_text l _ Hsp).
    rewrite drop_app_le by apply spaceRun_le.
    rewrite no_early_occurrence; [reflexivity|].
    apply includes_drop_false, Hl.
Qed.

Lemma replaceAll_cons (matchLen : jsstring -> option nat) (c : N) s :
  replaceAll matchLen O (c :: s) =
    match matchLen (c :: s) with
    | Some (S k) => replaceAll matchLen k s
    | _ => c :: replaceAll matchLen O s
    end.
Proof. reflexivity. Qed.

Lemma replaceBefore_trailing l r :
  includes l BOOKMARK_MARKER = false ->
  replaceBefore (l ++ SP :: BOOKMARK_MARKER ++ r) = trimEnd l ++ replaceBefore r.
Proof.
  unfold replaceBefore. induction l as [|c l IH]; intros Hl.
  - pose proof (matchBefore_trailing [] r eq_refl) as H.
    rewrite app_nil_l in H |- *. rewrite replaceAll_cons, H.
    change (forallb isSpace []) with true. cbv iota.
    change (length (@nil N) + S (length BOOKMARK_MARKER))%nat
      with (S (length BOOKMARK_MARKER)).
    cbv iota.
    rewrite (replaceAll_skip matchBefore BOOKMARK_MARKER r). reflexivity.
  - pose proof (includes_tail _ _ _ Hl) as Hl'.
    pose proof (matchBefore_trailing (c :: l) r Hl) as Hm.
    rewrite <- app_comm_cons in Hm |- *. rewrite replaceAll_cons, Hm.
    destruct (forallb isSpace (c :: l)) eqn:Hsp.
    + change (length (c :: l) + S (length BOOKMARK_MARKER))%nat
        with (S (length l + S (length BOOKMARK_MARKER))).
      cbv iota.
      replace (l ++ SP :: BOOKMARK_MARKER ++ r)
        with ((l ++ SP :: BOOKMARK_MARKER) ++ r) by (rewrite <- app_assoc; reflexivity).
      replace (length l + S (length BOOKMARK_MARKER))%nat
        with (length (l ++ SP :: BOOKMARK_MARKER))
        by (rewrite length_app; reflexivity).
      rewrite replaceAll_skip.
      rewrite (proj2 (trimEnd_nil (c :: l)) Hsp). reflexivity.
    + rewrite (trimEnd_cons c l Hsp), <- app_comm_cons. f_equal. apply IH, Hl'.
Qed.

(** X3 - What the cleanup expression removes.  In front of a marker that
    follows a space, a text without a marker loses its trailing run of
    white space (line breaks included) and keeps everything else; the
    cleanup goes on after the marker.  So a marker at the end of a line
    takes the line's own trailing blanks with it. *)
Theorem cleanup_trims_before_marker (l r : jsstring) :
  includes l BOOKMARK_MARKER = false ->
  cleanupContentSingle (l ++ js " " ++ BOOKMARK_MARKER ++ r)
    = trimEnd l ++ cleanupContentSingle r
  /\ replaceBefore (l ++ js " " ++ BOOKMARK_MARKER) = trimEnd l.
Proof.
  intros Hl. split.
  - apply (replaceBefore_trailing l r Hl).
  - pose proof (replaceBefore_trailing l [] Hl) as H.
    rewrite !app_nil_r in H. exact H.
Qed.

Lemma cleanup_trims_before_marker_witness :
  cleanupContentSingle (js "keep  " ++ js " " ++ BOOKMARK_MARKER ++ js "
next")
    = trimEnd (js "keep  ") ++ cleanupContentSingle (js "
next")
  /\ replaceBefore (js "keep  " ++ js " " ++ BOOKMARK_MARKER) = trimEnd (js "keep  ").
Proof. apply (cleanup_trims_before_marker (js "keep  ")). reflexivity. Defined.

Lemma cutMarker_appended_witness :
  indexOf (js "keep  " ++ js " " ++ BOOKMARK_MARKER) BOOKMARK_MARKER
    = Z.of_nat (length (js "keep  ")) + 1
  /\ cutMarker (js "keep  " ++ js " " ++ BOOKMARK_MARKER)
       (indexOf (js "keep  " ++ js " " ++ BOOKMARK_MARKER) BOOKMARK_MARKER)
     = js "keep  ".
Proof. apply (cutMarker_appended (js "keep  ")). reflexivity. Defined.

End MarkerExpressions.

(** ** Line endings of a rewritten text *)

Section Rewriting.

Implicit Types c d : N.
Implicit Types l s : jsstring.
Implicit Types ls : list jsstring.

Lemma includes_CRLF s : includes s CRLF = hasCRLF s.
Proof.
  induction s as [|c s IH]; [reflexivity|].
  rewrite includes_unfold, IH. destruct s as [|d s]; cbn.
  - rewrite !andb_false_r. reflexivity.
  - rewrite andb_true_r. reflexivity.
Qed.

Lemma detectEol_hasCRLF s : detectEol s = if hasCRLF s then CRLF else [LF].
Proof. unfold detectEol. rewrite includes_CRLF. reflexivity. Qed.

Lemma hasCRLF_cons c s : hasCRLF (c :: s) = false -> hasCRLF s = false.
Proof.
  destruct s as [|d s]; [reflexivity|]. cbn [hasCRLF].
  intros H. apply orb_false_iff in H as [_ H]. exact H.
Qed.

Lemma splitLF_nonempty s : splitLF s <> [].
Proof.
  induction s as [|c s IH]; cbn [splitLF]; [discriminate|].
  destruct (N.eqb c LF); [discriminate|].
  destruct (splitLF s); [contradiction|discriminate].
Qed.

(** Without a CRLF the two ways of splitting agree. *)
Lemma splitEol_splitLF s : hasCRLF s = false -> splitEol s = splitLF s.
Proof.
  induction s as [|c s IH]; intros H; [reflexivity|].
  pose proof (hasCRLF_cons c s H) as H'.
  cbn [splitEol splitLF]. destruct (N.eqb c LF) eqn:Ec; [f_equal; auto|].
  destruct s as [|d s]; [reflexivity|].
  cbn [hasCRLF] in H. apply orb_false_iff in H as [H _]. rewrite H.
  f_equal. apply IH, H'.
Qed.

Lemma join_cons sep l ls :
  ls <> [] -> join sep (l :: ls) = l ++ sep ++ join sep ls.
Proof. destruct ls; [congruence|reflexivity]. Qed.

Lemma join_consHead sep c ls :
  ls <> [] -> join sep (consHead c ls) = c :: join sep ls.
Proof.
  destruct ls as [|l ls]; [congruence|]. intros _.
  destruct ls; reflexivity.
Qed.

(** Joining the lines of a text with line feeds gives the text back. *)
Lemma join_splitLF s : join [LF] (splitLF s) = s.
Proof.
  induction s as [|c s IH]; [reflexivity|].
  cbn [splitLF]. destruct (N.eqb_spec c LF) as [->|Hc].
  - rewrite join_cons by apply splitLF_nonempty. rewrite IH. reflexivity.
  - rewrite join_consHead by apply splitLF_nonempty. rewrite IH. reflexivity.
Qed.

(** A text whose every line feed follows a carriage return is the join
    of its lines by CRLF. *)
Lemma join_splitEol_bounded (n : nat) :
  forall s, (length s <= n)%nat -> pureCrlf false s = true ->
            join CRLF (splitEol s) = s.
Proof.
  induction n as [|n IH]; intros s Hlen Hpure.
  - destruct s; [reflexivity|cbn in Hlen; lia].
  - destruct s as [|c s]; [reflexivity|]. cbn [length] in Hlen.
    cbn [splitEol]. cbn [pureCrlf] in Hpure.
    destruct (N.eqb_spec c LF) as [->|Hc]; [discriminate|].
    destruct s as [|d s]; [reflexivity|].
    destruct (N.eqb_spec c CR) as [->|Hcr]; cbn [andb].
    + cbn [pureCrlf] in Hpure. destruct (N.eqb_spec d LF) as [->|Hd].
      * cbn [andb] in Hpure. rewrite join_cons by apply splitEol_nonempty.
        rewrite IH; [reflexivity|cbn [length] in Hlen; lia|exact Hpure].
      * rewrite join_consHead by apply splitEol_nonempty.
        rewrite IH; [reflexivity|lia|].
        cbn [pureCrlf]. destruct (N.eqb_spec d LF); [congruence|exact Hpure].
    + rewrite join_consHead by apply splitEol_nonempty.
      rewrite IH; [reflexivity|lia|exact Hpure].
Qed.

Lemma join_splitEol_uniform (content : jsstring) :
  hasCRLF content = false \/ pureCrlf false content = true ->
  join (detectEol content) (splitEol content) = content.
Proof.
  intros H. rewrite detectEol_hasCRLF.
  destruct (hasCRLF content) eqn:E.
  - destruct H as [H|H]; [discriminate|].
    apply (join_splitEol_bounded (length content)); [lia|exact H].
  - rewrite (splitEol_splitLF content E). apply join_splitLF.
Qed.

(** X4 - A rewrite that changes no line changes nothing: for a text with
    LF line breaks only, or with CRLF line breaks only, splitting it into
    lines and joining them with the detected ending gives the text back.
    (A text that mixes both comes back with every break as CRLF.) *)
Theorem rejoin_uniform (content : jsstring) :
  hasCRLF content = false \/ pureCrlf false content = true ->
  join (detectEol content) (splitEol content) = content.
Proof.
  apply join_splitEol_uniform.
Qed.

Lemma rejoin_uniform_witness :
  join (detectEol (js "a" ++ CRLF ++ js "b")) (splitEol (js "a" ++ CRLF ++ js "b"))
  = js "a" ++ CRLF ++ js "b".
Proof. apply rejoin_uniform. right. reflexivity. Defined.

(** A text with both kinds of break is normalised to CRLF. *)
Example rejoin_mixed :
  join (detectEol (js "a" ++ CRLF ++ js "b
c")) (splitEol (js "a" ++ CRLF ++ js "b
c"))
  = js "a" ++ CRLF ++ js "b" ++ CRLF ++ js "c".
Proof. reflexivity. Qed.


Lemma hasCRLF_unfold c d s :
  hasCRLF (c :: d :: s) = N.eqb c CR && N.eqb d LF || hasCRLF (d :: s).
Proof. reflexivity. Qed.

Lemma noLF_hasCRLF l : noLF l -> hasCRLF l = false.
Proof.
  induction l as [|c l IH]; intros H; [reflexivity|].
  apply not_elem_of_cons in H as [Hc Hl]. destruct l as [|d l]; [reflexivity|].
  rewrite hasCRLF_unfold, (IH Hl), orb_false_r.
  apply not_elem_of_cons in Hl as [Hd _].
  destruct (N.eqb_spec d LF); [congruence|]. apply andb_false_r.
Qed.

Lemma splitEol_line l : noLF l -> splitEol l = [l].
Proof.
  intros H. rewrite (splitEol_splitLF l (noLF_hasCRLF l H)). apply splitLF_line, H.
Qed.

Lemma endsWithCR_cons c d l : endsWithCR (c :: d :: l) = endsWithCR (d :: l).
Proof. reflexivity. Qed.

Lemma endsWithCR_app l c : endsWithCR (l ++ [c]) = N.eqb c CR.
Proof. unfold endsWithCR. rewrite last_snoc. reflexivity. Qed.

(** A line that does not end with a carriage return, then a line feed. *)
Lemma splitEol_app_LF l s :
  noLF l -> endsWithCR l = false ->
  splitEol (l ++ LF :: s) = l :: splitEol s.
Proof.
  induction l as [|c l IH]; intros Hl Hcr; [reflexivity|].
  apply not_elem_of_cons in Hl as [Hc Hl].
  rewrite <- app_comm_cons. cbn [splitEol].
  destruct (N.eqb_spec c LF) as [|_]; [congruence|].
  destruct l as [|d l].
  - cbn [app]. rewrite N.eqb_refl, andb_true_r.
    unfold endsWithCR in Hcr. cbn in Hcr. rewrite Hcr.
    change (splitEol (LF :: s)) with ([] :: splitEol s). reflexivity.
  - rewrite <- app_comm_cons.
    pose proof Hl as Hl'. apply not_elem_of_cons in Hl' as [Hd _].
    destruct (N.eqb_spec d LF) as [|_]; [congruence|]. rewrite andb_false_r.
    rewrite app_comm_cons, IH; [reflexivity|exact Hl|].
    rewrite <- Hcr. symmetry. apply endsWithCR_cons.
Qed.

(** Any line, then a CRLF. *)
Lemma splitEol_app_CRLF l s :
  noLF l -> splitEol (l ++ CR :: LF :: s) = l :: splitEol s.
Proof.
  induction l as [|c l IH]; intros Hl; [reflexivity|].
  apply not_elem_of_cons in Hl as [Hc Hl].
  rewrite <- app_comm_cons. cbn [splitEol].
  destruct (N.eqb_spec c LF) as [|_]; [congruence|].
  destruct l as [|d l].
  - cbn [app]. change (N.eqb CR LF) with false. rewrite andb_false_r.
    change (splitEol (CR :: LF :: s)) with ([] :: splitEol s). reflexivity.
  - rewrite <- app_comm_cons.
    pose proof Hl as Hl'. apply not_elem_of_cons in Hl' as [Hd _].
    destruct (N.eqb_spec d LF) as [|_]; [congruence|]. rewrite andb_false_r.
    rewrite app_comm_cons, IH; [reflexivity|exact Hl].
Qed.

(** Lines joined by line feeds are found again by the split, when no line
    but the last ends with a carriage return. *)
Lemma splitEol_join_LF ls :
  Forall noLF ls -> ls <> [] -> lfJoinable ls = true ->
  splitEol (join [LF] ls) = ls.
Proof.
  induction 1 as [|l ls Hl Hls IH]; intros Hne Hj; [congruence|].
  destruct ls as [|l' ls].
  - apply splitEol_line, Hl.
  - cbn [lfJoinable] in Hj. apply andb_true_iff in Hj as [Hcr Hj].
    apply negb_true_iff in Hcr.
    rewrite join_cons by discriminate. cbn [app].
    rewrite (splitEol_app_LF l _ Hl Hcr). f_equal. apply IH; [discriminate|exact Hj].
Qed.

Lemma splitEol_join_CRLF ls :
  Forall noLF ls -> ls <> [] -> splitEol (join CRLF ls) = ls.
Proof.
  induction 1 as [|l ls Hl Hls IH]; intros Hne; [congruence|].
  destruct ls as [|l' ls].
  - apply splitEol_line, Hl.
  - rewrite join_cons by discriminate. cbn [app CRLF].
    rewrite (splitEol_app_CRLF l _ Hl). f_equal. apply IH. discriminate.
Qed.

Lemma hasCRLF_app_LF l s :
  noLF l -> endsWithCR l = false -> hasCRLF (l ++ LF :: s) = hasCRLF s.
Proof.
  induction l as [|c l IH]; intros Hl Hcr.
  - cbn [app]. destruct s as [|d s]; [reflexivity|].
    rewrite hasCRLF_unfold. reflexivity.
  - apply not_elem_of_cons in Hl as [Hc Hl]. rewrite <- app_comm_cons.
    destruct l as [|d l].
    + cbn [app]. rewrite hasCRLF_unfold.
      unfold endsWithCR in Hcr. cbn in Hcr. rewrite Hcr. cbn [andb orb].
      destruct s as [|d s]; [reflexivity|]. rewrite hasCRLF_unfold. reflexivity.
    + rewrite <- app_comm_cons, hasCRLF_unfold. rewrite app_comm_cons, IH.
      * pose proof Hl as Hl'. apply not_elem_of_cons in Hl' as [Hd _].
        destruct (N.eqb_spec d LF) as [|_]; [congruence|].
        rewrite andb_false_r. reflexivity.
      * exact Hl.
      * rewrite <- Hcr. symmetry. apply endsWithCR_cons.
Qed.

Lemma hasCRLF_join_LF ls :
  Forall noLF ls -> lfJoinable ls = true -> hasCRLF (join [LF] ls) = false.
Proof.
  induction 1 as [|l ls Hl Hls IH]; intros Hj; [reflexivity|].
  destruct ls as [|l' ls].
  - apply noLF_hasCRLF, Hl.
  - cbn [lfJoinable] in Hj. apply andb_true_iff in Hj as [Hcr Hj].
    apply negb_true_iff in Hcr.
    rewrite join_cons by discriminate. cbn [app].
    rewrite (hasCRLF_app_LF l _ Hl Hcr). apply IH, Hj.
Qed.

Lemma hasCRLF_join_CRLF ls :
  (2 <= length ls)%nat -> hasCRLF (join CRLF ls) = true.
Proof.
  intros Hlen. destruct ls as [|l [|l' ls]]; cbn [length] in Hlen; try lia.
  rewrite join_cons by discriminate.
  rewrite <- includes_CRLF. apply includes_app.
Qed.


Lemma splitLF_empty_head s p ps : splitLF s = [] :: p :: ps -> exists s', s = LF :: s'.
Proof.
  destruct s as [|c s]; [discriminate|]. cbn [splitLF].
  destruct (N.eqb_spec c LF) as [->|_]; [eauto|].
  destruct (splitLF s); discriminate.
Qed.

Lemma lfJoinable_splitLF s : hasCRLF s = false -> lfJoinable (splitLF s) = true.
Proof.
  induction s as [|c s IH]; intros H; [reflexivity|].
  pose proof (IH (hasCRLF_cons c s H)) as Hj. cbn [splitLF].
  destruct (N.eqb c LF).
  - pose proof (splitLF_nonempty s). destruct (splitLF s); [contradiction|exact Hj].
  - destruct (splitLF s) as [|l [|p ps]] eqn:E; [reflexivity|reflexivity|].
    cbn [consHead lfJoinable]. cbn [lfJoinable] in Hj.
    apply andb_true_iff in Hj as [Hcr Hj]. rewrite Hj, andb_true_r.
    destruct l as [|d l]; [|exact Hcr].
    destruct (splitLF_empty_head s p ps E) as [s' ->].
    rewrite hasCRLF_unfold in H. apply orb_false_iff in H as [H _].
    rewrite N.eqb_refl, andb_true_r in H.
    unfold endsWithCR. cbn. rewrite H. reflexivity.
Qed.

Lemma consHead_length c ls : ls <> [] -> length (consHead c ls) = length ls.
Proof. destruct ls; [congruence|reflexivity]. Qed.

Lemma hasCRLF_lines s : hasCRLF s = true -> (2 <= length (splitEol s))%nat.
Proof.
  induction s as [|c s IH]; intros H; [discriminate|].
  cbn [splitEol]. pose proof (splitEol_nonempty s) as Hne.
  destruct (N.eqb c LF).
  - destruct (splitEol s); [contradiction|cbn [length]; lia].
  - destruct s as [|d s]; [discriminate|].
    rewrite hasCRLF_unfold in H.
    destruct (N.eqb c CR && N.eqb d LF).
    + pose proof (splitEol_nonempty s). destruct (splitEol s); [contradiction|].
      cbn [length]. lia.
    + rewrite consHead_length by exact Hne. apply IH, H.
Qed.

Lemma lfJoinable_insert ls (i : nat) (v : jsstring) :
  lfJoinable ls = true -> endsWithCR v = false ->
  lfJoinable (<[i:=v]> ls) = true.
Proof.
  revert i. induction ls as [|l ls IH]; intros i Hj Hv; [reflexivity|].
  destruct ls as [|l' ls].
  - destruct i; reflexivity.
  - cbn [lfJoinable] in Hj. apply andb_true_iff in Hj as [Hcr Hj].
    destruct i as [|i].
    + cbn [insert list_insert lfJoinable]. rewrite Hv, Hj. reflexivity.
    + specialize (IH i Hj Hv).
      change (<[S i:=v]> (l :: l' :: ls)) with (l :: <[i:=v]> (l' :: ls)).
      destruct (<[i:=v]> (l' :: ls)) as [|x xs] eqn:E.
      * apply (f_equal length) in E. rewrite length_insert in E. discriminate.
      * cbn [lfJoinable]. rewrite Hcr. exact IH.
Qed.

(** The lines of the two splits differ by a carriage return at most. *)
Lemma split_related_bounded (n : nat) :
  forall s, (length s <= n)%nat ->
    Forall2 (fun a b => a = b \/ a = b ++ [CR]) (splitLF s) (splitEol s).
Proof.
  induction n as [|n IH]; intros s Hlen.
  - destruct s; [|cbn in Hlen; lia]. repeat constructor.
  - destruct s as [|c s]; [repeat constructor|]. cbn [length] in Hlen.
    cbn [splitLF splitEol]. destruct (N.eqb_spec c LF) as [->|Hc].
    + constructor; [left; reflexivity|]. apply IH. lia.
    + destruct s as [|d s]; [repeat constructor|].
      destruct (N.eqb_spec c CR) as [->|Hcr]; cbn [andb].
      * destruct (N.eqb_spec d LF) as [->|Hd].
        -- change (splitLF (LF :: s)) with ([] :: splitLF s). cbn [consHead].
           constructor; [right; reflexivity|]. apply IH. cbn [length] in Hlen. lia.
        -- specialize (IH (d :: s) ltac:(lia)).
           destruct IH as [|a b as' bs' Hab Hrest]; [repeat constructor|].
           cbn [consHead]. constructor; [|exact Hrest].
           destruct Hab as [->| ->]; [left|right]; reflexivity.
      * specialize (IH (d :: s) ltac:(lia)).
        destruct IH as [|a b as' bs' Hab Hrest]; [repeat constructor|].
        cbn [consHead]. constructor; [|exact Hrest].
        destruct Hab as [->| ->]; [left|right]; reflexivity.
Qed.

Lemma split_related s :
  Forall2 (fun a b => a = b \/ a = b ++ [CR]) (splitLF s) (splitEol s).
Proof. apply (split_related_bounded (length s)). lia. Qed.

(** Every line of the split occurs in the text. *)
Lemma splitEol_infix s : Forall (infixOf s) (splitEol s).
Proof.
  pose proof (split_related s) as R. pose proof (splitLF_infix s) as I.
  induction R as [|a b as' bs' Hab _ IH]; [constructor|].
  inversion I as [|? ? Ha Has]; subst. constructor; [|apply IH, Has].
  destruct Hab as [->| ->]; [exact Ha|].
  destruct Ha as (pre & post & ->). exists pre, ([CR] ++ post).
  rewrite <- !app_assoc. reflexivity.
Qed.

Lemma startsWith_snoc l (x : N) pat :
  startsWith (l ++ [x]) pat = true -> startsWith l pat = true \/ x ∈ pat.
Proof.
  revert l. induction pat as [|p pat IH]; intros l H; [left; reflexivity|].
  destruct l as [|c l].
  - cbn in H. apply andb_true_iff in H as [H _]. apply N.eqb_eq in H. subst.
    right. apply elem_of_cons. left. reflexivity.
  - cbn in H. apply andb_true_iff in H as [Hc H].
    destruct (IH l H) as [Hl|Hx].
    + left. cbn. rewrite Hc, Hl. reflexivity.
    + right. apply elem_of_cons. right. exact Hx.
Qed.

Lemma includes_snoc l (x : N) pat :
  x ∉ pat -> pat <> [] -> includes (l ++ [x]) pat = includes l pat.
Proof.
  intros Hx Hne. destruct (includes l pat) eqn:E.
  - apply (includes_infix [] l [x]) in E. exact E.
  - induction l as [|c l IH].
    + cbn [app]. rewrite includes_unfold, E, orb_false_r.
      destruct (startsWith [x] pat) eqn:S; [|reflexivity].
      destruct (startsWith_snoc [] x pat S) as [H|H]; [|contradiction].
      rewrite (includes_startsWith _ _ H) in E. discriminate.
    + rewrite includes_unfold in E. apply orb_false_iff in E as [Est E].
      cbn [app]. rewrite includes_unfold, (IH E), orb_false_r.
      destruct (startsWith (c :: l ++ [x]) pat) eqn:S; [|reflexivity].
      destruct (startsWith_snoc (c :: l) x pat S) as [H|H]; [congruence|contradiction].
Qed.

Lemma CR_not_in_marker : CR ∉ BOOKMARK_MARKER.
Proof.
  intros H. apply list_elem_of_In in H. vm_compute in H. intuition discriminate.
Qed.

Lemma findFrom_first (lines : list jsstring) (i : Z) (k : nat) (l : jsstring) :
  lines !! k = Some l -> includes l BOOKMARK_MARKER = true ->
  (forall j l', (j < k)%nat -> lines !! j = Some l' ->
                includes l' BOOKMARK_MARKER = false) ->
  BookmarkManager.findFrom i lines
  = {| hasBookmark := true; lineNumber := Some (i + Z.of_nat k) |}.
Proof.
  revert i k. induction lines as [|x lines IH]; intros i k Hk Hl Hmin; [discriminate|].
  cbn [BookmarkManager.findFrom]. destruct k as [|k].
  - injection Hk as ->. rewrite Hl. do 2 f_equal. lia.
  - rewrite (Hmin 0%nat x ltac:(lia) eq_refl).
    rewrite (IH (i + 1) k Hk Hl).
    + do 2 f_equal. lia.
    + intros j l' Hj Hl'. apply (Hmin (S j) l'); [lia|exact Hl'].
Qed.

(** [findBookmark] as modelled reports the first marker line of the lines
    the callbacks work on. *)
Lemma findBookmark_first : findsFirstMarkerLine BookmarkManager.findBookmark.
Proof.
  intros content k l Hk Hl Hmin.
  apply lineAt_Some in Hk as [Hk0 Hk].
  pose proof (split_related content) as R.
  assert (Hinc : forall a b, a = b \/ a = b ++ [CR] ->
                 includes a BOOKMARK_MARKER = includes b BOOKMARK_MARKER).
  { intros a b [->| ->]; [reflexivity|].
    apply includes_snoc; [apply CR_not_in_marker|discriminate]. }
  destruct (Forall2_lookup_r _ _ _ _ _ R Hk) as (a & Ha & Hab).
  unfold BookmarkManager.findBookmark.
  rewrite (findFrom_first (splitLF content) 0 (Z.to_nat k) a Ha).
  - do 2 f_equal. lia.
  - rewrite (Hinc a l Hab). exact Hl.
  - intros j a' Hj Ha'.
    destruct (Forall2_lookup_l _ _ _ _ _ R Ha') as (b' & Hb' & Hab').
    rewrite (Hinc a' b' Hab'). apply (Hmin (Z.of_nat j)); [lia|].
    apply lineAt_Some. split; [lia|]. rewrite Nat2Z.id. exact Hb'.
Qed.


Lemma endsWithCR_marked l : endsWithCR (l ++ js " " ++ BOOKMARK_MARKER) = false.
Proof.
  unfold endsWithCR. rewrite last_app.
  change (last (js " " ++ BOOKMARK_MARKER)) with (Some 62%N). reflexivity.
Qed.

(** Lines that stand where the lines of a text stood, joined by the
    ending of that text, make a text that splits into these lines and has
    the same ending. *)
Lemma rewritten_lines (content : jsstring) (lines' : list jsstring) :
  length lines' = length (splitEol content) ->
  Forall noLF lines' ->
  (hasCRLF content = false -> lfJoinable lines' = true) ->
  splitEol (join (detectEol content) lines') = lines'
  /\ detectEol (join (detectEol content) lines') = detectEol content.
Proof.
  intros Hlen HF Hj.
  assert (Hne : lines' <> []).
  { intros ->. pose proof (splitEol_nonempty content).
    destruct (splitEol content); [contradiction|discriminate]. }
  rewrite (detectEol_hasCRLF content). destruct (hasCRLF content) eqn:E.
  - split; [apply splitEol_join_CRLF; assumption|].
    rewrite detectEol_hasCRLF, hasCRLF_join_CRLF; [reflexivity|].
    rewrite Hlen. apply hasCRLF_lines, E.
  - specialize (Hj eq_refl). split; [apply splitEol_join_LF; assumption|].
    rewrite detectEol_hasCRLF, hasCRLF_join_LF; [reflexivity|assumption|assumption].
Qed.

Lemma lfJoinable_splitEol (content : jsstring) :
  hasCRLF content = false -> lfJoinable (splitEol content) = true.
Proof.
  intros H. rewrite (splitEol_splitLF content H). apply lfJoinable_splitLF, H.
Qed.

(** The text after an insertion at an integer line. *)
Lemma previewInsert_lines (visibleLine : Z) (content : jsstring) :
  exists marked l,
    let target := insertTarget (splitEol content) visibleLine in
    previewInsert visibleLine content = Some marked
    /\ lineAt (splitEol content) target = Some l
    /\ splitEol marked
       = (if includes l BOOKMARK_MARKER then splitEol content
          else setLine (splitEol content) target (l ++ js " " ++ BOOKMARK_MARKER))
    /\ detectEol marked = detectEol content
    /\ includes marked BOOKMARK_MARKER = true.
Proof.
  pose proof (splitEol_nonempty content) as Hne.
  pose proof (splitEol_noLF content) as HF.
  destruct (lineAt_in_range _ _ (insertTarget_range _ visibleLine Hne)) as [l Hl].
  set (target := insertTarget (splitEol content) visibleLine) in *.
  set (lines' := if includes l BOOKMARK_MARKER then splitEol content
                 else setLine (splitEol content) target (l ++ js " " ++ BOOKMARK_MARKER)).
  assert (Hins : previewInsert visibleLine content
                 = Some (join (detectEol content) lines')).
  { unfold previewInsert, insertMarkerAt. fold target. rewrite Hl. bind_step.
    unfold lines'. destruct (includes l BOOKMARK_MARKER); reflexivity. }
  assert (Hrw : splitEol (join (detectEol content) lines') = lines'
                /\ detectEol (join (detectEol content) lines') = detectEol content).
  { apply rewritten_lines; unfold lines'; destruct (includes l BOOKMARK_MARKER).
    - reflexivity.
    - apply setLine_length.
    - exact HF.
    - apply setLine_noLF; [exact HF|].
      apply noLF_app; [eapply noLF_lineAt; eassumption|apply noLF_marker].
    - apply lfJoinable_splitEol.
    - intros E. apply lfJoinable_insert;
        [apply lfJoinable_splitEol, E|apply endsWithCR_marked]. }
  destruct Hrw as [Hsplit Heol].
  exists (join (detectEol content) lines'), l. cbv zeta. fold target.
  split; [exact Hins|]. split; [exact Hl|]. split; [exact Hsplit|]. split; [exact Heol|].
  (* the marker is in the target line, which is in the text *)
  assert (Hline : exists l', lineAt lines' target = Some l'
                             /\ includes l' BOOKMARK_MARKER = true).
  { unfold lines'. destruct (includes l BOOKMARK_MARKER) eqn:Hinc.
    - exists l. auto.
    - exists (l ++ js " " ++ BOOKMARK_MARKER). split.
      + eapply lineAt_setLine_eq, Hl.
      + change (js " " ++ BOOKMARK_MARKER) with (js " " ++ BOOKMARK_MARKER ++ []).
        rewrite (app_assoc l). apply includes_app. }
  destruct Hline as (l' & Hl' & Hinc').
  apply lineAt_Some in Hl' as [_ Hl'].
  pose proof (splitEol_infix (join (detectEol content) lines')) as Hinf.
  rewrite Hsplit in Hinf.
  destruct (Forall_lookup_1 _ _ _ _ Hinf Hl') as (pre & post & ->).
  apply includes_infix, Hinc'.
Qed.

Lemma lineAtNumber_int (lines : list jsstring) (z : Z) :
  lineAtNumber lines (Num.int z) = lineAt lines z.
Proof.
  unfold lineAtNumber, Num.int. rewrite Qfloor_Z.
  rewrite (proj2 (Qeq_bool_iff _ _) (Qeq_refl _)). reflexivity.
Qed.

Lemma setLineNumber_int (lines : list jsstring) (z : Z) (v : jsstring) :
  setLineNumber lines (Num.int z) v = setLine lines z v.
Proof.
  unfold setLineNumber, Num.int. rewrite Qfloor_Z.
  rewrite (proj2 (Qeq_bool_iff _ _) (Qeq_refl _)). reflexivity.
Qed.

(** On an integer the callback is [previewInsert]. *)
Lemma previewInsertAt_int (visibleLine : Z) (content : jsstring) :
  previewInsertAt (Num.int visibleLine) content = previewInsert visibleLine content.
Proof.
  unfold previewInsertAt, previewInsert, insertMarkerAt, insertTarget. cbv zeta.
  set (lines := splitEol content). set (last := Z.of_nat (length lines) - 1).
  set (fe := frontmatterEndIndex lines).
  rewrite !min_int, leb_int.
  destruct (negb (fe =? -1) && (Z.min visibleLine last <=? fe));
    rewrite !min_int, max_int, lineAtNumber_int;
    (destruct (lineAt lines _) as [l|]; bind_step; [|reflexivity]);
    rewrite setLineNumber_int; destruct (includes l BOOKMARK_MARKER); reflexivity.
Qed.

(** On NaN every comparison fails, [Math.min] and [Math.max] give NaN,
    and no line is read. *)
Lemma previewInsertAt_NaN (content : jsstring) :
  previewInsertAt Num.NaN content = None.
Proof.
  unfold previewInsertAt. cbv zeta.
  destruct (negb (frontmatterEndIndex (splitEol content) =? -1)); reflexivity.
Qed.

(** X5 - For every integer line the insertion returns a text; it splits
    into the lines of the text before it, the target line apart, and has
    the same line ending: the count of lines and the convention survive,
    and only the target line differs.  For a line that is NaN the
    insertion throws. *)
Theorem previewInsert_keeps_lines (content : jsstring) :
  previewInsertAt Num.NaN content = None
  /\ forall visibleLine : Z,
       exists marked l,
         let target := insertTarget (splitEol content) visibleLine in
         previewInsertAt (Num.int visibleLine) content = Some marked
         /\ lineAt (splitEol content) target = Some l
         /\ splitEol marked
            = (if includes l BOOKMARK_MARKER then splitEol content
               else setLine (splitEol content) target (l ++ js " " ++ BOOKMARK_MARKER))
         /\ detectEol marked = detectEol content
         /\ includes marked BOOKMARK_MARKER = true.
Proof.
  split; [apply previewInsertAt_NaN|].
  intros visibleLine. rewrite previewInsertAt_int. apply previewInsert_lines.
Qed.

End Rewriting.

Section RoundTrip.

Variable findBookmark : jsstring -> BookmarkState.
Hypothesis findBookmark_first_line : findsFirstMarkerLine findBookmark.

(** X6 - Round trip in preview mode.  Setting a bookmark in a text without
    a marker and removing it again gives the lines of the text joined by
    its line ending: the text itself when its line breaks are all LF or
    all CRLF. *)
Theorem preview_round_trip (visibleLine : Z) (content : jsstring) :
  includes content BOOKMARK_MARKER = false ->
  exists marked,
    previewInsert visibleLine content = Some marked
    /\ previewRemove findBookmark marked
       = join (detectEol content) (splitEol content)
    /\ (hasCRLF content = false \/ pureCrlf false content = true ->
        previewRemove findBookmark marked = content).
Proof.
  intros Hclean.
  destruct (previewInsert_lines visibleLine content)
    as (marked & l & Hins & Hl & Hsplit & Heol & Hinc).
  cbv zeta in *. set (target := insertTarget (splitEol content) visibleLine) in *.
  assert (Hlines : Forall (fun p => includes p BOOKMARK_MARKER = false)
                     (splitEol content)).
  { eapply Forall_impl; [apply splitEol_infix|].
    intros p Hp. cbn. eapply includes_infixOf; eassumption. }
  assert (Hlc : includes l BOOKMARK_MARKER = false).
  { apply lineAt_Some in Hl as [_ Hl]. exact (Forall_lookup_1 _ _ _ _ Hlines Hl). }
  rewrite Hlc in Hsplit.
  pose proof (lineAt_lt _ _ _ Hl) as Hrange.
  assert (Hmarked : lineAt (splitEol marked) target
                    = Some (l ++ js " " ++ BOOKMARK_MARKER)).
  { rewrite Hsplit. eapply lineAt_setLine_eq, Hl. }
  assert (Hfind : findBookmark marked
                  = {| hasBookmark := true; lineNumber := Some target |}).
  { apply (findBookmark_first_line marked target _ Hmarked).
    - change (js " " ++ BOOKMARK_MARKER) with (js " " ++ BOOKMARK_MARKER ++ []).
      rewrite (app_assoc l). apply includes_app.
    - intros j l' Hj Hl'. rewrite Hsplit in Hl'.
      rewrite lineAt_setLine_ne in Hl' by lia.
      apply lineAt_Some in Hl' as [_ Hl']. exact (Forall_lookup_1 _ _ _ _ Hlines Hl'). }
  assert (Hrem : previewRemove findBookmark marked
                 = join (detectEol content) (splitEol content)).
  { unfold previewRemove. rewrite Hfind. cbn [hasBookmark lineNumber].
    rewrite Hmarked, Heol.
    destruct (cutMarker_marked l Hlc) as [Hidx Hcut]. cbv zeta in Hidx, Hcut.
    rewrite Hcut, Hidx.
    replace (Z.of_nat (length l) + 1 =? -1) with false
      by (symmetry; apply Z.eqb_neq; lia).
    cbn [negb]. rewrite Hsplit. unfold setLine.
    rewrite list_insert_insert_eq, list_insert_id; [reflexivity|].
    apply lineAt_Some in Hl as [_ Hl]. exact Hl. }
  exists marked. split; [exact Hins|]. split; [exact Hrem|].
  intros Huni. rewrite Hrem. apply join_splitEol_uniform, Huni.
Qed.

End RoundTrip.

Lemma preview_round_trip_witness :
  exists marked,
    previewInsert 1 (js "one
two
three") = Some marked
    /\ previewRemove BookmarkManager.findBookmark marked
       = join (detectEol (js "one
two
three")) (splitEol (js "one
two
three"))
    /\ (hasCRLF (js "one
two
three") = false \/ pureCrlf false (js "one
two
three") = true ->
        previewRemove BookmarkManager.findBookmark marked = js "one
two
three").
Proof.
  apply (preview_round_trip BookmarkManager.findBookmark findBookmark_first 1).
  reflexivity.
Defined.

(** ** The target of the insertion, once more *)

Section InsertionTarget.

Implicit Types lines : list jsstring.

(** X7 - The marker stays out of a closed header.  When the document opens
    with ['---'] and the header closes before the last line, the target
    lies after the closing line for every visible line.  When the closing
    line is the last line of the document, a candidate inside the header
    is sent to that closing line itself. *)
Theorem header_never_marked lines (closing : Z) :
  lines !! 0%nat = Some DELIMITER ->
  1 <= closing ->
  lineAt lines closing = Some DELIMITER ->
  (forall j, 1 <= j < closing -> lineAt lines j <> Some DELIMITER) ->
  (closing + 1 < Z.of_nat (length lines) ->
   forall v, closing < insertTarget lines v < Z.of_nat (length lines))
  /\ (closing + 1 = Z.of_nat (length lines) ->
      forall v, v <= closing -> insertTarget lines v = closing).
Proof.
  intros H0 H1 Hc Hmin. pose proof (lineAt_lt _ _ _ Hc) as Hlt.
  pose proof (frontmatterEndIndex_closing lines closing H0 H1 Hc Hmin) as Hfm.
  split; intros Hlast v; [|intros Hv]; unfold insertTarget; rewrite Hfm;
    replace (closing =? -1) with false by (symmetry; apply Z.eqb_neq; lia);
    cbn [negb andb];
    destruct (Z.leb_spec (Z.min v (Z.of_nat (length lines) - 1)) closing); lia.
Qed.

Lemma header_never_marked_witness :
  2 < insertTarget headerDoc 1 < Z.of_nat (length headerDoc).
Proof.
  apply (proj1 (header_never_marked headerDoc 2 eq_refl ltac:(lia) eq_refl
                  ltac:(intros j Hj; assert (j = 1) as -> by lia;
                        vm_compute; discriminate))).
  vm_compute. reflexivity.
Defined.

Lemma findClosing_none (rest : list jsstring) (i : Z) :
  (forall l, l ∈ rest -> l <> DELIMITER) -> findClosing i rest = -1.
Proof.
  revert i. induction rest as [|l rest IH]; intros i H; [reflexivity|].
  cbn [findClosing]. rewrite bool_decide_eq_false_2.
  - apply IH. intros l' Hl'. apply H. apply elem_of_cons. right. exact Hl'.
  - apply H. apply elem_of_cons. left. reflexivity.
Qed.

Lemma findClosing_range (rest : list jsstring) (i : Z) :
  findClosing i rest = -1
  \/ i <= findClosing i rest < i + Z.of_nat (length rest).
Proof.
  revert i. induction rest as [|l rest IH]; intros i; [left; reflexivity|].
  cbn [findClosing length]. destruct (bool_decide (l = DELIMITER)); [right; lia|].
  destruct (IH (i + 1)) as [H|H]; [left; exact H|right; lia].
Qed.

Lemma frontmatterEndIndex_range lines :
  frontmatterEndIndex lines = -1
  \/ 1 <= frontmatterEndIndex lines < Z.of_nat (length lines).
Proof.
  destruct lines as [|first rest]; [left; reflexivity|].
  cbn [frontmatterEndIndex length].
  destruct (bool_decide (first = DELIMITER)); [|left; reflexivity].
  destruct (findClosing_range rest 1) as [H|H]; [left; exact H|right; lia].
Qed.

(** X8 - No header, no relocation.  When the first line is not ['---'], or
    no later line is, the target is the visible line clamped to the lines
    of the document: an unclosed header is not protected. *)
Theorem unclosed_header_only_clamps lines (v : Z) :
  lines !! 0%nat <> Some DELIMITER
  \/ (forall l, l ∈ tail lines -> l <> DELIMITER) ->
  insertTarget lines v = Z.max 0 (Z.min v (Z.of_nat (length lines) - 1)).
Proof.
  intros H.
  assert (Hfm : frontmatterEndIndex lines = -1).
  { destruct lines as [|first rest]; [reflexivity|]. cbn [frontmatterEndIndex].
    destruct (bool_decide_reflect (first = DELIMITER)) as [->|_]; [|reflexivity].
    destruct H as [H|H]; [contradiction H; reflexivity|].
    apply findClosing_none, H. }
  unfold insertTarget. rewrite Hfm. change (-1 =? -1) with true.
  cbn [negb andb]. lia.
Qed.

Lemma unclosed_header_only_clamps_witness :
  insertTarget [js "---"; js "title: x"; js "body"] 0
  = Z.max 0 (Z.min 0 (Z.of_nat (length [js "---"; js "title: x"; js "body"]) - 1)).
Proof.
  apply unclosed_header_only_clamps. right. intros l Hl.
  apply list_elem_of_In in Hl. cbn in Hl.
  destruct Hl as [<-|[<-|[]]]; vm_compute; discriminate.
Defined.

Lemma findClosing_insert (rest : list jsstring) (i : Z) (t : nat) (x : jsstring) :
  x <> DELIMITER -> 0 <= i ->
  findClosing i rest = -1 \/ findClosing i rest - i < Z.of_nat t ->
  findClosing i (<[t:=x]> rest) = findClosing i rest.
Proof.
  intros Hx. revert i t. induction rest as [|l rest IH]; intros i t Hi H; [reflexivity|].
  destruct t as [|t].
  - cbn [insert list_insert findClosing] in *.
    rewrite (bool_decide_eq_false_2 _ Hx).
    destruct (bool_decide (l = DELIMITER)); [lia|reflexivity].
  - change (<[S t:=x]> (l :: rest)) with (l :: <[t:=x]> rest).
    cbn [findClosing] in *.
    destruct (bool_decide (l = DELIMITER)); [reflexivity|].
    apply IH; lia.
Qed.

(** Writing a line that is not ['---'] below the header leaves the end of
    the header where it is. *)
Lemma frontmatterEndIndex_setLine lines (t : Z) (x : jsstring) :
  x <> DELIMITER -> 0 <= t ->
  frontmatterEndIndex lines = -1 \/ frontmatterEndIndex lines < t ->
  frontmatterEndIndex (setLine lines t x) = frontmatterEndIndex lines.
Proof.
  intros Hx Ht H. unfold setLine.
  destruct lines as [|first rest]; [reflexivity|].
  destruct (Z.to_nat t) as [|t'] eqn:Et.
  - cbn [insert list_insert frontmatterEndIndex] in *.
    rewrite (bool_decide_eq_false_2 _ Hx).
    destruct (bool_decide (first = DELIMITER)); [|reflexivity].
    destruct (findClosing_range rest 1) as [->|Hr]; [reflexivity|]. lia.
  - change (<[S t':=x]> (first :: rest)) with (first :: <[t':=x]> rest).
    cbn [frontmatterEndIndex] in *.
    destruct (bool_decide (first = DELIMITER)); [|reflexivity].
    apply findClosing_insert; [exact Hx|lia|]. lia.
Qed.

Lemma marked_not_delimiter (l : jsstring) : l ++ js " " ++ BOOKMARK_MARKER <> DELIMITER.
Proof.
  intros H. apply (f_equal length) in H. rewrite length_app in H.
  cbn in H. lia.
Qed.

(** What the insertion callback returns. *)
Lemma previewInsert_eq (visibleLine : Z) (content : jsstring) (l : jsstring) :
  lineAt (splitEol content) (insertTarget (splitEol content) visibleLine) = Some l ->
  previewInsert visibleLine content
  = Some (join (detectEol content)
            (if includes l BOOKMARK_MARKER then splitEol content
             else setLine (splitEol content)
                    (insertTarget (splitEol content) visibleLine)
                    (l ++ js " " ++ BOOKMARK_MARKER))).
Proof.
  intros Hl. unfold previewInsert, insertMarkerAt. rewrite Hl. bind_step.
  destruct (includes l BOOKMARK_MARKER); reflexivity.
Qed.

(** X9 - Insertion is idempotent on the whole text, unless the header
    closes on the last line: the text that an insertion returns is
    returned unchanged by a second insertion for the same visible
    line. *)
Theorem previewInsert_twice (visibleLine : Z) (content marked : jsstring) :
  frontmatterEndIndex (splitEol content)
    <> Z.of_nat (length (splitEol content)) - 1 ->
  previewInsert visibleLine content = Some marked ->
  previewInsert visibleLine marked = Some marked.
Proof.
  intros Hfm Hins.
  destruct (previewInsert_lines visibleLine content)
    as (marked' & l & Hins' & Hl & Hsplit & Heol & _).
  cbv zeta in *. rewrite Hins in Hins'. injection Hins' as <-.
  set (lines := splitEol content) in *.
  set (target := insertTarget lines visibleLine) in *.
  pose proof (lineAt_lt _ _ _ Hl) as Hrange.
  rewrite (previewInsert_eq visibleLine content l Hl) in Hins.
  fold lines target in Hins. pose proof (inj Some _ _ Hins) as Hmarked.
  destruct (includes l BOOKMARK_MARKER) eqn:Hinc.
  - rewrite (previewInsert_eq visibleLine marked l); rewrite Hsplit; fold target;
      [|exact Hl].
    rewrite Hinc, Heol, Hmarked. reflexivity.
  - assert (Htarget : insertTarget (splitEol marked) visibleLine = target).
    { rewrite Hsplit. unfold insertTarget at 1.
      rewrite setLine_length, frontmatterEndIndex_setLine.
      - reflexivity.
      - apply marked_not_delimiter.
      - lia.
      - destruct (frontmatterEndIndex_range lines) as [H|H]; [left; exact H|right].
        unfold target, insertTarget. fold lines.
        replace (frontmatterEndIndex lines =? -1) with false
          by (symmetry; apply Z.eqb_neq; lia).
        cbn [negb andb].
        destruct (Z.leb_spec (Z.min visibleLine (Z.of_nat (length lines) - 1))
                    (frontmatterEndIndex lines)); lia. }
    rewrite (previewInsert_eq visibleLine marked (l ++ js " " ++ BOOKMARK_MARKER)).
    + replace (includes (l ++ js " " ++ BOOKMARK_MARKER) BOOKMARK_MARKER) with true.
      * rewrite Hsplit, Heol, Hmarked. reflexivity.
      * symmetry.
        change (js " " ++ BOOKMARK_MARKER) with (js " " ++ BOOKMARK_MARKER ++ []).
        rewrite (app_assoc l). apply includes_app.
    + rewrite Htarget, Hsplit. eapply lineAt_setLine_eq, Hl.
Qed.

Lemma previewInsert_twice_witness :
  previewInsert 1 (js "one
two <!-- bookmark-marker -->") = Some (js "one
two <!-- bookmark-marker -->").
Proof.
  apply (previewInsert_twice 1 (js "one
two")); [vm_compute; discriminate|reflexivity].
Defined.

(** With the header closing on the last line the marker goes to the
    closing line, the header is no longer recognised, and a second
    insertion writes a second marker. *)
Example previewInsert_twice_header_only :
  (previewInsert 0 (js "---
title: x
---") ≫= previewInsert 0)
  = Some (js "--- <!-- bookmark-marker -->
title: x
--- <!-- bookmark-marker -->").
Proof. reflexivity. Qed.

End InsertionTarget.

(** ** What the removal may touch *)

Section RemovalFootprint.

Lemma take_drop_sublist (a b : nat) (l : jsstring) :
  (a <= b)%nat -> take a l ++ drop b l `sublist_of` l.
Proof.
  intros Hab. rewrite <- (take_drop a l) at 3.
  apply sublist_app; [reflexivity|].
  replace b with (a + (b - a))%nat by lia. rewrite <- drop_drop.
  apply sublist_drop.
Qed.

(** Cutting the marker out only deletes from the line. *)
Lemma cutMarker_sublist (l : jsstring) (i : Z) :
  0 <= i -> cutMarker l i `sublist_of` l.
Proof.
  intros Hi. unfold cutMarker, slice, sliceFrom, sliceIndex.
  change (0 <? 0) with false. cbv iota.
  set (len := Z.of_nat (length l)).
  set (startPos := if (0 <? i) && bool_decide (charAt l (i - 1) = Some SP)
                   then i - 1 else i).
  assert (Hsp : 0 <= startPos <= i).
  { unfold startPos. destruct (Z.ltb_spec 0 i); cbn [andb]; [|lia].
    destruct (bool_decide _); lia. }
  replace (startPos <? 0) with false by (symmetry; apply Z.ltb_ge; lia).
  replace (i + Z.of_nat (length BOOKMARK_MARKER) <? 0) with false
    by (symmetry; apply Z.ltb_ge; lia).
  replace (Z.to_nat (Z.min 0 len)) with 0%nat by lia.
  rewrite drop_0. apply take_drop_sublist. lia.
Qed.

(** X10 - The removal callbacks touch one line at most, the one that
    [findBookmark] reports, and only delete from it, whatever
    [findBookmark] reports: the text comes back as it is, or its lines
    come back joined by its line ending, all of them unchanged but the
    reported one, which has lost some of its code units and gained none. *)
Theorem removal_touches_reported_line
    (findBookmark : jsstring -> BookmarkState) (content : jsstring) :
  touchesReportedLine findBookmark content (previewRemove findBookmark content)
  /\ touchesReportedLine findBookmark content
       (previewRemoveByExpression findBookmark content).
Proof.
  assert (H : forall result,
            result = previewRemove findBookmark content
            \/ result = previewRemoveByExpression findBookmark content ->
            touchesReportedLine findBookmark content result).
  2:{ split; apply H; [left|right]; reflexivity. }
  unfold touchesReportedLine.
  intros result Hres.
  unfold previewRemove, previewRemoveByExpression in Hres.
  destruct (hasBookmark (findBookmark content)); [|left; tauto].
  destruct (lineNumber (findBookmark content)) as [k|] eqn:Hk; [|left; tauto].
  destruct (lineAt (splitEol content) k) as [l|] eqn:Hl; [|left; tauto].
  right. exists k, l.
  assert (Hid : setLine (splitEol content) k l = splitEol content).
  { apply lineAt_Some in Hl as [_ Hl]. apply list_insert_id, Hl. }
  destruct Hres as [->| ->].
  - destruct (indexOf l BOOKMARK_MARKER =? -1) eqn:E; cbn [negb].
    + exists l. rewrite Hid. split; [reflexivity|]. split; [exact Hl|].
      split; reflexivity.
    + exists (cutMarker l (indexOf l BOOKMARK_MARKER)).
      split; [reflexivity|]. split; [exact Hl|]. split; [|reflexivity].
      apply cutMarker_sublist.
      pose proof (indexOfFrom_spec l BOOKMARK_MARKER 0) as S.
      unfold indexOf in *. destruct (includes l BOOKMARK_MARKER).
      * destruct S as (n & -> & _). lia.
      * rewrite S in E. discriminate.
  - exists (replaceBefore l).
    split; [reflexivity|]. split; [exact Hl|]. split; [|reflexivity].
    apply replaceAll_sublist.
Qed.

End RemovalFootprint.

(** ** The files and the buffer *)

Section Footprint.

Variable findBookmark : jsstring -> BookmarkState.
Variable removeBookmark : jsstring -> jsstring.

Lemma vaultProcess_frame (path : string) (fn : jsstring -> jsstring) (w w' : World) :
  vaultProcess path fn w = Some w' ->
  mode w' = mode w /\ file w' = file w /\ buffer w' = buffer w
  /\ icon w' = icon w
  /\ (exists content, vault w !! path = Some content
                      /\ vault w' = <[path := fn content]> (vault w)).
Proof.
  unfold vaultProcess. destruct (vault w !! path) as [content|]; [|discriminate].
  bind_step. intros [= <-]. repeat split. exists content. auto.
Qed.

(** X11 - The deferred removal keeps to its own note.  When it completes,
    the mode and the file of the view are as before and every other file
    of the vault has the text it had; in edit mode no file changes at
    all, in preview mode the buffer does not change.  It fails only in
    preview mode, when the file of the view is gone from the vault. *)
Theorem deferredRemoval_footprint (w : World) :
  (forall w',
     deferredRemoval findBookmark removeBookmark w = Some w' ->
     mode w' = mode w /\ file w' = file w
     /\ (forall path, file w <> Some path -> vault w' !! path = vault w !! path)
     /\ (mode w = source -> vault w' = vault w)
     /\ (mode w = preview -> buffer w' = buffer w))
  /\ (deferredRemoval findBookmark removeBookmark w = None <->
      mode w = preview /\ exists path, file w = Some path /\ vault w !! path = None).
Proof.
  unfold deferredRemoval. destruct (mode w) eqn:Hm; destruct (file w) as [p|] eqn:Hf.
  - rewrite bool_decide_eq_true_2 by reflexivity. cbn [negb]. split.
    + intros w' [= <-]. cbn. repeat split; auto; discriminate.
    + split; [discriminate|]. intros [? _]. discriminate.
  - split.
    + intros w' [= <-]. cbn. repeat split; auto; discriminate.
    + split; [discriminate|]. intros [? _]. discriminate.
  - split.
    + intros w'. destruct (vaultProcess p (previewRemove findBookmark) w) as [w1|] eqn:E;
        [|discriminate].
      bind_step. intros [= <-].
      destruct (vaultProcess_frame _ _ _ _ E) as (H1 & H2 & H3 & H4 & c & Hc & Hv).
      cbn. rewrite H1, H2, H3, Hv. repeat split; auto; try discriminate.
      intros path Hp. apply lookup_insert_ne. congruence.
    + unfold vaultProcess. destruct (vault w !! p) as [c|] eqn:Hc; bind_step.
      * split; [discriminate|]. intros (_ & path & [= <-] & Hn). congruence.
      * split; [|reflexivity]. intros _. split; [reflexivity|]. exists p. auto.
  - split.
    + intros w' [= <-]. repeat split; auto; try discriminate.
    + split; [discriminate|]. intros (_ & path & Hp & _). discriminate.
Qed.

(** X12 - The cleanup command keeps to its own note as well: in edit mode
    it rewrites the buffer with the cleaned text and no file; in preview
    mode it rewrites the file of the view with its cleaned text, no other
    file and not the buffer; without a file it does nothing, not even to
    the icon; it fails only when the file is gone from the vault. *)
Theorem cleanupMultipleBookmarks_footprint (w : World) :
  (mode w = source ->
   cleanupMultipleBookmarks w
   = Some (updateActionIcon (setBuffer w (cleanupContent (buffer w))) "bookmark"))
  /\ (mode w = preview -> file w = None -> cleanupMultipleBookmarks w = Some w)
  /\ (forall path, mode w = preview -> file w = Some path ->
        match vault w !! path with
        | Some content =>
            exists w', cleanupMultipleBookmarks w = Some w'
              /\ vault w' = <[path := cleanupContent content]> (vault w)
              /\ buffer w' = buffer w
              /\ (forall other, other <> path -> vault w' !! other = vault w !! other)
        | None => cleanupMultipleBookmarks w = None
        end).
Proof.
  unfold cleanupMultipleBookmarks. split; [|split].
  - intros ->. reflexivity.
  - intros -> ->. reflexivity.
  - intros path -> ->. unfold vaultProcess.
    destruct (vault w !! path) as [content|]; bind_step; [|reflexivity].
    eexists. split; [reflexivity|]. cbn. repeat split.
    intros other Ho. apply lookup_insert_ne. congruence.
Qed.

End Footprint.

Lemma deferredRemoval_footprint_witness :
  exists w',
    deferredRemoval BookmarkManager.findBookmark BookmarkManager.removeBookmark
      (staleWorld preview) = Some w'
    /\ mode w' = preview
    /\ buffer w' = buffer (staleWorld preview).
Proof.
  pose proof (deferredRemoval_footprint BookmarkManager.findBookmark
                BookmarkManager.removeBookmark (staleWorld preview)) as [H _].
  destruct (deferredRemoval BookmarkManager.findBookmark
              BookmarkManager.removeBookmark (staleWorld preview)) as [w'|] eqn:E.
  - exists w'. destruct (H w' eq_refl) as (Hm & _ & _ & _ & Hb).
    split; [reflexivity|]. split; [exact Hm|apply Hb; reflexivity].
  - vm_compute in E. discriminate.
Defined.

Lemma cleanupMultipleBookmarks_footprint_witness :
  cleanupMultipleBookmarks (staleWorld source)
  = Some (updateActionIcon
            (setBuffer (staleWorld source) (cleanupContent (buffer (staleWorld source))))
            "bookmark").
Proof.
  apply (cleanupMultipleBookmarks_footprint (staleWorld source)). reflexivity.
Defined.

(** ** The estimate as a function of the scroll position *)

Section EstimateOrder.

Lemma clampLine_mono (n a b : Z) : a <= b -> clampLine n a <= clampLine n b.
Proof. unfold clampLine. lia. Qed.

Lemma leb_PosInf (x : Num.number) : x <> Num.NaN -> Num.leb x Num.PosInf = true.
Proof. destruct x; [reflexivity..|congruence]. Qed.

Lemma leb_NegInf (x : Num.number) : x <> Num.NaN -> Num.leb Num.NegInf x = true.
Proof. destruct x; [reflexivity..|congruence]. Qed.

(** Division by a positive integer keeps the order of finite numbers. *)
Lemma div_int_mono (p q : Q) (d : Z) :
  0 < d -> (p <= q)%Q ->
  Num.leb (Num.div (Num.Fin p) (Num.int d)) (Num.div (Num.Fin q) (Num.int d)) = true.
Proof.
  intros Hd Hpq. unfold Num.div, Num.int. rewrite Qeq_bool_inject0.
  destruct (Z.eqb_spec d 0); [lia|]. apply round_mono.
  unfold Qdiv. apply Qmult_le_compat_r; [exact Hpq|].
  apply Qlt_le_weak, Qinv_lt_0_compat.
  change 0%Q with (inject_Z 0). rewrite <- Zlt_Qlt. exact Hd.
Qed.

(** So does multiplication by a positive integer, infinities included. *)
Lemma mul_int_mono (x y : Num.number) (n : Z) :
  0 < n -> Num.leb x y = true ->
  Num.leb (Num.mul x (Num.int n)) (Num.mul y (Num.int n)) = true.
Proof.
  intros Hn Hxy.
  assert (Hx : x <> Num.NaN) by (intros ->; discriminate).
  assert (Hy : y <> Num.NaN) by (intros ->; destruct x; discriminate).
  assert (Pos : Num.mul Num.PosInf (Num.int n) = Num.PosInf).
  { unfold Num.mul, Num.int. rewrite Qeq_bool_inject0, Qle_bool_0_inject.
    destruct (Z.eqb_spec n 0); [lia|]. destruct (Z.leb_spec 0 n); [reflexivity|lia]. }
  assert (Neg : Num.mul Num.NegInf (Num.int n) = Num.NegInf).
  { unfold Num.mul, Num.int. rewrite Qeq_bool_inject0, Qle_bool_0_inject.
    destruct (Z.eqb_spec n 0); [lia|]. destruct (Z.leb_spec 0 n); [reflexivity|lia]. }
  destruct x as [p| | |], y as [q| | |]; try discriminate;
    try (rewrite ?Pos, ?Neg; reflexivity).
  - apply round_mono. apply Qmult_le_compat_r; [apply Qle_bool_iff, Hxy|].
    change 0%Q with (inject_Z 0). rewrite <- Zle_Qle. lia.
  - rewrite Pos. apply leb_PosInf, mul_int_not_NaN; [discriminate|lia].
  - rewrite Neg. apply leb_NegInf, mul_int_not_NaN; [discriminate|lia].
Qed.

Lemma lineOf_mono (n : Z) (x y : Num.number) :
  0 < n -> Num.leb x y = true -> lineOf n x <= lineOf n y.
Proof.
  intros Hn Hxy. destruct x as [p| | |], y as [q| | |]; try discriminate;
    unfold lineOf, clampLine; try lia.
  apply Qle_bool_iff, Qfloor_resp_le in Hxy. lia.
Qed.

(** X13 - Within one unit the estimate follows the scroll position: of two
    readings of at most 100, or of two readings above 100 over the same
    positive content extent, the larger never gives the earlier line; a
    reading of exactly 100 gives the last line.  The line count is one of
    53 bits. *)
Theorem estimate_monotone (s1 s2 : ViewportSample) :
  totalLines s1 = totalLines s2 -> 0 < totalLines s1 -> totalLines s1 <= 2 ^ 53 ->
  (scrollOffset s1 <= scrollOffset s2)%Q ->
  (scrollOffset s2 <= inject_Z 100)%Q
  \/ (inject_Z 100 < scrollOffset s1)%Q
     /\ contentExtent s1 = contentExtent s2 /\ 0 < contentExtent s1 ->
  (exists a b, estimateRendered s1 = Num.int a /\ estimateRendered s2 = Num.int b
               /\ a <= b)
  /\ ((scrollOffset s2 == inject_Z 100)%Q ->
      estimateRendered s2 = Num.int (totalLines s2 - 1)).
Proof.
  intros Hn Hpos Hmax Hle Hunit. unfold estimateRendered, hostOf.
  rewrite !estimate_closed by (try discriminate; lia). cbv zeta.
  rewrite <- Hn.
  change (Num.leb (Num.Fin (scrollOffset s1)) (Num.int 100))
    with (Qle_bool (scrollOffset s1) (inject_Z 100)).
  change (Num.leb (Num.Fin (scrollOffset s2)) (Num.int 100))
    with (Qle_bool (scrollOffset s2) (inject_Z 100)).
  destruct Hunit as [H2|(H1 & Hh & Hhpos)].
  - assert (H1 : (scrollOffset s1 <= inject_Z 100)%Q) by (eapply Qle_trans; eassumption).
    apply Qle_bool_iff in H1, H2. rewrite H1, H2. split.
    + eexists _, _. split; [reflexivity|]. split; [reflexivity|].
      apply lineOf_mono; [exact Hpos|].
      apply mul_int_mono; [exact Hpos|]. apply div_int_mono; [lia|exact Hle].
    + intros Heq. f_equal.
      assert (Hd : Num.div (Num.Fin (scrollOffset s2)) (Num.int 100) = Num.int 1).
      { unfold Num.div, Num.int at 1. change (Qeq_bool (inject_Z 100) 0) with false.
        cbv iota. apply round_int; [|discriminate]. rewrite Heq. reflexivity. }
      rewrite Hd.
      assert (Hm : Num.mul (Num.int 1) (Num.int (totalLines s1))
                   = Num.int (totalLines s1)).
      { unfold Num.mul, Num.int at 1 2. apply round_int; [|lia].
        rewrite <- inject_Z_mult. rewrite Z.mul_1_l. reflexivity. }
      rewrite Hm. unfold lineOf, Num.int. rewrite Qfloor_Z. unfold clampLine. lia.
  - assert (H2 : (inject_Z 100 < scrollOffset s2)%Q) by (eapply Qlt_le_trans; eassumption).
    assert (B1 : Qle_bool (scrollOffset s1) (inject_Z 100) = false).
    { destruct (Qle_bool (scrollOffset s1) (inject_Z 100)) eqn:E; [|reflexivity].
      apply Qle_bool_iff in E. exfalso. exact (Qlt_not_le _ _ H1 E). }
    assert (B2 : Qle_bool (scrollOffset s2) (inject_Z 100) = false).
    { destruct (Qle_bool (scrollOffset s2) (inject_Z 100)) eqn:E; [|reflexivity].
      apply Qle_bool_iff in E. exfalso. exact (Qlt_not_le _ _ H2 E). }
    rewrite B1, B2, <- Hh. split.
    + eexists _, _. split; [reflexivity|]. split; [reflexivity|].
      apply lineOf_mono; [exact Hpos|].
      apply mul_int_mono; [exact Hpos|]. apply div_int_mono; [exact Hhpos|exact Hle].
    + intros Heq. exfalso. rewrite Heq in H2. eapply Qlt_irrefl, H2.
Qed.

Lemma estimate_monotone_witness :
  exists a b, estimateRendered sample_percent = Num.int a
              /\ estimateRendered {| scrollOffset := 100; viewportExtent := 200;
                                     contentExtent := 1000; totalLines := 100 |}
                 = Num.int b
              /\ a <= b.
Proof.
  apply (estimate_monotone sample_percent
           {| scrollOffset := 100; viewportExtent := 200;
              contentExtent := 1000; totalLines := 100 |}).
  - reflexivity.
  - reflexivity.
  - vm_compute. discriminate.
  - vm_compute. discriminate.
  - left. vm_compute. discriminate.
Defined.

(** Across the two units the order is lost: a reading of 100 is the last
    line, a reading of 101 over a content extent of 1000 is line 10. *)
Example estimate_across_units :
  estimateRendered {| scrollOffset := 100; viewportExtent := 200;
                      contentExtent := 1000; totalLines := 100 |} = Num.int 99
  /\ estimateRendered {| scrollOffset := 101; viewportExtent := 200;
                         contentExtent := 1000; totalLines := 100 |} = Num.int 10.
Proof. split; vm_compute; reflexivity. Qed.

End EstimateOrder.

(** ** The decoration set handed to the editor *)

Section DecorationOrder.

Implicit Types doc : list jsstring.

Lemma markerDecorations_bounds (from : Z) (l : jsstring) (d : Decoration) :
  d ∈ markerDecorations from l ->
  from <= decorationFrom d /\ decorationFrom d <= decorationTo d
  /\ decorationTo d <= from + Z.of_nat (length l).
Proof.
  unfold markerDecorations. destruct (includes l BOOKMARK_MARKER) eqn:Hinc.
  - destruct (indexOf_found l Hinc) as (k & -> & Hk & _).
    intros H. apply elem_of_cons in H as [->|H].
    + cbn [decorationFrom decorationTo]. lia.
    + apply elem_of_cons in H as [->|H].
      * cbn [decorationFrom decorationTo]. lia.
      * apply elem_of_nil in H. destruct H.
  - intros H. apply elem_of_nil in H. destruct H.
Qed.

Lemma docToString_length (l : jsstring) doc :
  doc <> [] ->
  length (docToString (l :: doc)) = (length l + 1 + length (docToString doc))%nat.
Proof.
  intros Hne. unfold docToString. rewrite (join_cons _ _ _ Hne).
  rewrite !length_app. cbn [length]. lia.
Qed.

Lemma expected_from_ge (from : Z) doc (d : Decoration) :
  d ∈ expectedDecorations from doc -> from <= decorationFrom d.
Proof.
  revert from. induction doc as [|l doc IH]; intros from H.
  - apply elem_of_nil in H. destruct H.
  - cbn [expectedDecorations] in H. apply elem_of_app in H as [H|H].
    + apply markerDecorations_bounds in H. lia.
    + apply IH in H. lia.
Qed.

Lemma expected_bounds (from : Z) doc (d : Decoration) :
  d ∈ expectedDecorations from doc ->
  from <= decorationFrom d /\ decorationFrom d <= decorationTo d
  /\ decorationTo d <= from + Z.of_nat (length (docToString doc)).
Proof.
  revert from. induction doc as [|l doc IH]; intros from H.
  - apply elem_of_nil in H. destruct H.
  - cbn [expectedDecorations] in H. apply elem_of_app in H as [H|H].
    + apply markerDecorations_bounds in H.
      destruct doc as [|l' doc]; [cbn; lia|].
      rewrite docToString_length by discriminate. lia.
    + destruct doc as [|l' doc]; [apply elem_of_nil in H; destruct H|].
      apply IH in H. rewrite docToString_length by discriminate. lia.
Qed.

Lemma expected_sorted (from : Z) doc :
  StronglySorted (fun a b => decorationFrom a <= decorationFrom b)
    (expectedDecorations from doc).
Proof.
  revert from. induction doc as [|l doc IH]; intros from; [constructor|].
  cbn [expectedDecorations].
  assert (Hrest : forall d, d ∈ expectedDecorations (from + Z.of_nat (length l) + 1) doc ->
                            from + Z.of_nat (length l) + 1 <= decorationFrom d)
    by (intros d; apply expected_from_ge).
  unfold markerDecorations. destruct (includes l BOOKMARK_MARKER) eqn:Hinc; [|apply IH].
  destruct (indexOf_found l Hinc) as (k & -> & Hk & _).
  cbn [app]. constructor; [constructor; [apply IH|]|].
  - apply Forall_forall. intros d Hd. apply Hrest in Hd.
    cbn [decorationFrom]. lia.
  - constructor; [cbn [decorationFrom]; lia|].
    apply Forall_forall. intros d Hd. apply Hrest in Hd.
    cbn [decorationFrom]. lia.
Qed.

(** X14 - The decorations of a document are added by ascending start
    position, and every one of them lies inside the document. *)
Theorem decorations_ascending doc :
  Forall noLF doc -> doc <> [] ->
  StronglySorted (fun a b => decorationFrom a <= decorationFrom b)
    (buildDecorations doc)
  /\ Forall (fun d => 0 <= decorationFrom d <= decorationTo d
                      /\ decorationTo d <= Z.of_nat (length (docToString doc)))
       (buildDecorations doc).
Proof.
  intros HF Hne. rewrite (buildDecorations_expected doc HF Hne). split.
  - apply expected_sorted.
  - apply Forall_forall. intros d Hd. apply expected_bounds in Hd. lia.
Qed.

Lemma decorations_ascending_witness :
  StronglySorted (fun a b => decorationFrom a <= decorationFrom b)
    (buildDecorations markedDoc)
  /\ Forall (fun d => 0 <= decorationFrom d <= decorationTo d
                      /\ decorationTo d <= Z.of_nat (length (docToString markedDoc)))
       (buildDecorations markedDoc).
Proof.
  apply (decorations_ascending markedDoc).
  - repeat constructor; intros H; apply list_elem_of_In in H;
      vm_compute in H; intuition discriminate.
  - discriminate.
Defined.

End DecorationOrder.

(** ** Updates of the decoration plugin *)

Section PluginUpdates.

Implicit Types doc : list jsstring.

Context {ChangeSet : Type}.
Variable mapDecorations : ChangeSet -> list Decoration -> list Decoration.

Lemma applyEffects_snoc doc effs e decorations :
  applyEffects doc (effs ++ [e]) decorations
  = match e with
    | Some value => buildDecorationsFromEffect doc value
    | None => applyEffects doc effs decorations
    end.
Proof. unfold applyEffects. rewrite fold_left_app. reflexivity. Qed.

Lemma applyEffects_last doc effs decorations :
  applyEffects doc effs decorations
  = match lastBookmarkEffect effs with
    | Some value => buildDecorationsFromEffect doc value
    | None => decorations
    end.
Proof.
  induction effs as [|e effs IH] using rev_ind; [reflexivity|].
  rewrite applyEffects_snoc. unfold lastBookmarkEffect in *.
  rewrite omap_app. destruct e as [value|].
  - change (omap id [Some value]) with [value]. rewrite last_snoc. reflexivity.
  - change (omap id [@None BookmarkEffect]) with (@nil BookmarkEffect).
    rewrite app_nil_r. exact IH.
Qed.

(** X15 - An update that changes the document ends with the decorations
    built from the new document, whatever the set was, however the editor
    maps it, and whatever effects came along; an update that does not is
    decided by its last bookmark effect alone, and without one the set
    stays as it is. *)
Theorem pluginUpdate_outcome (decorations : list Decoration)
    (update : ViewUpdate ChangeSet) :
  pluginUpdate ChangeSet mapDecorations decorations update
  = if docChanged ChangeSet update then buildDecorations (viewDoc ChangeSet update)
    else match lastBookmarkEffect (effects ChangeSet update) with
         | Some value => buildDecorationsFromEffect (viewDoc ChangeSet update) value
         | None => decorations
         end.
Proof.
  unfold pluginUpdate. destruct (docChanged ChangeSet update); [reflexivity|].
  apply applyEffects_last.
Qed.

End PluginUpdates.

Section EffectUpdates.

Implicit Types doc : list jsstring.

Context {ChangeSet : Type}.
Variable mapDecorations : ChangeSet -> list Decoration -> list Decoration.

Lemma effect_decoration_cases doc (e : BookmarkEffect) :
  buildDecorationsFromEffect doc e = []
  \/ exists k : nat,
       effectLine e = Z.of_nat k /\ (k < length doc)%nat
       /\ effectHasBookmark e = true
       /\ buildDecorationsFromEffect doc e = [LineDecoration (lineFrom doc k)].
Proof.
  unfold buildDecorationsFromEffect, docLine.
  destruct (effectHasBookmark e); [|left; reflexivity].
  destruct ((1 <=? effectLine e + 1) && (effectLine e + 1 <=? Z.of_nat (length doc)))
    eqn:Hr; [|left; reflexivity].
  apply andb_true_iff in Hr as [H1 H2]. apply Z.leb_le in H1, H2.
  right. exists (Z.to_nat (effectLine e)).
  replace (effectLine e + 1 - 1) with (effectLine e) by lia.
  repeat split; lia.
Qed.

Lemma effect_decoration_in_range doc (e : BookmarkEffect) (k : nat) :
  effectLine e = Z.of_nat k -> (k < length doc)%nat -> effectHasBookmark e = true ->
  buildDecorationsFromEffect doc e = [LineDecoration (lineFrom doc k)].
Proof.
  intros Hk Hlen Hb. unfold buildDecorationsFromEffect, docLine. rewrite Hb, Hk.
  replace ((1 <=? Z.of_nat k + 1) && (Z.of_nat k + 1 <=? Z.of_nat (length doc)))
    with true by (symmetry; apply andb_true_iff; split; apply Z.leb_le; lia).
  replace (Z.to_nat (Z.of_nat k + 1 - 1)) with k by lia. reflexivity.
Qed.

(** X16 - An update that carries only a bookmark effect, as
    [updateBookmarkDecoration] dispatches it, leaves one decoration at
    most: the line decoration at the start of the line of the effect when
    that line exists and the effect sets a bookmark, nothing otherwise.
    It never hides the marker text. *)
Theorem effect_update_line_only (decorations : list Decoration) (c : ChangeSet)
    (effs : list (option BookmarkEffect)) doc (e : BookmarkEffect) :
  let update := {| docChanged := false; changes := c;
                   effects := effs ++ [Some e]; viewDoc := doc |} in
  let result := pluginUpdate ChangeSet mapDecorations decorations update in
  (forall p, ~ hidden result p)
  /\ (length result <= 1)%nat
  /\ (forall d, d ∈ result ->
        exists k : nat, effectLine e = Z.of_nat k /\ (k < length doc)%nat
                        /\ effectHasBookmark e = true
                        /\ d = LineDecoration (lineFrom doc k))
  /\ (forall k : nat, effectLine e = Z.of_nat k -> (k < length doc)%nat ->
        effectHasBookmark e = true ->
        result = [LineDecoration (lineFrom doc k)]).
Proof.
  cbv zeta. unfold pluginUpdate. cbn [docChanged effects viewDoc changes].
  rewrite applyEffects_snoc. split; [|split; [|split]].
  - intros p (a & b & H & _).
    destruct (effect_decoration_cases doc e) as [E|(k & _ & _ & _ & E)];
      rewrite E in H.
    + apply elem_of_nil in H. destruct H.
    + apply elem_of_cons in H as [H|H]; [discriminate|].
      apply elem_of_nil in H. destruct H.
  - destruct (effect_decoration_cases doc e) as [E|(k & _ & _ & _ & E)];
      rewrite E; cbn [length]; lia.
  - intros d H.
    destruct (effect_decoration_cases doc e) as [E|(k & Hk & Hlen & Hb & E)];
      rewrite E in H.
    + apply elem_of_nil in H. destruct H.
    + apply elem_of_cons in H as [->|H]; [exists k; auto|].
      apply elem_of_nil in H. destruct H.
  - apply effect_decoration_in_range.
Qed.

End EffectUpdates.

Lemma effect_update_line_only_witness :
  pluginUpdate unit (fun _ decorations => decorations) (buildDecorations markedDoc)
    {| docChanged := false; changes := tt;
       effects := [] ++ [Some {| effectLine := 1; effectHasBookmark := true |}];
       viewDoc := markedDoc |}
  = [LineDecoration 2].
Proof.
  pose proof (effect_update_line_only (fun _ decorations => decorations)
                (buildDecorations markedDoc) tt [] markedDoc
                {| effectLine := 1; effectHasBookmark := true |}) as H.
  cbv zeta in H. destruct H as (_ & _ & _ & H).
  apply (H 1%nat); [reflexivity|cbn; lia|reflexivity].
Defined.

(** ** The buttons in the view headers *)

Section Buttons.

Import ViewActions.

Variable addAction : string -> string -> ActionElement.
Variable setIcon : list string -> string -> list string.
Variable findBookmark : jsstring -> BookmarkState.

Implicit Types ui : Ui.

Lemma consistent_empty : consistent emptyUi.
Proof.
  split.
  - intros view e H. exfalso. exact (lookup_empty_Some (M := gmap nat) view e H).
  - intros v1 v2 e H. exfalso. exact (lookup_empty_Some (M := gmap nat) v1 e H).
Qed.

Lemma consistent_add ui (view : nat) :
  consistent ui -> consistent (addActionToView addAction ui view).
Proof.
  intros [Hp Hi]. split; cbn [addActionToView actionElements page fresh].
  - intros v e H. destruct (decide (view = v)) as [->|Hne].
    + rewrite lookup_insert_eq in H. injection H as <-.
      split; [lia|]. rewrite lookup_insert_eq. eauto.
    + rewrite lookup_insert_ne in H by exact Hne.
      destruct (Hp v e H) as [Hlt Hs]. split; [lia|].
      rewrite lookup_insert_ne by lia. exact Hs.
  - intros v1 v2 e H1 H2.
    destruct (decide (view = v1)) as [E1|N1]; destruct (decide (view = v2)) as [E2|N2];
      [congruence|subst v1|subst v2|].
    + rewrite lookup_insert_eq in H1. injection H1 as <-.
      rewrite lookup_insert_ne in H2 by exact N2. apply Hp in H2. lia.
    + rewrite lookup_insert_eq in H2. injection H2 as <-.
      rewrite lookup_insert_ne in H1 by exact N1. apply Hp in H1. lia.
    + rewrite lookup_insert_ne in H1 by exact N1.
      rewrite lookup_insert_ne in H2 by exact N2. eapply Hi; eassumption.
Qed.

Lemma consistent_update ui (view : nat) (iconName : string) :
  consistent ui -> consistent (updateActionIcon setIcon ui view iconName).
Proof.
  intros [Hp Hi]. unfold updateActionIcon.
  destruct (actionElements ui !! view) as [e|] eqn:He; [|split; assumption].
  destruct (page ui !! e) as [el|] eqn:Hel; [|split; assumption].
  split; cbn [actionElements page fresh]; [|exact Hi].
  intros v e' H. destruct (Hp v e' H) as [Hlt Hs]. split; [exact Hlt|].
  apply lookup_insert_is_Some. destruct (decide (e = e')); auto.
Qed.

Lemma consistent_remove ui (view : nat) :
  consistent ui -> consistent (removeActionFromView ui view).
Proof.
  intros [Hp Hi]. unfold removeActionFromView.
  destruct (actionElements ui !! view) as [e|] eqn:He; [|split; assumption].
  split; cbn [actionElements page fresh].
  - intros v e' H. apply lookup_delete_Some in H as [_ H].
    destruct (Hp v e' H) as [Hlt Hs]. split; [exact Hlt|].
    apply lookup_alter_is_Some. exact Hs.
  - intros v1 v2 e' H1 H2. apply lookup_delete_Some in H1 as [_ H1].
    apply lookup_delete_Some in H2 as [_ H2]. eapply Hi; eassumption.
Qed.

Lemma consistent_setupView ui (view : nat) (content : jsstring) :
  consistent ui -> consistent (setupView addAction setIcon findBookmark ui view content).
Proof.
  intros H. unfold setupView, checkAndUpdateIcon. apply consistent_update.
  destruct (getActionElement ui view); [exact H|apply consistent_add, H].
Qed.

Lemma consistent_onunload ui (leaves : list (option nat)) :
  consistent ui -> consistent (onunload ui leaves).
Proof.
  unfold onunload. revert ui. induction leaves as [|leaf leaves IH]; intros ui H;
    [exact H|].
  cbn [fold_left]. apply IH. destruct leaf; [apply consistent_remove|]; exact H.
Qed.

(** X17 - Whatever sequence of leaf changes, icon updates and unloads the
    plugin goes through, every button it tracks is one the host has made
    for it, and no two views share a button. *)
Theorem buttons_consistent ui :
  reachable addAction setIcon findBookmark ui -> consistent ui.
Proof.
  induction 1 as [|ui ui' _ IH Hstep]; [apply consistent_empty|].
  destruct Hstep as [ui [[view content]|]|ui view iconName|ui leaves].
  - apply consistent_setupView, IH.
  - exact IH.
  - apply consistent_update, IH.
  - apply consistent_onunload, IH.
Qed.

Lemma updateActionIcon_tracked ui (view : nat) (iconName : string) (e : nat) :
  consistent ui -> actionElements ui !! view = Some e ->
  let ui' := updateActionIcon setIcon ui view iconName in
  actionElements ui' = actionElements ui /\ fresh ui' = fresh ui
  /\ (exists el, page ui' !! e = Some el
                 /\ title el = Some (tooltip iconName)
                 /\ ariaLabel el = Some (tooltip iconName))
  /\ (forall e', e' <> e -> page ui' !! e' = page ui !! e').
Proof.
  intros [Hp _] He. cbv zeta. unfold updateActionIcon. rewrite He.
  destruct (Hp view e He) as [_ [el Hel]]. rewrite Hel.
  cbn [actionElements page fresh]. repeat split.
  - eexists. rewrite lookup_insert_eq. repeat split.
  - intros e' Hne. apply lookup_insert_ne. congruence.
Qed.

(** X18 - Setting up a view leaves it with exactly one tracked button,
    the one it had if it had one; the tooltip and the accessible name of
    that button say "Jump to bookmark" when the text of the view holds a
    bookmark and "Set bookmark" when it does not; the buttons of all other
    views are as they were. *)
Theorem setupView_button ui (view : nat) (content : jsstring) :
  consistent ui ->
  let ui' := setupView addAction setIcon findBookmark ui view content in
  let label := if hasBookmark (findBookmark content)
               then "Jump to bookmark"%string else "Set bookmark"%string in
  (exists e el,
     getActionElement ui' view = Some e
     /\ hasActionForView ui' view = true
     /\ page ui' !! e = Some el
     /\ title el = Some label /\ ariaLabel el = Some label
     /\ (forall e0, actionElements ui !! view = Some e0 ->
                    e0 = e /\ fresh ui' = fresh ui))
  /\ (forall other, other <> view ->
        actionElements ui' !! other = actionElements ui !! other)
  /\ (forall other e', other <> view -> actionElements ui !! other = Some e' ->
        page ui' !! e' = page ui !! e').
Proof.
  intros Hc. cbv zeta. unfold setupView, checkAndUpdateIcon, getActionElement.
  set (iconName := if hasBookmark (findBookmark content)
                   then "bookmark-check"%string else "bookmark"%string).
  assert (Hlabel : tooltip iconName
                   = if hasBookmark (findBookmark content)
                     then "Jump to bookmark"%string else "Set bookmark"%string).
  { unfold iconName. destruct (hasBookmark (findBookmark content)); reflexivity. }
  rewrite <- Hlabel.
  destruct (actionElements ui !! view) as [e|] eqn:He.
  - destruct (updateActionIcon_tracked ui view iconName e Hc He)
      as (Hm & Hf & (el & Hel & Ht & Ha) & Hframe).
    split; [|split].
    + exists e, el. unfold hasActionForView, getActionElement. rewrite Hm, He.
      repeat split; auto; try congruence;
        try (apply bool_decide_eq_true_2; eauto).
    + intros other _. rewrite Hm. reflexivity.
    + intros other e' Hne Ho. apply Hframe. intros ->.
      destruct Hc as [_ Hi]. apply Hne. eapply Hi; eassumption.
  - pose proof (consistent_add ui view Hc) as Hc'.
    assert (He' : actionElements (addActionToView addAction ui view) !! view
                  = Some (fresh ui)) by apply lookup_insert_eq.
    destruct (updateActionIcon_tracked _ view iconName _ Hc' He')
      as (Hm & Hf & (el & Hel & Ht & Ha) & Hframe).
    split; [|split].
    + exists (fresh ui), el. unfold hasActionForView, getActionElement.
      rewrite Hm, He'. repeat split; auto; try discriminate;
        try (apply bool_decide_eq_true_2; eauto).
    + intros other Hne. rewrite Hm. apply lookup_insert_ne. congruence.
    + intros other e' Hne Ho. destruct Hc as [Hp _].
      destruct (Hp other e' Ho) as [Hlt _].
      rewrite Hframe by lia. apply lookup_insert_ne. lia.
Qed.

Lemma removeActionFromView_other ui (view other : nat) :
  other <> view ->
  actionElements (removeActionFromView ui view) !! other = actionElements ui !! other.
Proof.
  intros Hne. unfold removeActionFromView.
  destruct (actionElements ui !! view); [|reflexivity].
  apply lookup_delete_ne. congruence.
Qed.

Lemma removeActionFromView_gone ui (view : nat) :
  actionElements (removeActionFromView ui view) !! view = None.
Proof.
  unfold removeActionFromView.
  destruct (actionElements ui !! view) eqn:He; [apply lookup_delete_eq|exact He].
Qed.

Lemma removeActionFromView_detached ui (view e : nat) (el : ActionElement) :
  page ui !! e = Some el -> attached el = false ->
  exists el', page (removeActionFromView ui view) !! e = Some el'
              /\ attached el' = false.
Proof.
  intros Hel Ha. unfold removeActionFromView.
  destruct (actionElements ui !! view) as [e0|]; [|eauto].
  cbn [page]. destruct (decide (e0 = e)) as [->|Hne].
  - rewrite lookup_alter_eq, Hel. eexists. split; reflexivity.
  - rewrite lookup_alter_ne by exact Hne. eauto.
Qed.

Lemma removeActionFromView_detaches ui (view e : nat) :
  consistent ui -> actionElements ui !! view = Some e ->
  exists el', page (removeActionFromView ui view) !! e = Some el'
              /\ attached el' = false.
Proof.
  intros [Hp _] He. unfold removeActionFromView. rewrite He. cbn [page].
  destruct (Hp view e He) as [_ [el Hel]].
  rewrite lookup_alter_eq, Hel. eexists. split; reflexivity.
Qed.

Lemma removeActionFromView_page ui (view other e : nat) :
  consistent ui -> other <> view -> actionElements ui !! other = Some e ->
  page (removeActionFromView ui view) !! e = page ui !! e.
Proof.
  intros [_ Hi] Hne He. unfold removeActionFromView.
  destruct (actionElements ui !! view) as [e0|] eqn:He0; [|reflexivity].
  cbn [page]. apply lookup_alter_ne. intros ->. apply Hne. eapply Hi; eassumption.
Qed.

Lemma onunload_cons ui (leaf : option nat) (leaves : list (option nat)) :
  onunload ui (leaf :: leaves)
  = onunload (match leaf with
              | Some view => removeActionFromView ui view
              | None => ui
              end) leaves.
Proof. reflexivity. Qed.

Lemma onunload_detached ui (leaves : list (option nat)) (e : nat) (el : ActionElement) :
  page ui !! e = Some el -> attached el = false ->
  exists el', page (onunload ui leaves) !! e = Some el' /\ attached el' = false.
Proof.
  revert ui el. induction leaves as [|leaf leaves IH]; intros ui el Hel Ha; [eauto|].
  rewrite onunload_cons. destruct leaf as [view|]; [|eapply IH; eassumption].
  destruct (removeActionFromView_detached ui view e el Hel Ha) as (el' & Hel' & Ha').
  eapply IH; eassumption.
Qed.

Lemma onunload_absent ui (leaves : list (option nat)) (view : nat) :
  actionElements ui !! view = None ->
  actionElements (onunload ui leaves) !! view = None.
Proof.
  revert ui. induction leaves as [|leaf leaves IH]; intros ui H; [exact H|].
  rewrite onunload_cons. apply IH. destruct leaf as [v|]; [|exact H].
  destruct (decide (view = v)) as [->|Hne]; [apply removeActionFromView_gone|].
  rewrite removeActionFromView_other by exact Hne. exact H.
Qed.

Lemma onunload_effect ui (leaves : list (option nat)) :
  consistent ui ->
  (forall view, Some view ∈ leaves ->
     actionElements (onunload ui leaves) !! view = None)
  /\ (forall view e, Some view ∈ leaves -> actionElements ui !! view = Some e ->
        exists el, page (onunload ui leaves) !! e = Some el /\ attached el = false)
  /\ (forall view, Some view ∉ leaves ->
        actionElements (onunload ui leaves) !! view = actionElements ui !! view
        /\ forall e, actionElements ui !! view = Some e ->
                     page (onunload ui leaves) !! e = page ui !! e).
Proof.
  intros Hc.
  revert ui Hc. induction leaves as [|leaf leaves IH]; intros ui Hc.
  - split; [|split].
    + intros view H. apply elem_of_nil in H. destruct H.
    + intros view e H. apply elem_of_nil in H. destruct H.
    + intros view _. split; [reflexivity|]. intros e _. reflexivity.
  - rewrite onunload_cons. destruct leaf as [v|].
    + destruct (IH _ (consistent_remove ui v Hc)) as (IH1 & IH2 & IH3).
      split; [|split].
      * intros view H. apply elem_of_cons in H as [[= ->]|H]; [|apply IH1, H].
        apply onunload_absent, removeActionFromView_gone.
      * intros view e H He.
        destruct (decide (view = v)) as [->|Hne].
        -- destruct (removeActionFromView_detaches ui v e Hc He) as (el & Hel & Ha).
           eapply onunload_detached; eassumption.
        -- apply elem_of_cons in H as [[= ?]|H]; [congruence|].
           apply (IH2 view e H).
           rewrite removeActionFromView_other by exact Hne. exact He.
      * intros view H. apply not_elem_of_cons in H as [Hne H].
        assert (Hne' : view <> v) by congruence.
        destruct (IH3 view H) as [E1 E2]. split.
        -- rewrite E1. apply removeActionFromView_other, Hne'.
        -- intros e He. rewrite E2
             by (rewrite removeActionFromView_other by exact Hne'; exact He).
           eapply removeActionFromView_page; eassumption.
    + destruct (IH ui Hc) as (IH1 & IH2 & IH3). split; [|split].
      * intros view H. apply elem_of_cons in H as [[=]|H]. apply IH1, H.
      * intros view e H. apply elem_of_cons in H as [[=]|H]. apply IH2, H.
      * intros view H. apply not_elem_of_cons in H as [_ H]. apply IH3, H.
Qed.

(** X19 - Unloading removes the button of every markdown leaf: none of
    these views is tracked afterwards and the button each of them had is
    out of the page; a view that is on no leaf keeps its button as it
    was. *)
Theorem onunload_clears ui (leaves : list (option nat)) :
  consistent ui ->
  let ui' := onunload ui leaves in
  (forall view, Some view ∈ leaves ->
     getActionElement ui' view = None /\ hasActionForView ui' view = false)
  /\ (forall view e, Some view ∈ leaves -> actionElements ui !! view = Some e ->
        exists el, page ui' !! e = Some el /\ attached el = false)
  /\ (forall view, Some view ∉ leaves ->
        actionElements ui' !! view = actionElements ui !! view
        /\ forall e, actionElements ui !! view = Some e ->
                     page ui' !! e = page ui !! e).
Proof.
  intros Hc. cbv zeta. destruct (onunload_effect ui leaves Hc) as (H1 & H2 & H3).
  split; [|split; assumption].
  intros view Hv. unfold getActionElement, hasActionForView.
  rewrite (H1 view Hv). split; [reflexivity|].
  apply bool_decide_eq_false_2. intros [? ?]. discriminate.
Qed.

End Buttons.

Lemma buttons_consistent_witness :
  ViewActions.consistent
    (ViewActions.handleActiveLeafChange ViewActions.sampleAddAction
       ViewActions.sampleSetIcon BookmarkManager.findBookmark
       ViewActions.emptyUi (Some (0%nat, js "note"))).
Proof.
  apply (buttons_consistent ViewActions.sampleAddAction ViewActions.sampleSetIcon
           BookmarkManager.findBookmark).
  eapply ViewActions.reachable_step.
  - apply ViewActions.reachable_start.
  - apply ViewActions.step_leaf_change.
Defined.

Lemma setupView_button_witness :
  exists e el,
    ViewActions.getActionElement
      (ViewActions.setupView ViewActions.sampleAddAction ViewActions.sampleSetIcon
         BookmarkManager.findBookmark ViewActions.emptyUi 0 (js "note")) 0
    = Some e
    /\ ViewActions.page
         (ViewActions.setupView ViewActions.sampleAddAction ViewActions.sampleSetIcon
            BookmarkManager.findBookmark ViewActions.emptyUi 0 (js "note")) !! e
       = Some el
    /\ ViewActions.title el = Some "Set bookmark"%string.
Proof.
  pose proof (setupView_button ViewActions.sampleAddAction ViewActions.sampleSetIcon
                BookmarkManager.findBookmark ViewActions.emptyUi 0 (js "note")
                consistent_empty) as H.
  cbv zeta in H. destruct H as ((e & el & H1 & _ & H2 & H3 & _) & _).
  exists e, el. split; [exact H1|]. split; [exact H2|exact H3].
Defined.

Lemma onunload_clears_witness :
  ViewActions.hasActionForView
    (ViewActions.onunload
       (ViewActions.setupView ViewActions.sampleAddAction ViewActions.sampleSetIcon
          BookmarkManager.findBookmark ViewActions.emptyUi 0 (js "note"))
       [Some 0%nat; None]) 0
  = false.
Proof.
  pose proof (onunload_clears
                (ViewActions.setupView ViewActions.sampleAddAction
                   ViewActions.sampleSetIcon BookmarkManager.findBookmark
                   ViewActions.emptyUi 0 (js "note"))
                [Some 0%nat; None]
                (consistent_setupView _ _ _ _ _ _ consistent_empty)) as H.
  cbv zeta in H. destruct H as (H & _).
  apply (H 0%nat). apply elem_of_cons. left. reflexivity.
Defined.
